(** * A shallow embedding of the Web3 agent sample (google_adk_mcp)

    The development follows the three Python modules of the sample:

    - [task_manager.py]: [AgentTaskManager] (task lifecycle, response
      classification, store update);
    - [agent.py]: [custom_serializer] and [Web3Agent.invoke] (event loop
      over the agent runtime's output);
    - [utils.py]: the schema fixers [fix_openai_validation_errors] and
      [fix_schema_types_recursive].

    Python values are embedded as the inductive type [pyval]; text is
    [string], whose characters stand for the code points 0-255. The
    functions of Python's standard library that the code relies on
    ([str], [repr], [json.dumps], [json.loads], [asyncio.run]) are given
    executable models on that fragment. *)

From Stdlib Require Import ZArith String Ascii List Lia Bool Arith.
From Stdlib Require Import Decimal DecimalString DecimalZ.
From Stdlib Require DecimalPos DecimalN DecimalFacts.
From stdpp Require Import base option strings gmap list.

Set Warnings "-register-all".
Local Open Scope string_scope.
Local Open Scope Z_scope.

(* ===================================================================== *)
(** ** Text *)
(* ===================================================================== *)

Module Text.

Definition dquote : ascii := "034"%char.
Definition squote : ascii := "039"%char.
Definition backslash : ascii := "092"%char.

Definition str1 (c : ascii) : string := String c EmptyString.

(** [s.startswith(p)] *)
Definition startswith (s p : string) : bool := String.prefix p s.

(** [needle in s] for two strings *)
Fixpoint contains (needle s : string) : bool :=
  String.prefix needle s ||
  match s with
  | EmptyString => false
  | String _ r => contains needle r
  end.

(** [sep.join(l)] *)
Fixpoint join (sep : string) (l : list string) : string :=
  match l with
  | [] => EmptyString
  | [x] => x
  | x :: r => x ++ sep ++ join sep r
  end.

(** [c in s] for a character *)
Fixpoint has_char (c : ascii) (s : string) : bool :=
  match s with
  | EmptyString => false
  | String a r => Ascii.eqb a c || has_char c r
  end.

Definition code (c : ascii) : N := N_of_ascii c.

Definition hex_digit (n : N) : ascii :=
  match n with
  | 0 => "0" | 1 => "1" | 2 => "2" | 3 => "3" | 4 => "4"
  | 5 => "5" | 6 => "6" | 7 => "7" | 8 => "8" | 9 => "9"
  | 10 => "a" | 11 => "b" | 12 => "c" | 13 => "d" | 14 => "e"
  | _ => "f"
  end%N%char.

(** two lowercase hexadecimal digits, as in ['{:02x}'.format(ord(c))] *)
Definition hex2 (c : ascii) : string :=
  String (hex_digit (code c / 16)) (String (hex_digit (code c mod 16)) EmptyString).

(** [str(z)] for an int *)
Definition string_of_Z (z : Z) : string := NilZero.string_of_int (Z.to_int z).

End Text.

(* ===================================================================== *)
(** ** Python values *)
(* ===================================================================== *)

(** Keys of a [dict]. [KOther cls repr] is a hashable key of a class that
    [json.dumps] does not accept as a key (a tuple, a bytes object, ...).
    Float, bool and [None] keys are not modelled. *)
Inductive pykey : Type :=
| KStr (s : string)
| KInt (z : Z)
| KOther (cls : string) (repr : string).

(** A [dict] is its list of items in insertion order. [PFloat lit] is a
    float carried as the literal that [repr] gives it: no floating-point
    arithmetic is modelled. [PObj cls odict to_dict ostr] is an instance of
    a class [cls] that is none of the above: [odict] is its [__dict__]
    when it has one, [to_dict] the result of its [to_dict()] method when it
    has one, [ostr] its string form (both [str] and [repr]). *)
Inductive pyval : Type :=
| PNone
| PBool (b : bool)
| PInt (z : Z)
| PFloat (lit : string)
| PStr (s : string)
| PList (l : list pyval)
| PDict (d : list (pykey * pyval))
| PObj (cls : string) (odict : option (list (string * pyval)))
       (to_dict : option pyval) (ostr : string).

Module Py.
Import Text.

Definition key_eqb (a b : pykey) : bool :=
  match a, b with
  | KStr s, KStr t => String.eqb s t
  | KInt x, KInt y => Z.eqb x y
  | KOther c r, KOther c' r' => String.eqb c c' && String.eqb r r'
  | _, _ => false
  end.

(** [isinstance(v, str)], [isinstance(v, dict)], [isinstance(v, list)] *)
Definition is_str (v : pyval) : bool :=
  match v with PStr _ => true | _ => false end.
Definition is_dict (v : pyval) : bool :=
  match v with PDict _ => true | _ => false end.
Definition is_list (v : pyval) : bool :=
  match v with PList _ => true | _ => false end.

(** [type(v).__name__] *)
Definition class_name (v : pyval) : string :=
  match v with
  | PNone => "NoneType"
  | PBool _ => "bool"
  | PInt _ => "int"
  | PFloat _ => "float"
  | PStr _ => "str"
  | PList _ => "list"
  | PDict _ => "dict"
  | PObj cls _ _ _ => cls
  end.

(** *** Dictionaries *)

(** [k in d] *)
Fixpoint dict_has (k : string) (d : list (pykey * pyval)) : bool :=
  match d with
  | [] => false
  | (KStr k', _) :: r => String.eqb k k' || dict_has k r
  | _ :: r => dict_has k r
  end.

(** [d.get(k)] ([None] when absent) *)
Fixpoint dict_get (k : string) (d : list (pykey * pyval)) : option pyval :=
  match d with
  | [] => None
  | (KStr k', v) :: r => if String.eqb k k' then Some v else dict_get k r
  | _ :: r => dict_get k r
  end.

(** [d[k] = v]: the value of an existing key is replaced in place, a new
    key goes to the end. *)
Fixpoint dict_set (k : string) (v : pyval) (d : list (pykey * pyval))
  : list (pykey * pyval) :=
  match d with
  | [] => [(KStr k, v)]
  | (KStr k', w) :: r =>
      if String.eqb k k' then (KStr k', v) :: r
      else (KStr k', w) :: dict_set k v r
  | e :: r => e :: dict_set k v r
  end.

(** [dict(pairs)] for pairs with string keys *)
Definition dict_of_pairs (pairs : list (string * pyval)) : list (pykey * pyval) :=
  fold_left (fun d kv => dict_set (fst kv) (snd kv) d) pairs [].

(** *** [repr] and [str] *)

(** [c.isprintable()] on the code points 0-255 *)
Definition printable (c : ascii) : bool :=
  let n := code c in
  ((32 <=? n) && (n <=? 126) || (161 <=? n) && negb (n =? 173))%N.

Definition repr_char (q : ascii) (c : ascii) : string :=
  if Ascii.eqb c backslash then String backslash (str1 backslash)
  else if Ascii.eqb c q then String backslash (str1 q)
  else if Ascii.eqb c "009" then String backslash "t"
  else if Ascii.eqb c "010" then String backslash "n"
  else if Ascii.eqb c "013" then String backslash "r"
  else if printable c then str1 c
  else String backslash (String "x" (hex2 c)).

Fixpoint repr_chars (q : ascii) (s : string) : string :=
  match s with
  | EmptyString => EmptyString
  | String c r => repr_char q c ++ repr_chars q r
  end.

(** [repr(s)]: single quotes, unless [s] has a single quote and no
    double quote. *)
Definition repr_str (s : string) : string :=
  let q := if has_char squote s && negb (has_char dquote s)
           then dquote else squote in
  String q (repr_chars q s ++ str1 q).

Definition repr_key (k : pykey) : string :=
  match k with
  | KStr s => repr_str s
  | KInt z => string_of_Z z
  | KOther _ r => r
  end.

(** [repr(v)] *)
Fixpoint py_repr (v : pyval) : string :=
  match v with
  | PNone => "None"
  | PBool true => "True"
  | PBool false => "False"
  | PInt z => string_of_Z z
  | PFloat lit => lit
  | PStr s => repr_str s
  | PList l => "[" ++ join ", " (List.map py_repr l) ++ "]"
  | PDict d =>
      "{" ++ join ", " (List.map (fun kv => repr_key (fst kv) ++ ": " ++ py_repr (snd kv)) d)
          ++ "}"
  | PObj _ _ _ ostr => ostr
  end.

(** [str(v)] *)
Definition py_str (v : pyval) : string :=
  match v with
  | PStr s => s
  | _ => py_repr v
  end.

End Py.

(* ===================================================================== *)
(** ** Exceptions and results *)
(* ===================================================================== *)

(** The subclasses of [Exception] that the code raises or catches by
    name, each with its message ([str(e)]). [JSONDecodeError] is a
    subclass of [ValueError]; [TimeoutError] is [asyncio.TimeoutError]. *)
Inductive exn : Type :=
| TimeoutError (msg : string)
| ValueError (msg : string)
| JSONDecodeError (msg : string)
| TypeError (msg : string)
| AttributeError (msg : string)
| IndexError (msg : string)
| RuntimeError (msg : string)
| NotImplementedError (msg : string)
| OtherError (cls : string) (msg : string).

(** [str(e)] *)
Definition exn_str (e : exn) : string :=
  match e with
  | TimeoutError m | ValueError m | JSONDecodeError m | TypeError m
  | AttributeError m | IndexError m | RuntimeError m
  | NotImplementedError m | OtherError _ m => m
  end.

Inductive Result (A : Type) : Type :=
| Ok (a : A)
| Raise (e : exn).
Arguments Ok {A} a.
Arguments Raise {A} e.

Definition rbind {A B : Type} (r : Result A) (k : A -> Result B) : Result B :=
  match r with
  | Ok a => k a
  | Raise e => Raise e
  end.

(* ===================================================================== *)
(** ** [json.dumps] and [json.loads] *)
(* ===================================================================== *)

(** agent.py, [custom_serializer] *)
Definition custom_serializer (obj : pyval) : pyval :=
  match obj with
  | PObj _ (Some fields) _ _ =>
      PDict (List.map (fun kv => (KStr (fst kv), snd kv)) fields)
  | PObj _ None (Some d) _ => d
  | _ => PStr (Py.py_str obj)
  end.

Module Json.
Import Text.

(** One character of a string literal, as [json.dumps] writes it with
    its default [ensure_ascii=True]. *)
Definition escape_char (c : ascii) : string :=
  if Ascii.eqb c dquote then String backslash (str1 dquote)
  else if Ascii.eqb c backslash then String backslash (str1 backslash)
  else if Ascii.eqb c "010" then String backslash "n"
  else if Ascii.eqb c "013" then String backslash "r"
  else if Ascii.eqb c "009" then String backslash "t"
  else if Ascii.eqb c "008" then String backslash "b"
  else if Ascii.eqb c "012" then String backslash "f"
  else if ((32 <=? code c) && (code c <=? 126))%N then str1 c
  else String backslash (String "u" (String "0" (String "0" (hex2 c)))).

Fixpoint escape (s : string) : string :=
  match s with
  | EmptyString => EmptyString
  | String c r => escape_char c ++ escape r
  end.

Definition quote (s : string) : string :=
  String dquote (escape s ++ str1 dquote).

(** A key of a dict, coerced to the name of a JSON member. *)
Definition dumps_key (k : pykey) : Result string :=
  match k with
  | KStr s => Ok (quote s)
  | KInt z => Ok (quote (string_of_Z z))
  | KOther cls _ =>
      Raise (TypeError ("keys must be str, int, float, bool or None, not " ++ cls))
  end.

(** The text of a float ([floatstr] of json.encoder): [repr], except for
    [nan], [inf] and [-inf]. *)
Definition floatstr (lit : string) : string :=
  if String.eqb lit "nan" then "NaN"
  else if String.eqb lit "inf" then "Infinity"
  else if String.eqb lit "-inf" then "-Infinity"
  else lit.

(** [json.dumps(v, default=custom_serializer)]: separators [", "] and
    [": "], items in order. An object that is not a JSON type is replaced
    by what [custom_serializer] returns for it, which is encoded in turn
    (see [dumps_custom_serializer]). *)
Fixpoint dumps (v : pyval) : Result string :=
  match v with
  | PNone => Ok "null"
  | PBool true => Ok "true"
  | PBool false => Ok "false"
  | PInt z => Ok (string_of_Z z)
  | PFloat lit => Ok (floatstr lit)
  | PStr s => Ok (quote s)
  | PList l =>
      rbind
        ((fix items (l : list pyval) : Result (list string) :=
            match l with
            | [] => Ok []
            | x :: r =>
                rbind (dumps x) (fun s =>
                rbind (items r) (fun ss => Ok (s :: ss)))
            end) l)
        (fun ss => Ok ("[" ++ join ", " ss ++ "]"))
  | PDict d =>
      rbind
        ((fix members (d : list (pykey * pyval)) : Result (list string) :=
            match d with
            | [] => Ok []
            | (k, x) :: r =>
                rbind (dumps_key k) (fun ks =>
                rbind (dumps x) (fun s =>
                rbind (members r) (fun ss => Ok ((ks ++ ": " ++ s) :: ss))))
            end) d)
        (fun ss => Ok ("{" ++ join ", " ss ++ "}"))
  | PObj _ (Some fields) _ _ =>
      rbind
        ((fix members (d : list (string * pyval)) : Result (list string) :=
            match d with
            | [] => Ok []
            | (k, x) :: r =>
                rbind (dumps x) (fun s =>
                rbind (members r) (fun ss => Ok ((quote k ++ ": " ++ s) :: ss)))
            end) fields)
        (fun ss => Ok ("{" ++ join ", " ss ++ "}"))
  | PObj _ None (Some d) _ => dumps d
  | PObj _ None None ostr => Ok (quote ostr)
  end.

(** *** The decoder *)

Definition is_ws (c : ascii) : bool :=
  Ascii.eqb c " " || Ascii.eqb c "009" || Ascii.eqb c "010" || Ascii.eqb c "013".

Fixpoint skip_ws (s : string) : string :=
  match s with
  | String c r => if is_ws c then skip_ws r else s
  | EmptyString => s
  end.

Definition is_digit (c : ascii) : bool :=
  ((48 <=? code c) && (code c <=? 57))%N.

Definition hex_val (c : ascii) : option N :=
  let n := code c in
  if ((48 <=? n) && (n <=? 57))%N then Some (n - 48)%N
  else if ((97 <=? n) && (n <=? 102))%N then Some (n - 87)%N
  else if ((65 <=? n) && (n <=? 70))%N then Some (n - 55)%N
  else None.

Definition hex4 (a b c d : ascii) : option N :=
  match hex_val a, hex_val b, hex_val c, hex_val d with
  | Some x, Some y, Some z, Some w => Some (((x * 16 + y) * 16 + z) * 16 + w)%N
  | _, _, _, _ => None
  end.

(** The character that a [\uXXXX] escape denotes. An escape above
    [ÿ] denotes a character outside the alphabet of the model; it is
    read as a question mark. *)
Definition char_of_code (n : N) : ascii :=
  if (n <? 256)%N then ascii_of_N n else "?"%char.

Definition unescape (c : ascii) : option ascii :=
  if Ascii.eqb c dquote then Some dquote
  else if Ascii.eqb c backslash then Some backslash
  else if Ascii.eqb c "/" then Some "/"%char
  else if Ascii.eqb c "b" then Some "008"%char
  else if Ascii.eqb c "f" then Some "012"%char
  else if Ascii.eqb c "n" then Some "010"%char
  else if Ascii.eqb c "r" then Some "013"%char
  else if Ascii.eqb c "t" then Some "009"%char
  else None.

(** The body of a string literal, from behind its opening quote: the
    decoded text and what follows the closing quote. Control characters
    are refused ([strict=True]). *)
Fixpoint scanstring (s : string) : option (string * string) :=
  match s with
  | EmptyString => None
  | String c r =>
      if Ascii.eqb c dquote then Some (EmptyString, r)
      else if Ascii.eqb c backslash then
        match r with
        | String e r1 =>
            if Ascii.eqb e "u" then
              match r1 with
              | String h1 (String h2 (String h3 (String h4 r2))) =>
                  match hex4 h1 h2 h3 h4 with
                  | Some n =>
                      match scanstring r2 with
                      | Some (t, rest) => Some (String (char_of_code n) t, rest)
                      | None => None
                      end
                  | None => None
                  end
              | _ => None
              end
            else
              match unescape e with
              | Some c' =>
                  match scanstring r1 with
                  | Some (t, rest) => Some (String c' t, rest)
                  | None => None
                  end
              | None => None
              end
        | EmptyString => None
        end
      else if (code c <? 32)%N then None
      else
        match scanstring r with
        | Some (t, rest) => Some (String c t, rest)
        | None => None
        end
  end.

(** the longest prefix of digits, and the rest *)
Fixpoint take_digits (s : string) : string * string :=
  match s with
  | String c r =>
      if is_digit c then let (ds, rest) := take_digits r in (String c ds, rest)
      else (EmptyString, s)
  | EmptyString => (EmptyString, s)
  end.

(** the integer part: a single [0], or a non-zero digit and more digits *)
Definition scan_int (s : string) : option (string * string) :=
  match s with
  | String c r =>
      if Ascii.eqb c "0" then Some ("0", r)
      else if is_digit c then
        let (ds, rest) := take_digits r in Some (String c ds, rest)
      else None
  | EmptyString => None
  end.

(** the optional fraction: a point and at least one digit *)
Definition scan_frac (s : string) : string * string :=
  match s with
  | String "." r =>
      match take_digits r with
      | (String d ds, rest) => (String "." (String d ds), rest)
      | _ => (EmptyString, s)
      end
  | _ => (EmptyString, s)
  end.

(** the optional exponent: [e] or [E], an optional sign, at least one digit *)
Definition scan_exp (s : string) : string * string :=
  match s with
  | String e r =>
      if Ascii.eqb e "e" || Ascii.eqb e "E" then
        match r with
        | String sg r1 =>
            if Ascii.eqb sg "-" || Ascii.eqb sg "+" then
              match take_digits r1 with
              | (String d ds, rest) => (String e (String sg (String d ds)), rest)
              | _ => (EmptyString, s)
              end
            else
              match take_digits r with
              | (String d ds, rest) => (String e (String d ds), rest)
              | _ => (EmptyString, s)
              end
        | EmptyString => (EmptyString, s)
        end
      else (EmptyString, s)
  | EmptyString => (EmptyString, s)
  end.

Definition int_of_digits (ds : string) : Z :=
  match NilEmpty.uint_of_string ds with
  | Some u => Z.of_uint u
  | None => 0
  end.

(** A number: an optional minus sign, the integer part, the optional
    fraction and exponent. Without fraction and exponent it is an int,
    otherwise a float, carried as the literal of the text: of a text
    written by [dumps] this is the [repr] of the float. *)
Definition scan_number (s : string) : option (pyval * string) :=
  let (neg, s1) := match s with
                   | String "-" r => (true, r)
                   | _ => (false, s)
                   end in
  match scan_int s1 with
  | Some (ds, r1) =>
      let (fr, r2) := scan_frac r1 in
      let (ex, r3) := scan_exp r2 in
      match fr, ex with
      | EmptyString, EmptyString =>
          Some (PInt (if neg then - int_of_digits ds else int_of_digits ds), r3)
      | _, _ =>
          Some (PFloat ((if neg then "-" else EmptyString) ++ ds ++ fr ++ ex), r3)
      end
  | None => None
  end.

(** [s] begins with the literal [w]: what follows it *)
Fixpoint strip_prefix (w s : string) : option string :=
  match w, s with
  | EmptyString, _ => Some s
  | String a w', String b s' => if Ascii.eqb a b then strip_prefix w' s' else None
  | _, _ => None
  end.

Definition scan_literal (s : string) : option (pyval * string) :=
  match strip_prefix "null" s with
  | Some r => Some (PNone, r)
  | None =>
  match strip_prefix "true" s with
  | Some r => Some (PBool true, r)
  | None =>
  match strip_prefix "false" s with
  | Some r => Some (PBool false, r)
  | None =>
  match scan_number s with
  | Some res => Some res
  | None =>
  match strip_prefix "NaN" s with
  | Some r => Some (PFloat "nan", r)
  | None =>
  match strip_prefix "Infinity" s with
  | Some r => Some (PFloat "inf", r)
  | None =>
  match strip_prefix "-Infinity" s with
  | Some r => Some (PFloat "-inf", r)
  | None => None
  end end end end end end end.

(** One JSON value at the head of [s], and the rest. [fuel] bounds the
    number of nested calls; every call consumes a character before the
    next one, so the length of the text is enough. *)
Fixpoint scan_value (fuel : nat) (s : string) : option (pyval * string) :=
  match fuel with
  | O => None
  | S n =>
      match s with
      | EmptyString => None
      | String c r =>
          if Ascii.eqb c dquote then
            match scanstring r with
            | Some (t, rest) => Some (PStr t, rest)
            | None => None
            end
          else if Ascii.eqb c "{" then
            match skip_ws r with
            | String "}" rest => Some (PDict [], rest)
            | r1 =>
                match scan_members n r1 with
                | Some (pairs, rest) => Some (PDict (Py.dict_of_pairs pairs), rest)
                | None => None
                end
            end
          else if Ascii.eqb c "[" then
            match skip_ws r with
            | String "]" rest => Some (PList [], rest)
            | r1 =>
                match scan_elements n r1 with
                | Some (vs, rest) => Some (PList vs, rest)
                | None => None
                end
            end
          else scan_literal s
      end
  end

(** the members of an object, from the opening quote of a name *)
with scan_members (fuel : nat) (s : string) : option (list (string * pyval) * string) :=
  match fuel with
  | O => None
  | S n =>
      match s with
      | String c r =>
          if Ascii.eqb c dquote then
            match scanstring r with
            | Some (key, r1) =>
                match skip_ws r1 with
                | String ":" r2 =>
                    match scan_value n (skip_ws r2) with
                    | Some (v, r3) =>
                        match skip_ws r3 with
                        | String "}" rest => Some ([(key, v)], rest)
                        | String "," r4 =>
                            match scan_members n (skip_ws r4) with
                            | Some (ps, rest) => Some ((key, v) :: ps, rest)
                            | None => None
                            end
                        | _ => None
                        end
                    | None => None
                    end
                | _ => None
                end
            | None => None
            end
          else None
      | EmptyString => None
      end
  end

(** the elements of an array, from the first character of an element *)
with scan_elements (fuel : nat) (s : string) : option (list pyval * string) :=
  match fuel with
  | O => None
  | S n =>
      match scan_value n s with
      | Some (v, r1) =>
          match skip_ws r1 with
          | String "]" rest => Some ([v], rest)
          | String "," r2 =>
              match scan_elements n (skip_ws r2) with
              | Some (vs, rest) => Some (v :: vs, rest)
              | None => None
              end
          | _ => None
          end
      | None => None
      end
  end.

(** [json.loads(s)]; [None] stands for [json.JSONDecodeError]. Leading
    and trailing white space is skipped, anything else behind the value
    is an error. *)
Definition loads (s : string) : option pyval :=
  match scan_value (S (String.length s)) (skip_ws s) with
  | Some (v, rest) =>
      match skip_ws rest with
      | EmptyString => Some v
      | _ => None
      end
  | None => None
  end.

End Json.

(* ===================================================================== *)
(** ** The data model (spec, section 3) *)
(* ===================================================================== *)

Inductive Part : Type :=
| TextPart (text : string)
| FilePart (file : pyval)
| DataPart (data : pyval).

Record Message : Type := { role : string; parts : list Part }.

Inductive TaskState : Type := INPUT_REQUIRED | COMPLETED | FAILED.

Record TaskStatus : Type := { state : TaskState; message : option Message }.

Record Artifact : Type := { artifact_parts : list Part }.

(** [artifacts] is [None] until the first update ([_update_store] tests
    [task.artifacts is None]). *)
Record Task : Type := {
  task_id : string;
  status : TaskStatus;
  artifacts : option (list Artifact)
}.

Record TaskSendParams : Type := {
  id : string;
  sessionId : string;
  params_message : Message;
  acceptedOutputModes : list string
}.

Record SendTaskRequest : Type := {
  request_id : string;
  params : TaskSendParams
}.

Inductive RpcError : Type := IncompatibleTypesError.

Record SendTaskResponse : Type := {
  response_id : string;
  result : option Task;
  error : option RpcError
}.

(** the artifact list of a task, [None] read as the empty list *)
Definition artifact_list (t : Task) : list Artifact :=
  match artifacts t with
  | Some l => l
  | None => []
  end.

(* ===================================================================== *)
(** ** task_manager.py *)
(* ===================================================================== *)

(** What the task manager takes from outside of task_manager.py. *)
Record Env : Type := {
  (** [common.server.utils.are_modalities_compatible] *)
  are_modalities_compatible : list string -> list string -> bool;
  (** the status that [upsert_task] gives a task it creates *)
  fresh_status : TaskStatus;
  (** whether an asyncio event loop is running in the calling thread; it
      is, whenever the coroutine [on_send_task] is driven by the server *)
  loop_running : bool;
  (** [await asyncio.wait_for(self.agent.invoke(query, sessionId),
      timeout=BLOCKCHAIN_TIMEOUT)]: the value returned in time, or the
      exception raised, [TimeoutError] when the bound is exceeded *)
  agent_invoke : string -> string -> Result pyval
}.

Module TaskManager.
Import Text.

(** The manager's methods read and write [self.tasks]; an exception
    leaves the writes made before it in place. *)
Definition M (A : Type) : Type :=
  gmap string Task -> Result A * gmap string Task.

Definition ret {A : Type} (a : A) : M A := fun tasks => (Ok a, tasks).

Definition raise {A : Type} (e : exn) : M A := fun tasks => (Raise e, tasks).

Definition bind {A B : Type} (m : M A) (k : A -> M B) : M B :=
  fun tasks =>
    match m tasks with
    | (Ok a, tasks') => k a tasks'
    | (Raise e, tasks') => (Raise e, tasks')
    end.

Definition lift {A : Type} (r : Result A) : M A := fun tasks => (r, tasks).

(** [try: body except <classes>: handler] *)
Definition try_except {A : Type} (body : M A) (catches : exn -> bool)
           (handler : exn -> M A) : M A :=
  fun tasks =>
    match body tasks with
    | (Raise e, tasks') =>
        if catches e then handler e tasks' else (Raise e, tasks')
    | r => r
    end.

Notation "x <- m ;; k" := (bind m (fun x => k))
  (at level 100, m at next level, right associativity).

(** [except asyncio.TimeoutError] *)
Definition is_timeout (e : exn) : bool :=
  match e with TimeoutError _ => true | _ => false end.

(** [except Exception]: every exception of the model is one *)
Definition is_exception (e : exn) : bool := true.

(** [except (json.JSONDecodeError, TypeError)] *)
Definition is_decode_or_type_error (e : exn) : bool :=
  match e with JSONDecodeError _ | TypeError _ => true | _ => false end.

Definition BLOCKCHAIN_TIMEOUT : Z := 45.

(** [Web3Agent.SUPPORTED_CONTENT_TYPES] *)
Definition SUPPORTED_CONTENT_TYPES : list string := ["text"; "text/plain"].

(** Modelled from the spec: [common.server.utils.new_incompatible_types_error]
    is not in the sources; by section 4.1 the response it builds is an
    [IncompatibleTypesError] response for the request. *)
Definition new_incompatible_types_error (rid : string) : SendTaskResponse :=
  {| response_id := rid; result := None; error := Some IncompatibleTypesError |}.

(** Modelled from the spec: [InMemoryTaskManager.upsert_task] is not in
    the sources; by section 3 a task is created on the first request for
    its id (create if absent, otherwise reuse). *)
Definition upsert_task (env : Env) (p : TaskSendParams) : M Task :=
  fun tasks =>
    match tasks !! id p with
    | Some task => (Ok task, tasks)
    | None =>
        let task := {| task_id := id p; status := fresh_status env;
                       artifacts := None |} in
        (Ok task, <[id p := task]> tasks)
    end.

(** [asyncio.run(coro)]. The function "cannot be called when another
    asyncio event loop is running in the same thread": it then raises
    [RuntimeError] and the coroutine is never started. *)
Definition asyncio_run {A : Type} (env : Env) (coro : M A) : M A :=
  if loop_running env
  then raise (RuntimeError "asyncio.run() cannot be called from a running event loop")
  else coro.

(** [_validate_request]: the error response, or [None] *)
Definition _validate_request (env : Env) (request : SendTaskRequest)
  : option SendTaskResponse :=
  if negb (are_modalities_compatible env
             (acceptedOutputModes (params request)) SUPPORTED_CONTENT_TYPES)
  then Some (new_incompatible_types_error (request_id request))
  else None.

(** [_update_store] *)
Definition _update_store (tid : string) (new_status : TaskStatus)
           (new_artifacts : option (list Artifact)) : M Task :=
  fun tasks =>
    match tasks !! tid with
    | None => (Raise (ValueError ("Task " ++ tid ++ " not found")), tasks)
    | Some task =>
        let task' :=
          {| task_id := task_id task;
             status := new_status;
             artifacts :=
               match new_artifacts with
               | Some l => Some (artifact_list task ++ l)%list
               | None => artifacts task
               end |} in
        (Ok task', <[tid := task']> tasks)
    end.

(** [_get_user_query] *)
Definition _get_user_query (task_send_params : TaskSendParams) : Result string :=
  match parts (params_message task_send_params) with
  | [] => Raise (IndexError "list index out of range")
  | TextPart text :: _ => Ok text
  | _ :: _ => Raise (ValueError "Only text parts are supported")
  end.

(** [json.loads] as a call that raises *)
Definition json_loads (s : string) : Result pyval :=
  match Json.loads s with
  | Some v => Ok v
  | None => Raise (JSONDecodeError "Expecting value")
  end.

(** Lines 128-151 of [_invoke]: the parts made from the agent's result.
    The test of line 130 is
    [isinstance(result, (dict, list)) or result.startswith("{") or
     result.startswith("[")]; a value that is neither a container nor a
    string has no [startswith]. *)
Definition classify (result : pyval) : Result (list Part) :=
  let reserialized := rbind (Json.dumps result) json_loads in
  let attempt :=
    match result with
    | PDict _ | PList _ =>
        rbind reserialized (fun json_result => Ok [DataPart json_result])
    | PStr s =>
        if startswith s "{" || startswith s "[" then
          rbind
            (match json_loads s with
             | Raise (JSONDecodeError _) => reserialized
             | r => r
             end)
            (fun json_result => Ok [DataPart json_result])
        else Ok [TextPart s]
    | _ =>
        Raise (AttributeError
                 ("'" ++ Py.class_name result ++ "' object has no attribute 'startswith'"))
    end in
  match attempt with
  | Raise e =>
      if is_decode_or_type_error e then Ok [TextPart (Py.py_str result)]
      else Raise e
  | r => r
  end.

(** Lines 154-158 of [_invoke] *)
Definition task_state_of (result : pyval) : TaskState :=
  if contains "MISSING_INFO:" (Py.py_str result) then INPUT_REQUIRED else COMPLETED.

Definition agent_status (st : TaskState) (ps : list Part) : TaskStatus :=
  {| state := st; message := Some {| role := "agent"; parts := ps |} |}.

Definition task_response (rid : string) (task : Task) : SendTaskResponse :=
  {| response_id := rid; result := Some task; error := None |}.

(** [_create_error_response] *)
Definition _create_error_response (env : Env) (rid tid error_msg : string)
  : M SendTaskResponse :=
  let parts := [TextPart error_msg] in
  try_except
    (task <- asyncio_run env
               (_update_store tid (agent_status COMPLETED parts)
                  (Some [{| artifact_parts := parts |}])) ;;
     ret (task_response rid task))
    is_exception
    (fun _ => raise (ValueError error_msg)).

(** [_invoke] *)
Definition _invoke (env : Env) (request : SendTaskRequest) : M SendTaskResponse :=
  let task_send_params := params request in
  query <- lift (_get_user_query task_send_params) ;;
  try_except
    (try_except
       (result <- lift (agent_invoke env query (sessionId task_send_params)) ;;
        match result with
        | PNone => raise (ValueError "No response received from agent")
        | _ =>
            parts <- lift (classify result) ;;
            task <- _update_store (id task_send_params)
                      (agent_status (task_state_of result) parts)
                      (Some [{| artifact_parts := parts |}]) ;;
            ret (task_response (request_id request) task)
        end)
       is_timeout
       (fun _ =>
          _create_error_response env (request_id request) (id task_send_params)
            ("Timeout waiting for response from blockchain after "
               ++ string_of_Z BLOCKCHAIN_TIMEOUT ++ " seconds")))
    is_exception
    (fun e =>
       _create_error_response env (request_id request) (id task_send_params)
         ("Error invoking agent: " ++ exn_str e)).

(** [on_send_task] *)
Definition on_send_task (env : Env) (request : SendTaskRequest) : M SendTaskResponse :=
  match _validate_request env request with
  | Some error => ret error
  | None =>
      _ <- upsert_task env (params request) ;;
      _invoke env request
  end.

(** [_stream_generator]: the coroutine raises as soon as it is run. *)
Definition _stream_generator (request : SendTaskRequest) : M SendTaskResponse :=
  raise (NotImplementedError "Streaming is not implemented").

(** [on_send_task_subscribe]: the error response, or the coroutine object
    of [_stream_generator], which the method does not start. *)
Definition on_send_task_subscribe (env : Env) (request : SendTaskRequest)
  : M (SendTaskResponse + M SendTaskResponse) :=
  match _validate_request env request with
  | Some error => ret (inl error)
  | None =>
      _ <- upsert_task env (params request) ;;
      ret (inr (_stream_generator request))
  end.

(** [_safe_json_parse] *)
Definition _safe_json_parse (value : pyval) : pyval :=
  match value with
  | PStr s =>
      match json_loads s with
      | Ok v => v
      | Raise _ => value
      end
  | _ => value
  end.

End TaskManager.

(* ===================================================================== *)
(** ** agent.py: [Web3Agent.invoke] *)
(* ===================================================================== *)

(** The events of the agent runtime (spec, section 6): each part of an
    event's content carries a tool response, a text or a tool call. *)
Record FunctionResponse : Type := { response : pyval }.

Record FunctionCall : Type := { call_name : string; call_args : pyval }.

Record GenaiPart : Type := {
  function_response : option FunctionResponse;
  text : option string;
  function_call : option FunctionCall
}.

Record Content : Type := { content_parts : option (list GenaiPart) }.

Record Event : Type := { content : option Content }.

(** What iterating over [run_async(...)] gives: the events in arrival
    order, and then either the end of the stream or an exception. *)
Record EventStream : Type := {
  events : list Event;
  failure : option exn
}.

(** [self._agent] and [self._runner] are [None] until [initialize()]; the
    runner is represented by the session ids of its session service. *)
Record Web3Agent : Type := {
  _agent : option string;
  _runner : option (gset string)
}.

Module Agent.
Import Text.

(** Lines 273-285: the return value made from a tool response. *)
Definition serialize_response (final_response : pyval) : string :=
  let attempt : Result string :=
    match final_response with
    | PDict _ | PList _ => Json.dumps final_response
    | PObj _ (Some _) _ _ | PObj _ None (Some _) _ => Json.dumps final_response
    | _ => Ok (Py.py_str final_response)
    end in
  match attempt with
  | Ok s => s
  | Raise _ => "Response: " ++ Py.py_str final_response
  end.

(** The outcome of a piece of the loop: [return s], or go on with
    [last_text_response]. *)
Inductive Step : Type :=
| Return (s : string)
| Continue (last_text_response : option string).

(** Lines 265-295: [for part in event.content.parts] *)
Fixpoint consume_parts (ps : list GenaiPart) (last_text_response : option string)
  : Step :=
  match ps with
  | [] => Continue last_text_response
  | part :: rest =>
      match function_response part with
      | Some fr => Return (serialize_response (response fr))
      | None =>
          match text part with
          | Some (String c t) => consume_parts rest (Some (String c t))
          | _ => consume_parts rest last_text_response
          end
      end
  end.

(** Lines 262-295: [async for event in events_async] *)
Fixpoint consume_events (evs : list Event) (last_text_response : option string)
  : Step :=
  match evs with
  | [] => Continue last_text_response
  | event :: rest =>
      match content event with
      | Some {| content_parts := Some (p :: ps) |} =>
          match consume_parts (p :: ps) last_text_response with
          | Return s => Return s
          | Continue last => consume_events rest last
          end
      | _ => consume_events rest last_text_response
      end
  end.

(** Lines 259-301: the body of the [try] statement. *)
Definition consume (stream : EventStream) : Result string :=
  match consume_events (events stream) None with
  | Return s => Ok s
  | Continue last_text_response =>
      match failure stream with
      | Some e => Raise e
      | None =>
          match last_text_response with
          | Some t => Ok t
          | None => Ok "No usable response received"
          end
      end
  end.

(** [invoke]: [run_async] gives the event stream of the runner for a
    session id and a query. The session is created when it is missing. *)
Definition invoke (run_async : string -> string -> EventStream)
           (self : Web3Agent) (query session_id : string)
  : Result string * Web3Agent :=
  match _agent self, _runner self with
  | Some name, Some sessions =>
      let self' := {| _agent := Some name;
                      _runner := Some (sessions ∪ {[session_id]}) |} in
      match consume (run_async session_id query) with
      | Ok s => (Ok s, self')
      | Raise (TimeoutError _) => (Ok "Query timed out", self')
      | Raise e => (Ok ("Error: " ++ exn_str e), self')
      end
  | _, _ => (Raise (RuntimeError "Agent not initialized. Call initialize() first."), self)
  end.

End Agent.

(* ===================================================================== *)
(** ** utils.py: the schema fixers *)
(* ===================================================================== *)

Record SchemaFixOptions : Type := {
  convert_type_arrays_to : string;
  validate_api_key : bool;
  verbose : bool;
  aggressive : bool
}.

Module Schema.
Import Text Py.

(** [SchemaFixOptions()] *)
Definition default_options : SchemaFixOptions :=
  {| convert_type_arrays_to := "string"; validate_api_key := true;
     verbose := false; aggressive := true |}.

(** [{'type': 'string'}] *)
Definition default_items : pyval := PDict [(KStr "type", PStr "string")].

(** [d.get('type') == 'array' and 'items' not in d] *)
Definition array_without_items (d : list (pykey * pyval)) : bool :=
  match dict_get "type" d with
  | Some (PStr t) => String.eqb t "array" && negb (dict_has "items" d)
  | _ => false
  end.

(** [d['items'] = {'type': 'string'}] when the test above holds *)
Definition add_items (d : list (pykey * pyval)) : list (pykey * pyval) :=
  if array_without_items d then dict_set "items" default_items d else d.

(** A loop [for k, v in d.items(): f(v)] whose body changes [v] in
    place. [None] is a [RecursionError] in one of the calls. *)
Definition for_values (f : pyval -> option pyval) (d : list (pykey * pyval))
  : option (list (pykey * pyval)) :=
  mapM (fun kv => v' ← f (snd kv); Some (fst kv, v')) d.

(** [if isinstance(v, dict): f(v)] *)
Definition on_dict (f : pyval -> option pyval) (v : pyval) : option pyval :=
  match v with
  | PDict _ => f v
  | _ => Some v
  end.

(** [if isinstance(v, (dict, list)): f(v)] *)
Definition on_container (f : pyval -> option pyval) (v : pyval) : option pyval :=
  match v with
  | PDict _ | PList _ => f v
  | _ => Some v
  end.

(** utils.py, lines 66-70: the [args] property, when it is a dict *)
Definition fix_args (props : list (pykey * pyval)) : list (pykey * pyval) :=
  match dict_get "args" props with
  | Some (PDict args_prop) => dict_set "args" (PDict (add_items args_prop)) props
  | _ => props
  end.

(** utils.py, lines 62-75: the [properties] of the dict, when they are a
    dict; [self] is the recursive call *)
Definition fix_properties (self : pyval -> option pyval) (d : list (pykey * pyval))
  : option (list (pykey * pyval)) :=
  match dict_get "properties" d with
  | Some (PDict props) =>
      props' ← for_values (on_dict self) (fix_args props);
      Some (dict_set "properties" (PDict props') d)
  | _ => Some d
  end.

(** utils.py, lines 78-84: a value of the dict that is a dict, or the
    dicts in a value that is a list *)
Definition fix_nested (self : pyval -> option pyval) (value : pyval) : option pyval :=
  match value with
  | PDict _ => self value
  | PList l => PList <$> mapM (on_dict self) l
  | _ => Some value
  end.

(** The body of [fix_openai_validation_errors]. The dictionaries are
    changed in place; the function here returns the object after the
    call. *)
Definition fix_openai_body (self : pyval -> option pyval) (obj : pyval) : option pyval :=
  match obj with
  | PDict d =>
      d1 ← fix_properties self (add_items d);
      d2 ← for_values (fix_nested self) d1;
      Some (PDict d2)
  | _ => Some obj
  end.

(** [fix_openai_validation_errors]; [fuel] is the depth of calls still
    allowed, [None] a [RecursionError]. *)
Fixpoint fix_openai_validation_errors (fuel : nat) (obj : pyval) : option pyval :=
  match fuel with
  | O => None
  | S n => fix_openai_body (fix_openai_validation_errors n) obj
  end.

(** [[str(val) if not isinstance(val, str) else val for val in enum]] *)
Definition stringify (vals : list pyval) : list pyval :=
  List.map (fun val => match val with
                       | PStr _ => val
                       | _ => PStr (py_str val)
                       end) vals.

(** utils.py, lines 104-107: a [type] that is a list *)
Definition coerce_type (options : SchemaFixOptions) (d : list (pykey * pyval))
  : list (pykey * pyval) :=
  match dict_get "type" d with
  | Some (PList _) => dict_set "type" (PStr (convert_type_arrays_to options)) d
  | _ => d
  end.

(** utils.py, lines 110-112: an [enum] that is a list, in aggressive mode *)
Definition coerce_enum (options : SchemaFixOptions) (d : list (pykey * pyval))
  : list (pykey * pyval) :=
  if aggressive options then
    match dict_get "enum" d with
    | Some (PList vals) => dict_set "enum" (PList (stringify vals)) d
    | _ => d
    end
  else d.

(** utils.py, lines 115-119: an [array] without [items], in aggressive
    mode *)
Definition coerce_items (options : SchemaFixOptions) (d : list (pykey * pyval))
  : list (pykey * pyval) :=
  if aggressive options then add_items d else d.

(** The body of [fix_schema_types_recursive], [options] resolved;
    [openai] is the call of [fix_openai_validation_errors], [self] the
    recursive call. *)
Definition fix_schema_body (openai self : pyval -> option pyval)
           (options : SchemaFixOptions) (obj : pyval) : option pyval :=
  match obj with
  | PDict _ =>
      obj1 ← openai obj;
      match obj1 with
      | PDict d1 =>
          d2 ← for_values (on_container self)
                 (coerce_items options (coerce_enum options (coerce_type options d1)));
          Some (PDict d2)
      | _ => Some obj1
      end
  | PList l => PList <$> mapM (on_container self) l
  | _ => Some obj
  end.

(** [fix_schema_types_recursive] *)
Fixpoint fix_schema_types_recursive (fuel : nat) (options : option SchemaFixOptions)
         (obj : pyval) : option pyval :=
  match fuel with
  | O => None
  | S n =>
      let options := match options with
                     | None => default_options
                     | Some o => o
                     end in
      fix_schema_body (fix_openai_validation_errors n)
        (fix_schema_types_recursive n (Some options)) options obj
  end.

End Schema.

(* ===================================================================== *)
(** ** utils.py: [fix_tool_schema_objects] *)
(* ===================================================================== *)

(** A tool object, as far as the function looks at it: its attributes by
    name. [hasattr(tool, a)] is a lookup, and a schema that is changed in
    place is the new value of the attribute. *)
Abbreviation Tool := (gmap string pyval).

Module Tools.
Import Text Py Schema.

(** [needle in container] for a string [needle]: a key of a dict, an
    element of a list, a part of a string; a value of another type is
    not iterable. *)
Definition py_in (needle : string) (container : pyval) : Result bool :=
  match container with
  | PDict d => Ok (dict_has needle d)
  | PList l =>
      Ok (existsb (fun x => match x with
                            | PStr s => String.eqb s needle
                            | _ => false
                            end) l)
  | PStr s => Ok (contains needle s)
  | _ => Raise (TypeError ("argument of type '" ++ class_name container
                             ++ "' is not iterable"))
  end.

(** [container[key]] for a string [key] *)
Definition py_getitem (key : string) (container : pyval) : Result pyval :=
  match container with
  | PDict d =>
      match dict_get key d with
      | Some v => Ok v
      | None => Raise (OtherError "KeyError" (repr_str key))
      end
  | PList _ => Raise (TypeError "list indices must be integers or slices, not str")
  | PStr _ => Raise (TypeError "string indices must be integers, not 'str'")
  | _ => Raise (TypeError ("'" ++ class_name container ++ "' object is not subscriptable"))
  end.

(** [obj.get(key)]; the values of a schema other than its dicts have no
    method [get] *)
Definition py_get (key : string) (obj : pyval) : Result (option pyval) :=
  match obj with
  | PDict d => Ok (dict_get key d)
  | _ => Raise (AttributeError ("'" ++ class_name obj ++ "' object has no attribute 'get'"))
  end.

(** utils.py, lines 309-312 and 319-322: the fix of the [args] property
    of one schema, which is a dict. The schema is changed in place; the
    function here returns it after the statements, or the exception of
    the statement that fails, before which nothing was changed. *)
Definition fix_contract_call_args (schema : list (pykey * pyval))
  : Result (list (pykey * pyval)) :=
  match dict_get "properties" schema with
  | None => Ok schema
  | Some props =>
      rbind (py_in "args" props) (fun has_args =>
      if has_args then
        rbind (py_getitem "args" props) (fun args_prop =>
        rbind (py_get "type" args_prop) (fun type =>
        match props, args_prop with
        | PDict p, PDict a =>
            if match type with
               | Some (PStr t) => String.eqb t "array"
               | _ => false
               end && negb (dict_has "items" a)
            then Ok (dict_set "properties"
                       (PDict (dict_set "args"
                                 (PDict (dict_set "items" default_items a)) p))
                       schema)
            else Ok schema
        | _, _ => Ok schema
        end))
      else Ok schema)
  end.

(** [if hasattr(tool, attr) and isinstance(getattr(tool, attr), dict): ...] *)
Definition fix_schema_attr (attr : string) (tool : Tool) : Result Tool :=
  match tool !! attr with
  | Some (PDict schema) =>
      rbind (fix_contract_call_args schema) (fun schema' =>
      Ok (<[attr := PDict schema']> tool))
  | _ => Ok tool
  end.

(** the attributes in the order of lines 306-323: the outcome, and the
    tool as it is then *)
Fixpoint fix_schema_attrs (attrs : list string) (tool : Tool) : Result unit * Tool :=
  match attrs with
  | [] => (Ok tt, tool)
  | attr :: rest =>
      match fix_schema_attr attr tool with
      | Ok tool' => fix_schema_attrs rest tool'
      | Raise e => (Raise e, tool)
      end
  end.

Definition schema_attrs : list string :=
  ["schema"; "_schema"; "function_schema"; "_function_schema"].

(** the body of the loop over the tools *)
Definition fix_tool (tool : Tool) : Result unit * Tool :=
  match tool !! "name" with
  | Some (PStr name) =>
      if String.eqb name "contractCall" then fix_schema_attrs schema_attrs tool
      else (Ok tt, tool)
  | _ => (Ok tt, tool)
  end.

(** [fix_tool_schema_objects]: the outcome ([Ok] when the list is
    returned) and the tools as they are then; an exception leaves the
    tools behind the failing one unvisited. *)
Fixpoint fix_tool_schema_objects (tools : list Tool) : Result unit * list Tool :=
  match tools with
  | [] => (Ok tt, [])
  | tool :: rest =>
      match fix_tool tool with
      | (Ok _, tool') =>
          let (outcome, rest') := fix_tool_schema_objects rest in
          (outcome, tool' :: rest')
      | (Raise e, tool') => (Raise e, tool' :: rest)
      end
  end.

End Tools.

(* ===================================================================== *)
(** ** Vocabulary of the statements *)
(* ===================================================================== *)

Module Props.
Import Text Py Json TaskManager Agent Schema.

(** The request passes [_validate_request]. *)
Definition validated (env : Env) (request : SendTaskRequest) : Prop :=
  are_modalities_compatible env
    (acceptedOutputModes (params request)) SUPPORTED_CONTENT_TYPES = true.

(** the store once [upsert_task] has run *)
Definition upserted (env : Env) (p : TaskSendParams) (tasks : gmap string Task)
  : gmap string Task :=
  snd (upsert_task env p tasks).

(** the record that [_update_store] writes *)
Definition updated (task : Task) (st : TaskStatus) (new : list Artifact) : Task :=
  {| task_id := task_id task; status := st;
     artifacts := Some (artifact_list task ++ new)%list |}.

(** the text that the timeout handler passes on *)
Definition timeout_text : string :=
  "Timeout waiting for response from blockchain after 45 seconds".

(** The agent's results that section 4.2 of the spec names: a string, a
    dict or a list. *)
Definition str_dict_or_list (r : pyval) : Prop :=
  match r with
  | PStr _ | PDict _ | PList _ => True
  | _ => False
  end.

(** *** JSON *)

(** What may follow a number: the end of the text, or a character that
    continues neither the digits, nor a fraction, nor an exponent. *)
Definition number_end (rest : string) : bool :=
  match rest with
  | EmptyString => true
  | String c _ =>
      negb (is_digit c || Ascii.eqb c "." || Ascii.eqb c "e" || Ascii.eqb c "E")
  end.

(** The string keys of a dict are pairwise distinct, as in any dict. *)
Fixpoint unique_keys (d : list (pykey * pyval)) : bool :=
  match d with
  | [] => true
  | (KStr k, _) :: r => negb (dict_has k r) && unique_keys r
  | _ :: r => unique_keys r
  end.

(** what follows the character [c] at the head of [s] *)
Definition head_is (c : ascii) (s : string) : option string :=
  match s with
  | String a r => if Ascii.eqb a c then Some r else None
  | EmptyString => None
  end.

(** no digit at the head of [rest] *)
Definition no_digit_ahead (rest : string) : Prop :=
  match rest with EmptyString => True | String c _ => is_digit c = false end.

(** A float that [json.dumps] writes as a JSON number: its literal is a
    number with a fraction or an exponent, which is what [repr] gives for
    every finite float. [nan], [inf] and [-inf] are not. *)
Definition float_literal (lit : string) : bool :=
  match scan_number lit with
  | Some (PFloat l, EmptyString) => String.eqb l lit
  | _ => false
  end.

(** JSON data: [None], booleans, ints, finite floats and strings, and the
    lists and dicts with string keys that are made of them. *)
Fixpoint json_data (v : pyval) : bool :=
  match v with
  | PNone | PBool _ | PInt _ | PStr _ => true
  | PFloat lit => float_literal lit
  | PObj _ _ _ _ => false
  | PList l => forallb json_data l
  | PDict d =>
      forallb (fun kv => match fst kv with
                         | KStr _ => json_data (snd kv)
                         | _ => false
                         end) d
      && unique_keys d
  end.

(** a bound on the depth of calls that decoding the text of a value takes *)
Fixpoint weight (v : pyval) : nat :=
  match v with
  | PList l => S (list_sum (List.map (fun x => S (weight x)) l))
  | PDict d => S (list_sum (List.map (fun kv => S (weight (snd kv))) d))
  | _ => 1
  end.

(** the characters that the text of a JSON value can begin with *)
Definition value_start (c : ascii) : bool :=
  is_digit c || Ascii.eqb c "-" || Ascii.eqb c dquote || Ascii.eqb c "{"
  || Ascii.eqb c "[" || Ascii.eqb c "n" || Ascii.eqb c "t" || Ascii.eqb c "f".

(** [json.dumps] gives a text for [v], and the decoder reads [v] back from
    it, whatever follows, with fuel for [weight v] calls. *)
Definition round_trips (v : pyval) : Prop :=
  exists c t,
    dumps v = Ok (String c t)
    /\ value_start c = true
    /\ (weight v <= String.length (String c t))%nat
    /\ forall rest n,
         number_end rest = true -> (weight v <= n)%nat ->
         scan_value n (String c t ++ rest) = Some (v, rest).

Definition element_round_trips (x : pyval) (s : string) : Prop :=
  exists c t,
    s = String c t /\ value_start c = true
    /\ forall rest n,
         number_end rest = true -> (weight x <= n)%nat ->
         scan_value n (s ++ rest) = Some (x, rest).

Definition key_name (k : pykey) : string :=
  match k with
  | KStr s => s
  | KInt z => string_of_Z z
  | KOther _ r => r
  end.

(** the members of a dict as the decoder collects them *)
Definition pairs_of (d : list (pykey * pyval)) : list (string * pyval) :=
  List.map (fun kv => (key_name (fst kv), snd kv)) d.

Definition member_round_trips (kv : pykey * pyval) (s : string) : Prop :=
  exists k vs,
    fst kv = KStr k /\ s = quote k ++ ": " ++ vs /\ element_round_trips (snd kv) vs.

Definition string_keys (d : list (pykey * pyval)) : bool :=
  forallb (fun kv => match fst kv with KStr _ => true | _ => false end) d.

(** An outcome of the pipeline: a response around the task, which was
    updated once with the status and the artifact made of the given parts. *)
Definition responded (request : SendTaskRequest) (tasks : gmap string Task)
           (st : TaskState) (ps : list Part)
           (out : Result SendTaskResponse * gmap string Task) : Prop :=
  exists task,
    tasks !! id (params request) = Some task
    /\ out = (Ok (task_response (request_id request)
                    (updated task (agent_status st ps) [{| artifact_parts := ps |}])),
              <[id (params request) :=
                  updated task (agent_status st ps) [{| artifact_parts := ps |}]]>
                tasks).

(** An outcome of the error path for the error text [msg]: a response
    around the task, completed with the text passed to
    [_create_error_response] as its sole part and artifact, or [ValueError].
    The timeout handler passes [msg] itself ([direct]), the handler of
    [Exception] passes it behind its prefix. *)
Definition error_reported (request : SendTaskRequest) (tasks : gmap string Task)
           (direct : bool) (msg : string)
           (out : Result SendTaskResponse * gmap string Task) : Prop :=
  let text := if direct then msg else "Error invoking agent: " ++ msg in
  responded request tasks COMPLETED [TextPart text] out
  \/ out = (Raise (ValueError ("Error invoking agent: " ++ msg)), tasks).

(** the error text of steps 2 to 4 of the pipeline, if one of them fails *)
Definition pipeline_error (env : Env) (q sid : string) : option (bool * string) :=
  match agent_invoke env q sid with
  | Ok PNone => Some (false, "No response received from agent")
  | Ok r =>
      match classify r with
      | Ok _ => None
      | Raise e => Some (false, exn_str e)
      end
  | Raise e => Some (if is_timeout e then (true, timeout_text) else (false, exn_str e))
  end.

(** *** Instances for the examples *)

(** an instance of [are_modalities_compatible]: no preference, or a mode
    in common *)
Definition share_a_mode (accepted supported : list string) : bool :=
  match accepted with
  | [] => true
  | _ => existsb (fun m => existsb (String.eqb m) supported) accepted
  end.

(** the server: a running event loop, and an agent *)
Definition server_env (agent : string -> string -> Result pyval) : Env :=
  {| are_modalities_compatible := share_a_mode;
     fresh_status := {| state := INPUT_REQUIRED; message := None |};
     loop_running := true;
     agent_invoke := agent |}.

Definition request_with (ps : list Part) : SendTaskRequest :=
  {| request_id := "request-1";
     params := {| id := "task-1"; sessionId := "session-1";
                  params_message := {| role := "user"; parts := ps |};
                  acceptedOutputModes := ["text"] |} |}.

Definition balance_request : SendTaskRequest :=
  request_with [TextPart "What is my balance?"].

Definition data_request : SendTaskRequest :=
  request_with [DataPart (PDict [(KStr "amount", PInt 1)])].

Definition fresh_task : Task :=
  {| task_id := "task-1";
     status := {| state := INPUT_REQUIRED; message := None |};
     artifacts := None |}.

Definition never_in_time (q sid : string) : Result pyval :=
  Raise (TimeoutError EmptyString).

Definition answers (r : pyval) (q sid : string) : Result pyval := Ok r.

Definition balance_task : Task :=
  updated fresh_task (agent_status COMPLETED [TextPart "Balance: 1.5 ETH"])
    [{| artifact_parts := [TextPart "Balance: 1.5 ETH"] |}].

(** the parts of an event that the loop of [invoke] visits *)
Definition event_parts (event : Event) : list GenaiPart :=
  match content event with
  | Some {| content_parts := Some ps |} => ps
  | _ => []
  end.

(** the payload of the first part that carries a tool response *)
Fixpoint first_tool_response (ps : list GenaiPart) : option pyval :=
  match ps with
  | [] => None
  | part :: rest =>
      match function_response part with
      | Some fr => Some (response fr)
      | None => first_tool_response rest
      end
  end.

(** the event carries a tool response with this payload *)
Definition event_tool_response (event : Event) : option pyval :=
  first_tool_response (event_parts event).

(** the text that a part without tool response carries, when not empty *)
Definition part_text (part : GenaiPart) : option string :=
  match function_response part, text part with
  | None, Some (String c t) => Some (String c t)
  | _, _ => None
  end.

(** the texts of a stream in arrival order *)
Definition texts_of (evs : list Event) : list string :=
  flat_map (fun event => omap part_text (event_parts event)) evs.

(** a payload that [invoke] serializes with [json.dumps] *)
Definition structured (payload : pyval) : bool :=
  match payload with
  | PDict _ | PList _ => true
  | PObj _ (Some _) _ _ | PObj _ None (Some _) _ => true
  | _ => false
  end.

(** an initialized agent *)
Definition initialized (self : Web3Agent) : Prop :=
  is_Some (_agent self) /\ is_Some (_runner self).

Definition ready_agent : Web3Agent :=
  {| _agent := Some "web3_agent"; _runner := Some ∅ |}.

Definition text_event (t : string) : Event :=
  {| content := Some {| content_parts :=
       Some [{| function_response := None; text := Some t; function_call := None |}] |} |}.

Definition tool_event (payload : pyval) : Event :=
  {| content := Some {| content_parts :=
       Some [{| function_response := Some {| response := payload |};
                text := None; function_call := None |}] |} |}.

(** the payload of the first tool response of a stream *)
Fixpoint stream_tool_response (evs : list Event) : option pyval :=
  match evs with
  | [] => None
  | event :: rest =>
      match event_tool_response event with
      | Some payload => Some payload
      | None => stream_tool_response rest
      end
  end.

Definition failing_stream (e : exn) (q sid : string) : EventStream :=
  {| events := [text_event "Checking the balance"]; failure := Some e |}.

(** [isinstance(d.get('type'), list)] *)
Definition type_is_list (d : list (pykey * pyval)) : bool :=
  match dict_get "type" d with
  | Some (PList _) => true
  | _ => false
  end.

(** the [enum] of the dict, when it is a list, holds strings only *)
Definition enum_strings (d : list (pykey * pyval)) : bool :=
  match dict_get "enum" d with
  | Some (PList vals) => forallb is_str vals
  | _ => true
  end.

(** A fixed schema: in every dict that [fix_schema_types_recursive]
    reaches, [type] is no list, an [array] has [items] and, in aggressive
    mode, the members of [enum] are strings. *)
Fixpoint normal (options : SchemaFixOptions) (v : pyval) : bool :=
  match v with
  | PDict d =>
      negb (type_is_list d)
      && (negb (aggressive options) || enum_strings d)
      && negb (array_without_items d)
      && forallb (fun kv => normal options (snd kv)) d
  | PList l => forallb (normal options) l
  | _ => true
  end.

(** The options under which the fixer is idempotent: in aggressive mode,
    or with a fallback type other than [array]. *)
Definition stable_options (options : SchemaFixOptions) : Prop :=
  aggressive options = true \/ convert_type_arrays_to options <> "array".

(** dicts and lists stay what they are, other values do not change *)
Definition same_kind (v v' : pyval) : Prop :=
  match v with
  | PDict _ => is_dict v' = true
  | PList _ => is_list v' = true
  | _ => v' = v
  end.

(** a call that returns a fixed schema as it is *)
Definition keeps (options : SchemaFixOptions) (f : pyval -> option pyval) : Prop :=
  forall v v', normal options v = true -> f v = Some v' -> v' = v.

(** a call that keeps dicts, lists and the other values apart *)
Definition kind_preserving (f : pyval -> option pyval) : Prop :=
  forall v v', f v = Some v' -> same_kind v v'.

(** a call whose result is a fixed schema *)
Definition normalizes (options : SchemaFixOptions) (f : pyval -> option pyval) : Prop :=
  forall v v', f v = Some v' -> normal options v' = true.

(** what [fix_openai_validation_errors] returns for a dict *)
Definition openai_result (f : pyval -> option pyval) : Prop :=
  forall d v', f (PDict d) = Some v' ->
               exists d', v' = PDict d' /\ array_without_items d' = false.

(** a dict that is about to get [items] *)
Definition potential (d : list (pykey * pyval)) : nat :=
  if array_without_items d then 1 else 0.

(** The depth of a schema, counting the [items] that the fixer adds to an
    array without [items]. *)
Fixpoint height (v : pyval) : nat :=
  match v with
  | PList l => S (max_list (List.map height l))
  | PDict d => S (Nat.max (max_list (List.map (fun kv => height (snd kv)) d))
                          (if array_without_items d then 1 else 0))
  | _ => 0
  end.

Definition values_height (d : list (pykey * pyval)) : nat :=
  max_list (List.map (fun kv => height (snd kv)) d).

(** a call that returns for every schema of a height below [n], with a
    result that is not higher *)
Definition returns_below (n : nat) (f : pyval -> option pyval) : Prop :=
  forall v, (height v < n)%nat ->
            exists v', f v = Some v' /\ (height v' <= height v)%nat.

(** [options], or [SchemaFixOptions()] when it is [None] *)
Definition resolved (options : option SchemaFixOptions) : SchemaFixOptions :=
  match options with
  | None => default_options
  | Some o => o
  end.

(** a tool schema with a multi-type field, an enum of numbers and an array
    without items *)
Definition contract_call_schema : pyval :=
  PDict [(KStr "type", PStr "object");
         (KStr "properties",
          PDict [(KStr "args", PDict [(KStr "type", PStr "array")]);
                 (KStr "value", PDict [(KStr "type", PList [PStr "string"; PStr "number"])]);
                 (KStr "mode", PDict [(KStr "enum", PList [PInt 1; PStr "fast"; PNone])])])].

(** non-aggressive options with [array] as the fallback type *)
Definition array_fallback : SchemaFixOptions :=
  {| convert_type_arrays_to := "array"; validate_api_key := true;
     verbose := false; aggressive := false |}.

(** the request with other parts in its message *)
Definition with_parts (request : SendTaskRequest) (ps : list Part) : SendTaskRequest :=
  {| request_id := request_id request;
     params := {| id := id (params request);
                  sessionId := sessionId (params request);
                  params_message := {| role := role (params_message (params request));
                                       parts := ps |};
                  acceptedOutputModes := acceptedOutputModes (params request) |} |}.

(** a request that accepts images only *)
Definition image_request : SendTaskRequest :=
  {| request_id := "request-2";
     params := {| id := "task-2"; sessionId := "session-1";
                  params_message := {| role := "user";
                                       parts := [TextPart "What is my balance?"] |};
                  acceptedOutputModes := ["image/png"] |} |}.

(** a dict with a tuple as a key *)
Definition pair_keyed : pyval :=
  PDict [(KOther "tuple" "(1, 2)", PStr "edge")].

(** the tool response of the examples *)
Definition balance_payload : pyval := PDict [(KStr "balance", PStr "1.5 ETH")].

(** its JSON text: an object with the member [balance] *)
Definition balance_json : string :=
  "{" ++ String dquote "balance" ++ String dquote ": "
      ++ String dquote "1.5 ETH" ++ String dquote "}".

(** an agent that answers with a number *)
Definition number_request_env : Env := server_env (answers (PInt 42)).

(** An event that the loop of [invoke] passes over: no tool response, and
    no text that is not empty (no content, no parts, tool calls only). *)
Definition silent (event : Event) : bool :=
  match event_tool_response event, omap part_text (event_parts event) with
  | None, [] => true
  | _, _ => false
  end.

(** What [asyncio.wait_for(self.agent.invoke(query, sessionId), ...)] gives
    the task manager when [invoke] is done within the bound: the string
    it returns, or the exception it raises. *)
Definition agent_of (run_async : string -> string -> EventStream) (self : Web3Agent)
           (query session_id : string) : Result pyval :=
  match fst (Agent.invoke run_async self query session_id) with
  | Ok s => Ok (PStr s)
  | Raise e => Raise e
  end.

(** what [invoke] returns for an exception of the stream *)
Definition failure_text (e : exn) : string :=
  match e with
  | TimeoutError _ => "Query timed out"
  | _ => "Error: " ++ exn_str e
  end.

(** an event with a tool call only *)
Definition call_event : Event :=
  {| content := Some {| content_parts :=
       Some [{| function_response := None; text := None;
                function_call := Some {| call_name := "getBalance";
                                         call_args := PDict [] |} |}] |} |}.

(** a stream with a tool response *)
Definition balance_stream (sid q : string) : EventStream :=
  {| events := [text_event "Checking the balance"; call_event;
                tool_event balance_payload];
     failure := None |}.

(** an agent before [initialize()] *)
Definition new_agent : Web3Agent := {| _agent := None; _runner := None |}.

(** the keys of a dict, in order *)
Definition keys (d : list (pykey * pyval)) : list pykey := List.map fst d.

(** No dict that [fix_schema_types_recursive] reaches has a list as its
    [type]. *)
Fixpoint retyped (v : pyval) : bool :=
  match v with
  | PDict d => negb (type_is_list d) && forallb (fun kv => retyped (snd kv)) d
  | PList l => forallb retyped l
  | _ => true
  end.

(** No dict that [fix_openai_validation_errors] reaches is an [array]
    without [items]: the dict itself, the dicts among its values and the
    dicts in the lists among its values, and so on. *)
Fixpoint openai_fixed (v : pyval) : bool :=
  match v with
  | PDict d =>
      negb (array_without_items d)
      && forallb (fun kv =>
                    match snd kv with
                    | PDict _ => openai_fixed (snd kv)
                    | PList l =>
                        forallb (fun x => match x with
                                          | PDict _ => openai_fixed x
                                          | _ => true
                                          end) l
                    | _ => true
                    end) d
  | _ => true
  end.

(** the same for a value of a dict *)
Definition fixed_value (v : pyval) : bool :=
  match v with
  | PDict _ => openai_fixed v
  | PList l => forallb (fun x => match x with
                                 | PDict _ => openai_fixed x
                                 | _ => true
                                 end) l
  | _ => true
  end.

(** a schema that needs no fix *)
Definition transfer_schema : pyval :=
  PDict [(KStr "type", PStr "object");
         (KStr "properties",
          PDict [(KStr "to", PDict [(KStr "type", PStr "string")]);
                 (KStr "amounts", PDict [(KStr "type", PStr "array");
                                         (KStr "items", PDict [(KStr "type", PStr "number")])])])].

(** [f] returns a schema that needs no fix as it is *)
Definition keeps_fixed (f : pyval -> option pyval) : Prop :=
  forall v v', openai_fixed v = true -> f v = Some v' -> v' = v.

(** the [properties] of the schema are a dict, and [args], if there, is
    a dict *)
Definition args_is_dict (schema : list (pykey * pyval)) : bool :=
  match dict_get "properties" schema with
  | Some (PDict p) =>
      match dict_get "args" p with
      | Some a => is_dict a
      | None => true
      end
  | Some _ => false
  | None => true
  end.

(** the tool of the MCP server with the array of arguments *)
Definition contract_call_tool : Tool :=
  {[ "name" := PStr "contractCall"; "schema" := contract_call_schema ]}.

(** another tool, whose schema has an array without items as well *)
Definition send_tool : Tool :=
  {[ "name" := PStr "sendTransaction"; "schema" := contract_call_schema ]}.

(** a schema whose [args] is the boolean schema [true] *)
Definition boolean_args_schema : list (pykey * pyval) :=
  [(KStr "type", PStr "object");
   (KStr "properties", PDict [(KStr "args", PBool true)])].

(** the schema with the fix of [fix_openai_validation_errors] for [args]
    (utils.py, lines 66-70) applied to its [properties] *)
Definition with_fixed_args (schema : list (pykey * pyval)) : list (pykey * pyval) :=
  match dict_get "properties" schema with
  | Some (PDict p) => dict_set "properties" (PDict (fix_args p)) schema
  | _ => schema
  end.

(** What a call of [fix_tool_schema_objects] may do to a tool: the
    attributes other than the four schemas are as they were, no
    attribute comes or goes, and a tool that is not named [contractCall]
    is as it was. *)
Definition touched_as_contract_call (tool tool' : Tool) : Prop :=
  (forall attr, ~ In attr Tools.schema_attrs -> tool' !! attr = tool !! attr)
  /\ (forall attr, is_Some (tool' !! attr) <-> is_Some (tool !! attr))
  /\ (tool !! "name" <> Some (PStr "contractCall") -> tool' = tool).

End Props.

(* ===================================================================== *)
(** ** Properties of the Python values and of the JSON codec *)
(* ===================================================================== *)

Module PyFacts.
Import Text Py.

(** Induction over [pyval], with the hypothesis for every value nested in
    a list, a dict or an object. *)
Lemma pyval_induction (P : pyval -> Prop) :
  P PNone ->
  (forall b, P (PBool b)) ->
  (forall z, P (PInt z)) ->
  (forall lit, P (PFloat lit)) ->
  (forall s, P (PStr s)) ->
  (forall l, Forall P l -> P (PList l)) ->
  (forall d, Forall (fun kv => P (snd kv)) d -> P (PDict d)) ->
  (forall cls odict to_dict ostr,
      match odict with
      | Some fields => Forall (fun kv => P (snd kv)) fields
      | None => True
      end ->
      match to_dict with Some v => P v | None => True end ->
      P (PObj cls odict to_dict ostr)) ->
  forall v, P v.
Proof.
  intros HN HB HI HF HS HL HD HO.
  fix IH 1. intros [ | b | z | lit | s | l | d | cls odict to_dict ostr].
  - exact HN.
  - apply HB.
  - apply HI.
  - apply HF.
  - apply HS.
  - apply HL. induction l as [|x l IHl]; constructor; [apply IH | exact IHl].
  - apply HD. induction d as [|[k x] d IHd]; constructor; [apply IH | exact IHd].
  - apply HO.
    + destruct odict as [fields|]; [|exact I].
      induction fields as [|[k x] fields IHf]; constructor; [apply IH | exact IHf].
    + destruct to_dict as [v|]; [apply IH | exact I].
Qed.

End PyFacts.

Module JsonFacts.
Import Text Py Json Props PyFacts.

(** [json.dumps(v, default=custom_serializer)] hands an object to
    [custom_serializer] and encodes what it returns. *)
Lemma dumps_custom_serializer cls odict to_dict ostr :
  dumps (PObj cls odict to_dict ostr)
  = dumps (custom_serializer (PObj cls odict to_dict ostr)).
Proof.
  destruct odict as [fields|]; [|destruct to_dict; reflexivity].
  cbn [custom_serializer dumps]. f_equal.
  induction fields as [|[k x] fields IH]; [reflexivity|].
  cbn [List.map fst snd dumps_key].
  destruct (dumps x); cbn [rbind]; [rewrite IH|]; reflexivity.
Qed.

(** The only exception of [json.dumps] is the [TypeError] for a key. *)
Lemma dumps_raises_type_error v e :
  dumps v = Raise e -> exists m, e = TypeError m.
Proof.
  revert e. induction v using pyval_induction; intros e; cbn [dumps];
    try discriminate.
  - destruct b; discriminate.
  - match goal with |- rbind ?m _ = _ -> _ => destruct m eqn:Em end;
      cbn [rbind]; [discriminate|]. intros [= <-].
    revert e0 Em. induction H as [|x l Hx Hl IH]; intros e0; [discriminate|].
    destruct (dumps x) eqn:Ex; cbn [rbind].
    + match goal with |- rbind ?m _ = _ -> _ => destruct m eqn:Em end;
        cbn [rbind]; [discriminate|]. intros [= <-]. eapply IH. reflexivity.
    + intros [= <-]. eapply Hx; first [exact Ex | reflexivity].
  - match goal with |- rbind ?m _ = _ -> _ => destruct m eqn:Em end;
      cbn [rbind]; [discriminate|]. intros [= <-].
    revert e0 Em. induction H as [|[k x] l Hx Hl IH]; intros e0; [discriminate|].
    destruct k as [s|z|c r]; cbn [dumps_key rbind];
      try (intros [= <-]; eexists; reflexivity).
    all: destruct (dumps x) eqn:Ex; cbn [rbind];
      [ match goal with |- rbind ?m _ = _ -> _ => destruct m eqn:Em end;
        cbn [rbind]; [discriminate|]; intros [= <-]; eapply IH; reflexivity
      | intros [= <-]; eapply Hx; first [exact Ex | reflexivity] ].
  - destruct odict as [fields|].
    + clear H0.
      match goal with |- rbind ?m _ = _ -> _ => destruct m eqn:Em end;
        cbn [rbind]; [discriminate|]. intros [= <-].
      revert e0 Em. induction H as [|[k x] l Hx Hl IH]; intros e0; [discriminate|].
      destruct (dumps x) eqn:Ex; cbn [rbind];
        [ match goal with |- rbind ?m _ = _ -> _ => destruct m eqn:Em end;
          cbn [rbind]; [discriminate|]; intros [= <-]; eapply IH; reflexivity
        | intros [= <-]; eapply Hx; first [exact Ex | reflexivity] ].
    + destruct to_dict as [v|]; [|discriminate]. apply H0.
Qed.

Lemma append_assoc (a b c : string) : (a ++ b) ++ c = a ++ (b ++ c).
Proof.
  induction a as [|x a IH]; [reflexivity|].
  change (String x ((a ++ b) ++ c) = String x (a ++ (b ++ c))). rewrite IH. reflexivity.
Qed.

Lemma append_cons x (a b : string) : String x a ++ b = String x (a ++ b).
Proof. reflexivity. Qed.

Lemma scanstring_escape_char c t :
  scanstring (escape_char c ++ t)
  = match scanstring t with
    | Some (u, rest) => Some (String c u, rest)
    | None => None
    end.
Proof.
  destruct c as [[] [] [] [] [] [] [] []]; reflexivity.
Qed.

Lemma scanstring_escape s rest :
  scanstring (escape s ++ String dquote rest) = Some (s, rest).
Proof.
  induction s as [|c s IH]; [reflexivity|].
  change (escape (String c s)) with (escape_char c ++ escape s). rewrite append_assoc, scanstring_escape_char, IH. reflexivity.
Qed.

Lemma number_end_not_digit rest :
  number_end rest = true ->
  match rest with EmptyString => True | String c _ => is_digit c = false end.
Proof.
  destruct rest as [|c r]; [trivial|]. cbn. destruct (is_digit c); [discriminate|trivial].
Qed.

Lemma take_digits_uint u rest :
  match rest with EmptyString => True | String c _ => is_digit c = false end ->
  take_digits (NilEmpty.string_of_uint u ++ rest) = (NilEmpty.string_of_uint u, rest).
Proof.
  intros Hr. induction u; cbn [NilEmpty.string_of_uint];
    try (rewrite append_cons; cbn [take_digits]; 
         change (is_digit _) with true; cbn iota; rewrite IHu; reflexivity).
  destruct rest as [|c r]; [reflexivity|].
  change (take_digits (String c r) = (EmptyString, String c r)).
  cbn [take_digits]. rewrite Hr. reflexivity.
Qed.

Lemma to_uint_normal p : unorm (Pos.to_uint p) = Pos.to_uint p.
Proof.
  rewrite <- (DecimalPos.Unsigned.to_of (Pos.to_uint p)).
  rewrite DecimalPos.Unsigned.of_to. reflexivity.
Qed.

Lemma unorm_D0_fixed u : unorm (D0 u) = D0 u -> u = Nil.
Proof.
  intros H. destruct (uint_eq_dec u Nil) as [|Hn]; [assumption|].
  rewrite DecimalFacts.unorm_D0 in H. pose proof (DecimalFacts.nb_digits_unorm u Hn) as Hd.
  rewrite H in Hd. cbn in Hd. lia.
Qed.

Lemma scan_int_uint u rest :
  u <> Nil -> unorm u = u -> number_end rest = true ->
  scan_int (NilEmpty.string_of_uint u ++ rest) = Some (NilEmpty.string_of_uint u, rest).
Proof.
  intros Hn Hu Hr. apply number_end_not_digit in Hr.
  destruct u; try congruence.
  1: { apply unorm_D0_fixed in Hu. subst u. reflexivity. }
  all: cbn [NilEmpty.string_of_uint]; rewrite append_cons; unfold scan_int;
    change (Ascii.eqb _ "0") with false; change (is_digit _) with true; cbn iota;
    rewrite (take_digits_uint u rest Hr); reflexivity.
Qed.

Lemma scan_frac_end rest : number_end rest = true -> scan_frac rest = (EmptyString, rest).
Proof.
  destruct rest as [|c r]; [reflexivity|]. cbn [number_end]. intros H.
  destruct c as [[] [] [] [] [] [] [] []]; try discriminate H; reflexivity.
Qed.

Lemma scan_exp_end rest : number_end rest = true -> scan_exp rest = (EmptyString, rest).
Proof.
  destruct rest as [|c r]; [reflexivity|]. cbn [number_end]. intros H.
  destruct c as [[] [] [] [] [] [] [] []]; try discriminate H; reflexivity.
Qed.

Lemma int_of_digits_uint u : int_of_digits (NilEmpty.string_of_uint u) = Z.of_uint u.
Proof. unfold int_of_digits. rewrite NilEmpty.usu. reflexivity. Qed.

Lemma of_uint_to_uint p : Z.of_uint (Pos.to_uint p) = Z.pos p.
Proof. unfold Z.of_uint. rewrite DecimalPos.Unsigned.of_to. reflexivity. Qed.

Lemma string_of_pos p :
  NilZero.string_of_uint (Pos.to_uint p) = NilEmpty.string_of_uint (Pos.to_uint p).
Proof.
  pose proof (DecimalPos.Unsigned.to_uint_nonnil p). destruct (Pos.to_uint p); [congruence | reflexivity..].
Qed.

Lemma first_digit_uint u :
  u <> Nil ->
  exists c s, NilEmpty.string_of_uint u = String c s /\ is_digit c = true.
Proof.
  intros H. destruct u; try congruence;
    cbn [NilEmpty.string_of_uint]; eexists _, _; split; reflexivity.
Qed.

Lemma scan_number_nonneg u rest :
  u <> Nil -> unorm u = u -> number_end rest = true ->
  scan_number (NilEmpty.string_of_uint u ++ rest) = Some (PInt (Z.of_uint u), rest).
Proof.
  intros Hn Hu Hr. unfold scan_number.
  destruct (first_digit_uint u Hn) as (c & s & Hs & Hc).
  assert (Hm : (match NilEmpty.string_of_uint u ++ rest with
                | String "-" r => (true, r)
                | _ => (false, NilEmpty.string_of_uint u ++ rest)
                end) = (false, NilEmpty.string_of_uint u ++ rest)).
  { rewrite Hs, append_cons.
    destruct c as [[] [] [] [] [] [] [] []]; try discriminate Hc; reflexivity. }
  rewrite Hm, (scan_int_uint _ _ Hn Hu Hr).
  rewrite (scan_frac_end _ Hr), (scan_exp_end _ Hr), int_of_digits_uint. reflexivity.
Qed.

Lemma scan_number_neg u rest :
  u <> Nil -> unorm u = u -> number_end rest = true ->
  scan_number (String "-" (NilEmpty.string_of_uint u ++ rest))
  = Some (PInt (- Z.of_uint u), rest).
Proof.
  intros Hn Hu Hr. unfold scan_number. cbn iota.
  rewrite (scan_int_uint _ _ Hn Hu Hr).
  rewrite (scan_frac_end _ Hr), (scan_exp_end _ Hr), int_of_digits_uint. reflexivity.
Qed.

Lemma scan_number_Z z rest :
  number_end rest = true ->
  scan_number (string_of_Z z ++ rest) = Some (PInt z, rest).
Proof.
  intros Hr. unfold string_of_Z. destruct z as [|p|p]; cbn [Z.to_int NilZero.string_of_int].
  - apply (scan_number_nonneg zero rest); [discriminate | reflexivity | exact Hr].
  - rewrite string_of_pos, <- (of_uint_to_uint p) at 1.
    apply scan_number_nonneg; [apply DecimalPos.Unsigned.to_uint_nonnil | apply to_uint_normal | exact Hr].
  - rewrite string_of_pos, append_cons.
    change (Z.neg p) with (- Z.pos p)%Z. rewrite <- (of_uint_to_uint p) at 1.
    apply scan_number_neg; [apply DecimalPos.Unsigned.to_uint_nonnil | apply to_uint_normal | exact Hr].
Qed.

Lemma dumps_list l :
  dumps (PList l)
  = rbind ((fix items (l : list pyval) : Result (list string) :=
              match l with
              | [] => Ok []
              | x :: r =>
                  rbind (dumps x) (fun s =>
                  rbind (items r) (fun ss => Ok (s :: ss)))
              end) l)
      (fun ss => Ok ("[" ++ join ", " ss ++ "]")).
Proof. reflexivity. Qed.

(** the texts of the elements of a list *)
Lemma dumps_list_inv l t :
  dumps (PList l) = Ok t ->
  exists ts, Forall2 (fun x s => dumps x = Ok s) l ts
             /\ t = "[" ++ join ", " ts ++ "]".
Proof.
  rewrite dumps_list.
  match goal with |- rbind ?m _ = _ -> _ => destruct m as [ts|] eqn:Em end;
    cbn [rbind]; [|discriminate].
  intros [= <-]. exists ts. split; [|reflexivity].
  revert ts Em. induction l as [|x l IH]; intros ts.
  - intros [= <-]. constructor.
  - destruct (dumps x) as [s|] eqn:Ex; cbn [rbind]; [|discriminate].
    match goal with |- rbind ?m _ = _ -> _ => destruct m as [ss|] eqn:Em end;
      cbn [rbind]; [|discriminate].
    intros [= <-]. constructor; [exact Ex | apply IH; reflexivity].
Qed.

Lemma dumps_dict_inv d t :
  dumps (PDict d) = Ok t ->
  exists ts, Forall2 (fun kv s => exists ks vs, dumps_key (fst kv) = Ok ks
                                   /\ dumps (snd kv) = Ok vs
                                   /\ s = ks ++ ": " ++ vs) d ts
             /\ t = "{" ++ join ", " ts ++ "}".
Proof.
  cbn [dumps].
  match goal with |- rbind ?m _ = _ -> _ => destruct m as [ts|] eqn:Em end;
    cbn [rbind]; [|discriminate].
  intros [= <-]. exists ts. split; [|reflexivity].
  revert ts Em. induction d as [|[k x] d IH]; intros ts.
  - intros [= <-]. constructor.
  - destruct (dumps_key k) as [ks|] eqn:Ek; cbn [rbind]; [|discriminate].
    destruct (dumps x) as [s|] eqn:Ex; cbn [rbind]; [|discriminate].
    match goal with |- rbind ?m _ = _ -> _ => destruct m as [ss|] eqn:Em end;
      cbn [rbind]; [|discriminate].
    intros [= <-]. constructor; [|apply IH; reflexivity].
    exists ks, s. auto.
Qed.

Lemma length_append (a b : string) :
  String.length (a ++ b) = (String.length a + String.length b)%nat.
Proof.
  induction a as [|x a IH]; [reflexivity|].
  change (S (String.length (a ++ b)) = S (String.length a + String.length b)).
  rewrite IH. reflexivity.
Qed.

Lemma skip_ws_value_start c t :
  value_start c = true -> skip_ws (String c t) = String c t.
Proof.
  destruct c as [[] [] [] [] [] [] [] []]; intros H; try discriminate H; reflexivity.
Qed.

Lemma value_start_not_ws c : value_start c = true -> is_ws c = false.
Proof.
  destruct c as [[] [] [] [] [] [] [] []]; intros H; try discriminate H; reflexivity.
Qed.

Lemma skip_ws_space t : skip_ws (String " " t) = skip_ws t.
Proof. reflexivity. Qed.

Lemma scan_value_number c t n :
  (is_digit c || Ascii.eqb c "-") = true ->
  scan_value (S n) (String c t)
  = match scan_number (String c t) with
    | Some res => Some res
    | None => scan_literal (String c t)
    end.
Proof.
  intros H. cbn [scan_value]. unfold scan_literal.
  destruct (scan_number (String c t)) as [res|];
    destruct c as [[] [] [] [] [] [] [] []]; try discriminate H; reflexivity.
Qed.

Lemma first_char_Z z :
  exists c t, string_of_Z z = String c t /\ (is_digit c || Ascii.eqb c "-") = true.
Proof.
  unfold string_of_Z. destruct z as [|p|p]; cbn [Z.to_int NilZero.string_of_int].
  - eexists _, _. split; reflexivity.
  - rewrite string_of_pos. destruct (first_digit_uint _ (DecimalPos.Unsigned.to_uint_nonnil p)) as (c & s & -> & Hc).
    exists c, s. rewrite Hc. auto.
  - eexists _, _. split; reflexivity.
Qed.

Lemma value_start_number c :
  (is_digit c || Ascii.eqb c "-") = true -> value_start c = true.
Proof.
  destruct c as [[] [] [] [] [] [] [] []]; intros H; try discriminate H; reflexivity.
Qed.

(** *** Floats *)

Lemma take_digits_append s rest :
  no_digit_ahead rest ->
  take_digits (s ++ rest) = (fst (take_digits s), snd (take_digits s) ++ rest).
Proof.
  intros Hr. induction s as [|c s IH].
  - destruct rest as [|c r]; [reflexivity|]. cbn in Hr.
    change (EmptyString ++ String c r) with (String c r).
    cbn [take_digits]. rewrite Hr. reflexivity.
  - rewrite append_cons. cbn [take_digits]. destruct (is_digit c); [|reflexivity].
    rewrite IH. destruct (take_digits s) as [ds r]. reflexivity.
Qed.

Lemma scan_int_append s rest ds r :
  no_digit_ahead rest ->
  scan_int s = Some (ds, r) -> scan_int (s ++ rest) = Some (ds, r ++ rest).
Proof.
  intros Hr. destruct s as [|c s]; [discriminate|]. rewrite append_cons.
  cbn [scan_int]. destruct (Ascii.eqb c "0"); [intros [= <- <-]; reflexivity|].
  destruct (is_digit c); [|discriminate].
  rewrite (take_digits_append s rest Hr). destruct (take_digits s) as [ds' r'].
  intros [= <- <-]. reflexivity.
Qed.

Lemma scan_frac_append s rest :
  number_end rest = true ->
  scan_frac (s ++ rest) = (fst (scan_frac s), snd (scan_frac s) ++ rest).
Proof.
  intros Hr. destruct s as [|c s].
  - change (EmptyString ++ rest) with rest. rewrite (scan_frac_end _ Hr). reflexivity.
  - rewrite append_cons.
    destruct c as [[] [] [] [] [] [] [] []]; try reflexivity.
    cbn [scan_frac]. rewrite (take_digits_append s rest (number_end_not_digit _ Hr)).
    destruct (take_digits s) as [[|d ds] r]; reflexivity.
Qed.

Lemma scan_exp_append s rest ex :
  number_end rest = true ->
  scan_exp s = (ex, EmptyString) -> scan_exp (s ++ rest) = (ex, rest).
Proof.
  intros Hr. pose proof (number_end_not_digit _ Hr) as Hd.
  destruct s as [|e s].
  - intros [= <-]. change (EmptyString ++ rest) with rest. apply scan_exp_end, Hr.
  - rewrite append_cons. cbn [scan_exp].
    destruct (Ascii.eqb e "e" || Ascii.eqb e "E"); [|discriminate].
    destruct s as [|sg s]; [discriminate|]. rewrite append_cons.
    destruct (Ascii.eqb sg "-" || Ascii.eqb sg "+").
    + rewrite (take_digits_append s rest Hd).
      destruct (take_digits s) as [[|d ds] r]; [discriminate|].
      intros [= <- ->]. reflexivity.
    + rewrite <- append_cons, (take_digits_append (String sg s) rest Hd).
      destruct (take_digits (String sg s)) as [[|d ds] r]; [discriminate|].
      intros [= <- ->]. reflexivity.
Qed.

Lemma scan_number_sign s :
  scan_number s
  = match match head_is "-" s with
          | Some r => (true, r)
          | None => (false, s)
          end with
    | (neg, s1) =>
        match scan_int s1 with
        | Some (ds, r1) =>
            let (fr, r2) := scan_frac r1 in
            let (ex, r3) := scan_exp r2 in
            match fr, ex with
            | EmptyString, EmptyString =>
                Some (PInt (if neg then - int_of_digits ds else int_of_digits ds), r3)
            | _, _ =>
                Some (PFloat ((if neg then "-" else EmptyString) ++ ds ++ fr ++ ex), r3)
            end
        | None => None
        end
    end.
Proof.
  destruct s as [|c s]; [reflexivity|].
  destruct c as [[] [] [] [] [] [] [] []]; reflexivity.
Qed.

Lemma head_is_append c s r rest :
  head_is c s = Some r -> head_is c (s ++ rest) = Some (r ++ rest).
Proof.
  destruct s as [|a s]; [discriminate|]. rewrite append_cons. cbn [head_is].
  destruct (Ascii.eqb a c); [|discriminate]. intros [= ->]. reflexivity.
Qed.

Lemma head_is_digit s rest ds r :
  head_is "-" s = None -> scan_int s = Some (ds, r) -> head_is "-" (s ++ rest) = None.
Proof.
  destruct s as [|a s]; [discriminate|]. rewrite append_cons. cbn [head_is].
  destruct (Ascii.eqb a "-"); [discriminate | reflexivity].
Qed.

(** The decoder reads a float literal back, whatever follows it. *)
Lemma scan_number_float lit rest :
  float_literal lit = true -> number_end rest = true ->
  scan_number (lit ++ rest) = Some (PFloat lit, rest).
Proof.
  unfold float_literal. intros Hl Hr. pose proof (number_end_not_digit _ Hr) as Hd.
  rewrite scan_number_sign in Hl. rewrite scan_number_sign.
  assert (Hgen : forall (neg : bool) (s1 : string),
    match scan_int s1 with
    | Some (ds, r1) =>
        let (fr, r2) := scan_frac r1 in
        let (ex, r3) := scan_exp r2 in
        match fr, ex with
        | EmptyString, EmptyString =>
            Some (PInt (if neg then - int_of_digits ds else int_of_digits ds), r3)
        | _, _ =>
            Some (PFloat ((if neg then "-" else EmptyString) ++ ds ++ fr ++ ex), r3)
        end
    | None => None
    end = Some (PFloat lit, EmptyString) ->
    match scan_int (s1 ++ rest) with
    | Some (ds, r1) =>
        let (fr, r2) := scan_frac r1 in
        let (ex, r3) := scan_exp r2 in
        match fr, ex with
        | EmptyString, EmptyString =>
            Some (PInt (if neg then - int_of_digits ds else int_of_digits ds), r3)
        | _, _ =>
            Some (PFloat ((if neg then "-" else EmptyString) ++ ds ++ fr ++ ex), r3)
        end
    | None => None
    end = Some (PFloat lit, rest)).
  { intros neg s1. destruct (scan_int s1) as [[ds r1]|] eqn:Ei; [|discriminate].
    rewrite (scan_int_append _ _ _ _ Hd Ei), (scan_frac_append r1 rest Hr).
    destruct (scan_frac r1) as [fr r2]. cbn [fst snd].
    destruct (scan_exp r2) as [ex r3] eqn:Ee.
    intros H.
    assert (r3 = EmptyString) as -> by (destruct fr, ex; congruence).
    rewrite (scan_exp_append _ _ _ Hr Ee).
    destruct fr, ex; congruence. }
  destruct (head_is "-" lit) as [s1|] eqn:Eh.
  - rewrite (head_is_append _ _ _ rest Eh). cbv beta iota in Hl |- *. apply (Hgen true).
    destruct (scan_int s1) as [[ds r1]|]; [|discriminate].
    destruct (scan_frac r1) as [fr r2], (scan_exp r2) as [ex r3].
    destruct fr, ex; try discriminate;
      destruct r3; try discriminate;
      apply String.eqb_eq in Hl; rewrite Hl; reflexivity.
  - destruct (scan_int lit) as [[ds r1]|] eqn:Ei; [|discriminate].
    rewrite (head_is_digit _ rest _ _ Eh Ei). cbv beta iota. apply (Hgen false). rewrite Ei.
    destruct (scan_frac r1) as [fr r2], (scan_exp r2) as [ex r3].
    destruct fr, ex; try discriminate;
      destruct r3; try discriminate;
      apply String.eqb_eq in Hl; rewrite Hl; reflexivity.
Qed.

Lemma float_literal_start lit :
  float_literal lit = true ->
  exists c t, lit = String c t /\ (is_digit c || Ascii.eqb c "-") = true.
Proof.
  unfold float_literal. rewrite scan_number_sign.
  destruct lit as [|c t]; [discriminate|]. intros H. exists c, t. split; [reflexivity|].
  cbn [head_is] in H. destruct (Ascii.eqb c "-"); [apply orb_true_r|].
  rewrite orb_false_r. cbn [scan_int] in H.
  destruct (Ascii.eqb c "0") eqn:E0; [apply Ascii.eqb_eq in E0; subst c; reflexivity|].
  destruct (is_digit c); [reflexivity | discriminate].
Qed.

Lemma floatstr_literal lit : float_literal lit = true -> floatstr lit = lit.
Proof.
  intros H. unfold floatstr.
  destruct (String.eqb lit "nan") eqn:E1;
    [apply String.eqb_eq in E1; subst lit; discriminate H|].
  destruct (String.eqb lit "inf") eqn:E2;
    [apply String.eqb_eq in E2; subst lit; discriminate H|].
  destruct (String.eqb lit "-inf") eqn:E3;
    [apply String.eqb_eq in E3; subst lit; discriminate H|].
  reflexivity.
Qed.

Lemma round_trips_float lit : float_literal lit = true -> round_trips (PFloat lit).
Proof.
  intros Hl. destruct (float_literal_start lit Hl) as (c & t & Hz & Hc).
  exists c, t. cbn [dumps]. rewrite (floatstr_literal _ Hl), Hz. repeat split.
  - apply value_start_number, Hc.
  - cbn. lia.
  - intros rest [|n] Hr Hn; [cbn in Hn; lia|].
    rewrite append_cons, (scan_value_number _ _ _ Hc), <- append_cons, <- Hz.
    rewrite (scan_number_float _ _ Hl Hr). reflexivity.
Qed.

Lemma round_trips_none : round_trips PNone.
Proof.
  eexists _, _. repeat split; [cbn; lia|].
  intros rest [|n] _ Hn; [cbn in Hn; lia|]. reflexivity.
Qed.

Lemma round_trips_bool b : round_trips (PBool b).
Proof.
  destruct b; eexists _, _; (repeat split; [cbn; lia|]);
    (intros rest [|n] _ Hn; [cbn in Hn; lia|]); reflexivity.
Qed.

Lemma round_trips_int z : round_trips (PInt z).
Proof.
  destruct (first_char_Z z) as (c & t & Hz & Hc).
  exists c, t. cbn [dumps]. rewrite Hz. repeat split.
  - apply value_start_number, Hc.
  - cbn. lia.
  - intros rest [|n] Hr Hn; [cbn in Hn; lia|].
    rewrite append_cons, (scan_value_number _ _ _ Hc), <- append_cons, <- Hz.
    rewrite (scan_number_Z _ _ Hr). reflexivity.
Qed.

Lemma round_trips_str s : round_trips (PStr s).
Proof.
  eexists _, _. repeat split; [cbn; lia|].
  intros rest [|n] _ Hn; [cbn in Hn; lia|].
  rewrite append_cons. cbn [scan_value].
  change (Ascii.eqb dquote dquote) with true. cbn iota.
  rewrite append_assoc. change (str1 dquote ++ rest) with (String dquote rest).
  rewrite scanstring_escape. reflexivity.
Qed.

Lemma join_cons2 sep x y r : join sep (x :: y :: r) = x ++ sep ++ join sep (y :: r).
Proof. reflexivity. Qed.

Lemma join_head_start l ts x s :
  Forall2 element_round_trips (x :: l) (s :: ts) ->
  exists c t, join ", " (s :: ts) = String c t /\ value_start c = true.
Proof.
  intros H. inversion H as [|? ? ? ? (c & t & -> & Hc & _) Hl]; subst.
  destruct ts as [|s2 ts].
  - exists c, t. auto.
  - rewrite join_cons2, append_cons. eexists _, _. eauto.
Qed.

Lemma list_sum_cons_map {A} (f : A -> nat) x l :
  list_sum (List.map f (x :: l)) = (f x + list_sum (List.map f l))%nat.
Proof. reflexivity. Qed.

Lemma scan_elements_join l ts :
  Forall2 element_round_trips l ts -> l <> [] ->
  forall rest n,
    (list_sum (List.map (fun x => S (weight x)) l) <= n)%nat ->
    scan_elements n (join ", " ts ++ String "]" rest) = Some (l, rest).
Proof.
  induction 1 as [|x s l ts Hx Hl IH]; [congruence|]. intros _ rest n Hn.
  rewrite list_sum_cons_map in Hn. destruct n as [|m]; [lia|].
  destruct Hx as (c & t & -> & Hc & Hscan).
  destruct Hl as [|y s2 l ts Hy Hl].
  - change (join ", " [String c t]) with (String c t).
    cbn [scan_elements]. rewrite Hscan; [reflexivity | reflexivity | lia].
  - rewrite join_cons2, append_assoc, append_assoc.
    cbn [scan_elements]. rewrite Hscan; [| reflexivity | lia].
    change (", " ++ ?a) with (String "," (String " " a)).
    destruct (join_head_start _ _ _ _ ltac:(constructor; [exact Hy | exact Hl])) as (c2 & t2 & Hj & Hc2).
    cbn [skip_ws is_ws Ascii.eqb Bool.eqb orb]. cbn iota.
    rewrite Hj, append_cons, (skip_ws_value_start _ _ Hc2), <- append_cons, <- Hj.
    rewrite IH; [reflexivity | discriminate | lia].
Qed.

Lemma scan_member k vs x R m :
  element_round_trips x vs -> number_end R = true -> (weight x <= m)%nat ->
  scan_members (S m) ((quote k ++ ": " ++ vs) ++ R)
  = match skip_ws R with
    | String "}" rest => Some ([(k, x)], rest)
    | String "," r4 =>
        match scan_members m (skip_ws r4) with
        | Some (ps, rest) => Some ((k, x) :: ps, rest)
        | None => None
        end
    | _ => None
    end.
Proof.
  intros (c & t & -> & Hc & Hscan) HR Hm.
  unfold quote, str1. change (": " ++ ?a) with (String ":" (String " " a)).
  repeat (rewrite append_cons || rewrite append_assoc).
  change (EmptyString ++ ?a) with a.
  cbn [scan_members]. change (Ascii.eqb dquote dquote) with true. cbn iota.
  rewrite scanstring_escape.
  cbn [skip_ws is_ws Ascii.eqb Bool.eqb orb]. cbn iota.
  rewrite (value_start_not_ws _ Hc), <- append_cons.
  rewrite (Hscan _ _ HR Hm). reflexivity.
Qed.

Lemma member_head_quote d ts kv s :
  Forall2 member_round_trips (kv :: d) (s :: ts) ->
  exists t, join ", " (s :: ts) = String dquote t.
Proof.
  intros H. inversion H as [|? ? ? ? (k & vs & _ & -> & _) Hl]; subst.
  destruct ts as [|s2 ts].
  - unfold quote. eexists. reflexivity.
  - rewrite join_cons2. unfold quote. eexists. reflexivity.
Qed.

Lemma scan_members_join d ts :
  Forall2 member_round_trips d ts -> d <> [] ->
  forall rest n,
    (list_sum (List.map (fun kv => S (weight (snd kv))) d) <= n)%nat ->
    scan_members n (join ", " ts ++ String "}" rest) = Some (pairs_of d, rest).
Proof.
  induction 1 as [|[k0 x] s d ts Hx Hd IH]; [congruence|]. intros _ rest n Hn.
  rewrite list_sum_cons_map in Hn. cbn [snd] in Hn. destruct n as [|m]; [lia|].
  destruct Hx as (k & vs & Hk & -> & Hvs). cbn [fst snd] in Hk, Hvs. subst k0.
  destruct Hd as [|kv2 s2 d ts Hy Hd].
  - change (join ", " [quote k ++ ": " ++ vs]) with (quote k ++ ": " ++ vs).
    rewrite (scan_member _ _ _ _ _ Hvs); [reflexivity | reflexivity | lia].
  - rewrite join_cons2, (append_assoc (quote k ++ ": " ++ vs)), (append_assoc ", ").
    rewrite (scan_member _ _ _ _ _ Hvs); [| reflexivity | lia].
    change (", " ++ ?a) with (String "," (String " " a)).
    cbn [skip_ws is_ws Ascii.eqb Bool.eqb orb]. cbn iota.
    destruct (member_head_quote _ _ _ _ ltac:(constructor; [exact Hy | exact Hd]))
      as (t2 & Hj).
    rewrite Hj, append_cons. change (skip_ws (String dquote ?a)) with (String dquote a).
    rewrite <- append_cons, <- Hj.
    rewrite IH; [reflexivity | discriminate | lia].
Qed.

Lemma scan_value_array n c X :
  value_start c = true ->
  scan_value (S n) (String "[" (String c X))
  = match scan_elements n (String c X) with
    | Some (vs, rest) => Some (PList vs, rest)
    | None => None
    end.
Proof.
  intros Hc. cbn [scan_value].
  change (Ascii.eqb "[" dquote) with false. change (Ascii.eqb "[" "{") with false.
  change (Ascii.eqb "[" "[") with true. cbn iota.
  rewrite (skip_ws_value_start _ _ Hc).
  destruct c as [[] [] [] [] [] [] [] []]; try discriminate Hc; reflexivity.
Qed.

Lemma scan_value_object n X :
  scan_value (S n) (String "{" (String dquote X))
  = match scan_members n (String dquote X) with
    | Some (pairs, rest) => Some (PDict (dict_of_pairs pairs), rest)
    | None => None
    end.
Proof. reflexivity. Qed.

Lemma dumps_list_intro l ts :
  Forall2 (fun x s => dumps x = Ok s) l ts ->
  dumps (PList l) = Ok ("[" ++ join ", " ts ++ "]").
Proof.
  intros H. rewrite dumps_list.
  match goal with |- rbind ?m _ = _ => assert (Hm : m = Ok ts) end.
  { induction H as [|x s l ts Hx Hl IH]; [reflexivity|].
    rewrite Hx. cbn [rbind]. rewrite IH. reflexivity. }
  rewrite Hm. reflexivity.
Qed.

Lemma dumps_dict_intro d ts :
  Forall2 (fun kv s => exists ks vs, dumps_key (fst kv) = Ok ks
                         /\ dumps (snd kv) = Ok vs
                         /\ s = ks ++ ": " ++ vs) d ts ->
  dumps (PDict d) = Ok ("{" ++ join ", " ts ++ "}").
Proof.
  intros H. cbn [dumps].
  match goal with |- rbind ?m _ = _ => assert (Hm : m = Ok ts) end.
  { induction H as [|[k x] s d ts (ks & vs & Hk & Hx & ->) Hl IH]; [reflexivity|].
    cbn [fst snd] in Hk, Hx. rewrite Hk, Hx. cbn [rbind]. rewrite IH. reflexivity. }
  rewrite Hm. reflexivity.
Qed.

Lemma join_weight {A} (w : A -> nat) (l : list A) ts :
  Forall2 (fun x s => (w x <= String.length s)%nat) l ts ->
  (list_sum (List.map (fun x => S (w x)) l) <= String.length (join ", " ts) + 1)%nat.
Proof.
  induction 1 as [|x s l ts Hx Hl IH]; [cbn; lia|].
  rewrite list_sum_cons_map. destruct Hl as [|y s2 l ts Hy Hl].
  - cbn. lia.
  - rewrite join_cons2, !length_append. cbn [String.length]. lia.
Qed.

Lemma dict_has_app k d1 d2 : dict_has k (d1 ++ d2)%list = dict_has k d1 || dict_has k d2.
Proof.
  induction d1 as [|[[k'|z|c r] v] d1 IH]; cbn [dict_has app]; [reflexivity| |exact IH..].
  rewrite IH. apply orb_assoc.
Qed.

Lemma dict_set_fresh k v d :
  dict_has k d = false -> dict_set k v d = (d ++ [(KStr k, v)])%list.
Proof.
  induction d as [|[[k'|z|c r] w] d IH]; cbn [dict_has dict_set app]; [reflexivity| |..].
  - intros H. apply orb_false_iff in H as [H1 H2]. rewrite H1, (IH H2). reflexivity.
  - intros H. rewrite (IH H). reflexivity.
  - intros H. rewrite (IH H). reflexivity.
Qed.

Lemma dict_of_pairs_app d acc :
  string_keys d = true -> unique_keys d = true ->
  (forall k, dict_has k d = true -> dict_has k acc = false) ->
  fold_left (fun a kv => dict_set (fst kv) (snd kv) a) (pairs_of d) acc = (acc ++ d)%list.
Proof.
  revert acc. induction d as [|[[k|z|c r] v] d IH]; intros acc Hs Hu Hf;
    try discriminate Hs.
  - cbn. rewrite app_nil_r. reflexivity.
  - cbn [string_keys forallb fst andb] in Hs. cbn [unique_keys] in Hu.
    apply andb_true_iff in Hu as [Hk Hu]. apply negb_true_iff in Hk.
    cbn [pairs_of List.map fold_left fst snd key_name].
    rewrite dict_set_fresh.
    2: { apply Hf. cbn [dict_has]. rewrite String.eqb_refl. reflexivity. }
    fold (pairs_of d). rewrite (IH _ Hs Hu).
    + rewrite <- app_assoc. reflexivity.
    + intros k' Hk'. rewrite dict_has_app. cbn [dict_has].
      rewrite (Hf k'); [|cbn [dict_has]; rewrite Hk'; apply orb_true_r].
      destruct (String.eqb k' k) eqn:E; [|reflexivity].
      apply String.eqb_eq in E. subst k'. congruence.
Qed.

Lemma dict_of_pairs_of d :
  string_keys d = true -> unique_keys d = true -> dict_of_pairs (pairs_of d) = d.
Proof.
  intros Hs Hu. unfold dict_of_pairs. rewrite (dict_of_pairs_app d [] Hs Hu); reflexivity.
Qed.

Lemma elements_round_trip l :
  Forall (fun x => json_data x = true -> round_trips x) l ->
  forallb json_data l = true ->
  exists ts,
    Forall2 (fun x s => dumps x = Ok s) l ts
    /\ Forall2 element_round_trips l ts
    /\ Forall2 (fun x s => (weight x <= String.length s)%nat) l ts.
Proof.
  induction 1 as [|x l Hx Hl IH]; intros Hd.
  - exists []. repeat split; constructor.
  - cbn [forallb] in Hd. apply andb_true_iff in Hd as [Hdx Hdl].
    destruct (IH Hdl) as (ts & H1 & H2 & H3).
    destruct (Hx Hdx) as (c & t & Hdump & Hc & Hw & Hscan).
    exists (String c t :: ts). repeat split; constructor; try assumption.
    exists c, t. auto.
Qed.

Lemma members_round_trip d :
  Forall (fun kv => json_data (snd kv) = true -> round_trips (snd kv)) d ->
  forallb (fun kv => match fst kv with
                     | KStr _ => json_data (snd kv)
                     | _ => false
                     end) d = true ->
  string_keys d = true
  /\ exists ts,
      Forall2 (fun kv s => exists ks vs, dumps_key (fst kv) = Ok ks
                             /\ dumps (snd kv) = Ok vs
                             /\ s = ks ++ ": " ++ vs) d ts
      /\ Forall2 member_round_trips d ts
      /\ Forall2 (fun kv s => (weight (snd kv) <= String.length s)%nat) d ts.
Proof.
  induction 1 as [|[k x] d Hx Hl IH]; intros Hd.
  - split; [reflexivity|]. exists []. repeat split; constructor.
  - cbn [forallb fst snd] in Hd. apply andb_true_iff in Hd as [Hdx Hdl].
    destruct k as [k|z|c0 r]; try discriminate Hdx.
    destruct (IH Hdl) as (Hs & ts & H1 & H2 & H3).
    destruct (Hx Hdx) as (c & t & Hdump & Hc & Hw & Hscan). cbn [snd] in *.
    split; [exact Hs|].
    exists ((quote k ++ ": " ++ String c t) :: ts). repeat split; constructor;
      try assumption.
    + exists (quote k), (String c t). auto.
    + exists k, (String c t). repeat split. exists c, t. auto.
    + cbn [snd]. rewrite !length_append. cbn [String.length] in *. clear -Hw. lia.
Qed.

(** [json.loads] undoes [json.dumps] on JSON data, whatever follows the
    text. *)
Lemma json_data_round_trips v : json_data v = true -> round_trips v.
Proof.
  induction v using pyval_induction; intros Hd; try discriminate Hd.
  - apply round_trips_none.
  - apply round_trips_bool.
  - apply round_trips_int.
  - apply round_trips_float, Hd.
  - apply round_trips_str.
  - cbn [json_data] in Hd.
    destruct (elements_round_trip l H Hd) as (ts & H1 & H2 & H3).
    exists "["%char, (join ", " ts ++ "]"). split; [apply (dumps_list_intro _ _ H1)|].
    split; [reflexivity|].
    pose proof (join_weight weight l ts H3) as Hw. split.
    { cbn [weight String.length]. rewrite length_append. cbn [String.length]. lia. }
    intros rest n _ Hn. cbn [weight] in Hn. destruct n as [|m]; [lia|].
    rewrite append_cons, append_assoc. change ("]" ++ rest) with (String "]" rest).
    destruct H2 as [|x s l ts Hx Hl]; [reflexivity|].
    destruct (join_head_start _ _ _ _ ltac:(constructor; [exact Hx | exact Hl]))
      as (c & t & Hj & Hc).
    rewrite Hj, append_cons, (scan_value_array _ _ _ Hc), <- append_cons, <- Hj.
    rewrite (scan_elements_join (x :: l) (s :: ts)); [reflexivity | | discriminate | lia].
    constructor; assumption.
  - cbn [json_data] in Hd. apply andb_true_iff in Hd as [Hd Hu].
    destruct (members_round_trip d H Hd) as (Hs & ts & H1 & H2 & H3).
    exists "{"%char, (join ", " ts ++ "}"). split; [apply (dumps_dict_intro _ _ H1)|].
    split; [reflexivity|].
    pose proof (join_weight (fun kv => weight (snd kv)) d ts H3) as Hw. split.
    { cbn [weight String.length]. rewrite length_append. cbn [String.length]. clear - Hw. lia. }
    intros rest n _ Hn. cbn [weight] in Hn. destruct n as [|m]; [clear - Hn; lia|].
    rewrite append_cons, append_assoc. change ("}" ++ rest) with (String "}" rest).
    destruct H2 as [|kv s d ts Hx Hl]; [reflexivity|].
    destruct (member_head_quote _ _ _ _ ltac:(constructor; [exact Hx | exact Hl]))
      as (t & Hj).
    rewrite Hj, append_cons, scan_value_object, <- append_cons, <- Hj.
    rewrite (scan_members_join (kv :: d) (s :: ts)); [| | discriminate | clear - Hn; lia].
    + rewrite (dict_of_pairs_of _ Hs Hu). reflexivity.
    + constructor; assumption.
Qed.

Lemma skip_ws_empty_append t : t ++ EmptyString = t.
Proof.
  induction t as [|c t IH]; [reflexivity|]. rewrite append_cons, IH. reflexivity.
Qed.

(** [json.loads(json.dumps(v)) == v] for JSON data. *)
Theorem loads_dumps v :
  json_data v = true -> exists t, dumps v = Ok t /\ loads t = Some v.
Proof.
  intros Hd. destruct (json_data_round_trips v Hd) as (c & t & Hdump & Hc & Hw & Hscan).
  exists (String c t). split; [exact Hdump|].
  unfold loads. rewrite (skip_ws_value_start _ _ Hc).
  rewrite <- (skip_ws_empty_append (String c t)) at 2.
  rewrite Hscan; [reflexivity | reflexivity | lia].
Qed.

(** *** The fuel of the decoder *)

Lemma head_is_length c s r :
  head_is c s = Some r -> String.length s = S (String.length r).
Proof.
  destruct s as [|a s]; [discriminate|]. cbn [head_is].
  destruct (Ascii.eqb a c); [|discriminate]. intros [= ->]. reflexivity.
Qed.

Lemma scan_value_S n s :
  scan_value (S n) s
  = match s with
    | EmptyString => None
    | String c r =>
        if Ascii.eqb c dquote then
          match scanstring r with
          | Some (t, rest) => Some (PStr t, rest)
          | None => None
          end
        else if Ascii.eqb c "{" then
          match head_is "}" (skip_ws r) with
          | Some rest => Some (PDict [], rest)
          | None =>
              match scan_members n (skip_ws r) with
              | Some (pairs, rest) => Some (PDict (dict_of_pairs pairs), rest)
              | None => None
              end
          end
        else if Ascii.eqb c "[" then
          match head_is "]" (skip_ws r) with
          | Some rest => Some (PList [], rest)
          | None =>
              match scan_elements n (skip_ws r) with
              | Some (vs, rest) => Some (PList vs, rest)
              | None => None
              end
          end
        else scan_literal s
    end.
Proof.
  destruct s as [|c r]; [reflexivity|]. cbn [scan_value].
  destruct (Ascii.eqb c dquote); [reflexivity|].
  destruct (Ascii.eqb c "{").
  { destruct (skip_ws r) as [|[[] [] [] [] [] [] [] []] rest]; reflexivity. }
  destruct (Ascii.eqb c "[").
  { destruct (skip_ws r) as [|[[] [] [] [] [] [] [] []] rest]; reflexivity. }
  reflexivity.
Qed.

Lemma scan_members_S n s :
  scan_members (S n) s
  = match head_is dquote s with
    | Some r =>
        match scanstring r with
        | Some (key, r1) =>
            match head_is ":" (skip_ws r1) with
            | Some r2 =>
                match scan_value n (skip_ws r2) with
                | Some (v, r3) =>
                    match head_is "}" (skip_ws r3) with
                    | Some rest => Some ([(key, v)], rest)
                    | None =>
                        match head_is "," (skip_ws r3) with
                        | Some r4 =>
                            match scan_members n (skip_ws r4) with
                            | Some (ps, rest) => Some ((key, v) :: ps, rest)
                            | None => None
                            end
                        | None => None
                        end
                    end
                | None => None
                end
            | None => None
            end
        | None => None
        end
    | None => None
    end.
Proof.
  destruct s as [|c r]; [reflexivity|]. cbn [scan_members head_is].
  destruct (Ascii.eqb c dquote); [|reflexivity].
  destruct (scanstring r) as [[key r1]|]; [|reflexivity].
  destruct (skip_ws r1) as [|[[] [] [] [] [] [] [] []] r2]; try reflexivity.
  cbn [head_is Ascii.eqb Bool.eqb].
  destruct (scan_value n (skip_ws r2)) as [[v r3]|]; [|reflexivity].
  destruct (skip_ws r3) as [|[[] [] [] [] [] [] [] []] r4]; reflexivity.
Qed.

Lemma scan_elements_S n s :
  scan_elements (S n) s
  = match scan_value n s with
    | Some (v, r1) =>
        match head_is "]" (skip_ws r1) with
        | Some rest => Some ([v], rest)
        | None =>
            match head_is "," (skip_ws r1) with
            | Some r2 =>
                match scan_elements n (skip_ws r2) with
                | Some (vs, rest) => Some (v :: vs, rest)
                | None => None
                end
            | None => None
            end
        end
    | None => None
    end.
Proof.
  cbn [scan_elements].
  destruct (scan_value n s) as [[v r1]|]; [|reflexivity].
  destruct (skip_ws r1) as [|[[] [] [] [] [] [] [] []] r2]; reflexivity.
Qed.

Lemma skip_ws_length s : (String.length (skip_ws s) <= String.length s)%nat.
Proof.
  induction s as [|c s IH]; [reflexivity|]. cbn [skip_ws].
  destruct (is_ws c); cbn [String.length]; lia.
Qed.

Lemma scanstring_length s t rest :
  scanstring s = Some (t, rest) -> (String.length rest < String.length s)%nat.
Proof.
  remember (String.length s) as n eqn:Hn. revert s t rest Hn.
  induction n as [n IH] using lt_wf_ind. intros s t rest ->.
  destruct s as [|c r]; [discriminate|]. cbn [scanstring String.length].
  destruct (Ascii.eqb c dquote); [intros [= <- <-]; lia|].
  destruct (Ascii.eqb c backslash).
  - destruct r as [|e r1]; [discriminate|].
    destruct (Ascii.eqb e "u").
    + destruct r1 as [|h1 [|h2 [|h3 [|h4 r2]]]]; try discriminate.
      destruct (hex4 h1 h2 h3 h4); [|discriminate].
      destruct (scanstring r2) as [[u rest']|] eqn:E; [|discriminate].
      intros [= <- <-].
      pose proof (IH (String.length r2) ltac:(cbn [String.length]; lia) r2 u rest' eq_refl E).
      cbn [String.length]. lia.
    + destruct (unescape e); [|discriminate].
      destruct (scanstring r1) as [[u rest']|] eqn:E; [|discriminate].
      intros [= <- <-].
      pose proof (IH (String.length r1) ltac:(cbn [String.length]; lia) r1 u rest' eq_refl E).
      cbn [String.length]. lia.
  - destruct (code c <? 32)%N; [discriminate|].
    destruct (scanstring r) as [[u rest']|] eqn:E; [|discriminate].
    intros [= <- <-].
    pose proof (IH (String.length r) ltac:(cbn [String.length]; lia) r u rest' eq_refl E). lia.
Qed.

Lemma take_digits_length s :
  (String.length (snd (take_digits s)) <= String.length s)%nat.
Proof.
  induction s as [|c s IH]; [reflexivity|]. cbn [take_digits].
  destruct (is_digit c); [|reflexivity].
  destruct (take_digits s) as [ds rest]. cbn [snd String.length] in *. lia.
Qed.

Lemma scan_int_length s ds rest :
  scan_int s = Some (ds, rest) -> (String.length rest < String.length s)%nat.
Proof.
  destruct s as [|c r]; [discriminate|]. cbn [scan_int String.length].
  destruct (Ascii.eqb c "0"); [intros [= <- <-]; lia|].
  destruct (is_digit c); [|discriminate].
  pose proof (take_digits_length r) as H. destruct (take_digits r) as [ds' rest'].
  intros [= <- <-]. cbn [snd] in H. lia.
Qed.

Lemma scan_frac_length s :
  (String.length (snd (scan_frac s)) <= String.length s)%nat.
Proof.
  assert (Hgen : forall r,
    (String.length (snd (match take_digits r with
                         | (String d ds, rest) => (String "." (String d ds), rest)
                         | _ => (EmptyString, s)
                         end)) <= Nat.max (String.length r) (String.length s))%nat).
  { intros r. pose proof (take_digits_length r) as H.
    destruct (take_digits r) as [[|d ds] rest]; cbn [snd] in *; lia. }
  destruct s as [|c r]; [reflexivity|].
  destruct c as [[] [] [] [] [] [] [] []]; try reflexivity.
  cbn [scan_frac]. specialize (Hgen r). cbn [String.length] in *. lia.
Qed.

Lemma scan_exp_length s :
  (String.length (snd (scan_exp s)) <= String.length s)%nat.
Proof.
  destruct s as [|e r]; [reflexivity|]. cbn [scan_exp].
  destruct (Ascii.eqb e "e" || Ascii.eqb e "E"); [|reflexivity].
  destruct r as [|sg r1]; [reflexivity|].
  destruct (Ascii.eqb sg "-" || Ascii.eqb sg "+").
  - pose proof (take_digits_length r1) as H.
    destruct (take_digits r1) as [[|d ds] rest]; cbn [snd String.length] in *; lia.
  - pose proof (take_digits_length (String sg r1)) as H.
    destruct (take_digits (String sg r1)) as [[|d ds] rest];
      cbn [snd String.length] in *; lia.
Qed.

Lemma scan_number_length s v rest :
  scan_number s = Some (v, rest) -> (String.length rest < String.length s)%nat.
Proof.
  unfold scan_number.
  set (p := match s with String "-" r => (true, r) | _ => (false, s) end).
  assert (Hp : (String.length (snd p) <= String.length s)%nat).
  { subst p. destruct s as [|c r]; [reflexivity|].
    destruct c as [[] [] [] [] [] [] [] []]; cbn [snd String.length]; lia. }
  destruct p as [neg s1]. cbn [snd] in Hp.
  destruct (scan_int s1) as [[ds r1]|] eqn:Ei; [|discriminate].
  apply scan_int_length in Ei.
  pose proof (scan_frac_length r1) as Hf. destruct (scan_frac r1) as [fr r2].
  pose proof (scan_exp_length r2) as He. destruct (scan_exp r2) as [ex r3].
  cbn [snd] in *.
  destruct fr, ex; intros [= <- <-]; lia.
Qed.

Lemma strip_prefix_length w s r :
  strip_prefix w s = Some r ->
  String.length s = (String.length w + String.length r)%nat.
Proof.
  revert s. induction w as [|a w IH]; intros s; [intros [= ->]; reflexivity|].
  destruct s as [|b s]; [discriminate|]. cbn [strip_prefix].
  destruct (Ascii.eqb a b); [|discriminate]. intros H. apply IH in H.
  cbn [String.length]. lia.
Qed.

Lemma scan_literal_length s v rest :
  scan_literal s = Some (v, rest) -> (String.length rest < String.length s)%nat.
Proof.
  unfold scan_literal.
  repeat match goal with
         | |- context [strip_prefix ?w s] =>
             let E := fresh "E" in
             destruct (strip_prefix w s) eqn:E;
             [apply strip_prefix_length in E; cbn [String.length] in E;
              intros [= <- <-]; lia|]
         | |- context [scan_number s] =>
             let E := fresh "E" in
             destruct (scan_number s) as [[v' r']|] eqn:E;
             [apply scan_number_length in E; intros [= <- <-]; exact E|]
         end.
  discriminate.
Qed.

(** A call that returns has consumed at least one character, and fuel for
    as many calls as it has consumed characters is enough for it. *)
Lemma scan_consumes n :
  (forall s v rest,
     scan_value n s = Some (v, rest) ->
     (String.length rest < String.length s)%nat
     /\ forall m, (String.length s - String.length rest <= m)%nat ->
                  scan_value m s = Some (v, rest))
  /\ (forall s ps rest,
        scan_members n s = Some (ps, rest) ->
        (String.length rest < String.length s)%nat
        /\ forall m, (String.length s - String.length rest <= m)%nat ->
                     scan_members m s = Some (ps, rest))
  /\ (forall s vs rest,
        scan_elements n s = Some (vs, rest) ->
        (String.length rest < String.length s)%nat
        /\ forall m, (String.length s - String.length rest <= m)%nat ->
                     scan_elements m s = Some (vs, rest)).
Proof.
  induction n as [|n (IHv & IHm & IHe)]; [repeat split; discriminate|].
  split; [|split].
  - intros s v rest. rewrite scan_value_S.
    destruct s as [|c r]; [discriminate|].
    destruct (Ascii.eqb c dquote) eqn:Eq.
    { destruct (scanstring r) as [[t rest']|] eqn:Es; [|discriminate].
      intros [= <- <-]. apply scanstring_length in Es as Hl.
      split; [cbn [String.length]; lia|].
      intros [|m] Hm; [cbn [String.length] in Hm; lia|].
      rewrite scan_value_S, Eq, Es. reflexivity. }
    destruct (Ascii.eqb c "{") eqn:Eb.
    { pose proof (skip_ws_length r) as Hw.
      destruct (head_is "}" (skip_ws r)) as [rest'|] eqn:Eh.
      - intros [= <- <-]. apply head_is_length in Eh as Lh.
        split; [cbn [String.length]; lia|].
        intros [|m] Hm; [cbn [String.length] in Hm; lia|].
        rewrite scan_value_S, Eq, Eb, Eh. reflexivity.
      - destruct (scan_members n (skip_ws r)) as [[pairs rest']|] eqn:Em; [|discriminate].
        intros [= <- <-]. destruct (IHm _ _ _ Em) as [Hl Hfuel].
        split; [cbn [String.length]; lia|].
        intros [|m] Hm; [cbn [String.length] in Hm; lia|].
        rewrite scan_value_S, Eq, Eb, Eh, (Hfuel m); [reflexivity|].
        cbn [String.length] in Hm. lia. }
    destruct (Ascii.eqb c "[") eqn:Ea.
    { pose proof (skip_ws_length r) as Hw.
      destruct (head_is "]" (skip_ws r)) as [rest'|] eqn:Eh.
      - intros [= <- <-]. apply head_is_length in Eh as Lh.
        split; [cbn [String.length]; lia|].
        intros [|m] Hm; [cbn [String.length] in Hm; lia|].
        rewrite scan_value_S, Eq, Eb, Ea, Eh. reflexivity.
      - destruct (scan_elements n (skip_ws r)) as [[vs rest']|] eqn:Ee; [|discriminate].
        intros [= <- <-]. destruct (IHe _ _ _ Ee) as [Hl Hfuel].
        split; [cbn [String.length]; lia|].
        intros [|m] Hm; [cbn [String.length] in Hm; lia|].
        rewrite scan_value_S, Eq, Eb, Ea, Eh, (Hfuel m); [reflexivity|].
        cbn [String.length] in Hm. lia. }
    intros H. apply scan_literal_length in H as Hl. split; [exact Hl|].
    intros [|m] Hm; [lia|]. rewrite scan_value_S, Eq, Eb, Ea. exact H.
  - intros s ps rest. rewrite scan_members_S.
    destruct (head_is dquote s) as [r|] eqn:E0; [|discriminate].
    destruct (scanstring r) as [[key r1]|] eqn:Es; [|discriminate].
    destruct (head_is ":" (skip_ws r1)) as [r2|] eqn:E1; [|discriminate].
    destruct (scan_value n (skip_ws r2)) as [[v r3]|] eqn:Ev; [|discriminate].
    apply head_is_length in E0 as L0. apply scanstring_length in Es as Ls.
    apply head_is_length in E1 as L1.
    pose proof (skip_ws_length r1) as W1. pose proof (skip_ws_length r2) as W2.
    pose proof (skip_ws_length r3) as W3.
    destruct (IHv _ _ _ Ev) as [Lv Fv].
    destruct (head_is "}" (skip_ws r3)) as [rest'|] eqn:E2.
    + intros [= <- <-]. apply head_is_length in E2 as L2.
      split; [lia|].
      intros [|m] Hm; [lia|].
      rewrite scan_members_S, E0, Es, E1, (Fv m), E2; [reflexivity | lia].
    + destruct (head_is "," (skip_ws r3)) as [r4|] eqn:E3; [|discriminate].
      destruct (scan_members n (skip_ws r4)) as [[ps' rest']|] eqn:Em; [|discriminate].
      intros [= <- <-]. apply head_is_length in E3 as L3.
      pose proof (skip_ws_length r4) as W4.
      destruct (IHm _ _ _ Em) as [Lm Fm].
      split; [lia|].
      intros [|m] Hm; [lia|].
      rewrite scan_members_S, E0, Es, E1, (Fv m), E2, E3, (Fm m); [reflexivity | lia..].
  - intros s vs rest. rewrite scan_elements_S.
    destruct (scan_value n s) as [[v r1]|] eqn:Ev; [|discriminate].
    destruct (IHv _ _ _ Ev) as [Lv Fv].
    pose proof (skip_ws_length r1) as W1.
    destruct (head_is "]" (skip_ws r1)) as [rest'|] eqn:E2.
    + intros [= <- <-]. apply head_is_length in E2 as L2.
      split; [lia|].
      intros [|m] Hm; [lia|].
      rewrite scan_elements_S, (Fv m), E2; [reflexivity | lia].
    + destruct (head_is "," (skip_ws r1)) as [r2|] eqn:E3; [|discriminate].
      destruct (scan_elements n (skip_ws r2)) as [[vs' rest']|] eqn:Ee; [|discriminate].
      intros [= <- <-]. apply head_is_length in E3 as L3.
      pose proof (skip_ws_length r2) as W2.
      destruct (IHe _ _ _ Ee) as [Le Fe].
      split; [lia|].
      intros [|m] Hm; [lia|].
      rewrite scan_elements_S, (Fv m), E2, E3, (Fe m); [reflexivity | lia..].
Qed.

(** The decoder does not depend on its fuel once this exceeds the length
    of the text: [None] is a refused text, never a lack of fuel. *)
Lemma scan_value_fuel n s :
  (String.length s < n)%nat ->
  scan_value n s = scan_value (S (String.length s)) s.
Proof.
  intros Hn.
  destruct (scan_value n s) as [[v rest]|] eqn:E.
  - destruct (proj1 (scan_consumes n) _ _ _ E) as [_ H]. symmetry. apply H. lia.
  - destruct (scan_value (S (String.length s)) s) as [[v rest]|] eqn:E'; [|reflexivity].
    destruct (proj1 (scan_consumes _) _ _ _ E') as [_ H].
    rewrite H in E by lia. discriminate E.
Qed.

(** [loads] with any larger fuel reads the same value. *)
Lemma loads_fuel n s :
  (String.length s < n)%nat ->
  loads s = match scan_value n (skip_ws s) with
            | Some (v, rest) =>
                match skip_ws rest with
                | EmptyString => Some v
                | _ => None
                end
            | None => None
            end.
Proof.
  intros Hn. unfold loads. pose proof (skip_ws_length s) as Hw.
  rewrite (scan_value_fuel n), (scan_value_fuel (S (String.length s))) by lia.
  reflexivity.
Qed.

End JsonFacts.

(* ===================================================================== *)
(** ** Properties of the task manager *)
(* ===================================================================== *)

Module TaskManagerFacts.
Import Text Py TaskManager Props PyFacts JsonFacts.

Lemma validate_ok env request :
  validated env request -> _validate_request env request = None.
Proof. unfold validated, _validate_request. intros ->. reflexivity. Qed.

Lemma on_send_task_validated env request tasks :
  validated env request ->
  on_send_task env request tasks
  = _invoke env request (upserted env (params request) tasks).
Proof.
  intros Hv. unfold on_send_task. rewrite (validate_ok _ _ Hv).
  unfold bind, upserted, upsert_task.
  destruct (tasks !! id (params request)); reflexivity.
Qed.

Lemma upserted_eq env p tasks :
  upserted env p tasks =
  match tasks !! id p with
  | Some _ => tasks
  | None => <[id p := {| task_id := id p; status := fresh_status env;
                         artifacts := None |}]> tasks
  end.
Proof.
  unfold upserted, upsert_task. destruct (tasks !! id p); reflexivity.
Qed.

Lemma upserted_lookup env p tasks :
  exists task, upserted env p tasks !! id p = Some task
               /\ match tasks !! id p with
                  | Some old => task = old
                  | None => artifact_list task = []
                  end.
Proof.
  rewrite upserted_eq. destruct (tasks !! id p) as [old|] eqn:E.
  - exists old. auto.
  - eexists. rewrite lookup_insert_eq. split; reflexivity.
Qed.

Lemma upserted_keeps env p tasks tid task :
  tasks !! tid = Some task -> upserted env p tasks !! tid = Some task.
Proof.
  intros H. rewrite upserted_eq. destruct (tasks !! id p) eqn:E; [exact H|].
  rewrite lookup_insert_ne; [exact H|]. intros Heq. rewrite Heq in E. congruence.
Qed.

Lemma update_store_found tid st new tasks task :
  tasks !! tid = Some task ->
  _update_store tid st (Some new) tasks
  = (Ok (updated task st new), <[tid := updated task st new]> tasks).
Proof. intros H. unfold _update_store. rewrite H. reflexivity. Qed.

Lemma update_store_missing tid st new tasks :
  tasks !! tid = None ->
  _update_store tid st new tasks
  = (Raise (ValueError ("Task " ++ tid ++ " not found")), tasks).
Proof. intros H. unfold _update_store. rewrite H. reflexivity. Qed.

(** What [_create_error_response] does: with a running loop
    [asyncio.run] raises, and the function raises [ValueError] with the
    text it was given, the store untouched. *)
Lemma create_error_response_running env rid tid msg tasks :
  loop_running env = true ->
  _create_error_response env rid tid msg tasks = (Raise (ValueError msg), tasks).
Proof.
  intros H. unfold _create_error_response, try_except, bind, asyncio_run.
  rewrite H. reflexivity.
Qed.

(** The contract of [_create_error_response] whatever the loop: a
    response around the task, completed with the text as its sole part
    and that part as its new artifact, or [ValueError] with the text. *)
Lemma create_error_response_cases env rid tid msg tasks :
  (exists task,
      tasks !! tid = Some task /\
      _create_error_response env rid tid msg tasks
      = (Ok (task_response rid
               (updated task (agent_status COMPLETED [TextPart msg])
                  [{| artifact_parts := [TextPart msg] |}])),
         <[tid := updated task (agent_status COMPLETED [TextPart msg])
                    [{| artifact_parts := [TextPart msg] |}]]> tasks))
  \/ _create_error_response env rid tid msg tasks = (Raise (ValueError msg), tasks).
Proof.
  destruct (loop_running env) eqn:Hl.
  - right. apply create_error_response_running, Hl.
  - unfold _create_error_response, try_except, bind, asyncio_run. rewrite Hl.
    destruct (tasks !! tid) as [task|] eqn:E.
    + left. exists task. split; [reflexivity|].
      rewrite (update_store_found _ _ _ _ _ E). reflexivity.
    + right. rewrite (update_store_missing _ _ _ _ E). reflexivity.
Qed.

(** Every path through [_invoke] for a request whose first part is a text,
    by what the agent does. *)
Lemma invoke_returned env request tasks q r ps task :
  _get_user_query (params request) = Ok q ->
  agent_invoke env q (sessionId (params request)) = Ok r ->
  r <> PNone ->
  classify r = Ok ps ->
  tasks !! id (params request) = Some task ->
  _invoke env request tasks
  = (Ok (task_response (request_id request)
           (updated task (agent_status (task_state_of r) ps)
              [{| artifact_parts := ps |}])),
     <[id (params request) :=
         updated task (agent_status (task_state_of r) ps)
           [{| artifact_parts := ps |}]]> tasks).
Proof.
  intros Hq Ha Hr Hc Ht.
  unfold _invoke, try_except, bind, lift. rewrite Hq, Ha.
  destruct r; try congruence;
    rewrite Hc; rewrite (update_store_found _ _ _ _ _ Ht); reflexivity.
Qed.

Lemma invoke_timeout env request tasks q m :
  _get_user_query (params request) = Ok q ->
  agent_invoke env q (sessionId (params request)) = Raise (TimeoutError m) ->
  _invoke env request tasks
  = match _create_error_response env (request_id request) (id (params request))
            timeout_text tasks with
    | (Raise e, tasks') =>
        _create_error_response env (request_id request) (id (params request))
          ("Error invoking agent: " ++ exn_str e) tasks'
    | r => r
    end.
Proof.
  intros Hq Ha. unfold _invoke, try_except at 1 2, bind at 1 2, lift.
  rewrite Hq, Ha. cbn [is_timeout is_exception].
  change ("Timeout waiting for response from blockchain after "
            ++ string_of_Z BLOCKCHAIN_TIMEOUT ++ " seconds") with timeout_text.
  destruct (_create_error_response env (request_id request) (id (params request))
              timeout_text tasks) as [[resp|e] tasks']; reflexivity.
Qed.

Lemma invoke_raised env request tasks q e :
  _get_user_query (params request) = Ok q ->
  agent_invoke env q (sessionId (params request)) = Raise e ->
  is_timeout e = false ->
  _invoke env request tasks
  = _create_error_response env (request_id request) (id (params request))
      ("Error invoking agent: " ++ exn_str e) tasks.
Proof.
  intros Hq Ha Ht. unfold _invoke, try_except at 1 2, bind at 1 2, lift.
  rewrite Hq, Ha, Ht. reflexivity.
Qed.

Lemma invoke_no_query env request tasks e :
  _get_user_query (params request) = Raise e ->
  _invoke env request tasks = (Raise e, tasks).
Proof.
  intros Hq. unfold _invoke, bind, lift. rewrite Hq. reflexivity.
Qed.

(** *** Classification *)

Lemma reserialize_json_data v :
  json_data v = true -> rbind (Json.dumps v) json_loads = Ok v.
Proof.
  intros Hd. destruct (loads_dumps v Hd) as (t & Hdump & Hload).
  rewrite Hdump. cbn [rbind]. unfold json_loads. rewrite Hload. reflexivity.
Qed.

Lemma classify_container v :
  json_data v = true -> Py.is_dict v || Py.is_list v = true ->
  classify v = Ok [DataPart v].
Proof.
  intros Hd Hc. unfold classify.
  destruct v; try discriminate Hc; rewrite (reserialize_json_data _ Hd); reflexivity.
Qed.

Lemma classify_plain s :
  startswith s "{" = false -> startswith s "[" = false ->
  classify (PStr s) = Ok [TextPart s].
Proof. intros H1 H2. unfold classify. rewrite H1, H2. reflexivity. Qed.

Lemma classify_structured_string s :
  startswith s "{" || startswith s "[" = true ->
  classify (PStr s)
  = Ok [DataPart match Json.loads s with Some v => v | None => PStr s end].
Proof.
  intros H. unfold classify. rewrite H.
  destruct (Json.loads s) as [v|] eqn:E.
  - assert (Hl : json_loads s = Ok v) by (unfold json_loads; rewrite E; reflexivity).
    rewrite !Hl. reflexivity.
  - assert (Hl : json_loads s = Raise (JSONDecodeError "Expecting value"))
      by (unfold json_loads; rewrite E; reflexivity).
    rewrite !Hl, !(reserialize_json_data (PStr s) eq_refl). reflexivity.
Qed.

(** The classifier raises for no string, dict or list. *)
Lemma classify_total r :
  str_dict_or_list r -> exists ps, classify r = Ok ps.
Proof.
  assert (Hre : forall v, (exists ps, rbind (rbind (Json.dumps v) json_loads)
                                         (fun j => Ok [DataPart j]) = Ok ps)
                \/ exists e, rbind (rbind (Json.dumps v) json_loads)
                               (fun j => Ok [DataPart j]) = Raise e
                             /\ is_decode_or_type_error e = true).
  { intros v. destruct (Json.dumps v) as [t|e] eqn:E; cbn [rbind].
    - unfold json_loads. destruct (Json.loads t); cbn [rbind]; eauto.
    - destruct (dumps_raises_type_error _ _ E) as [m ->]. right. eauto. }
  intros Hr. destruct r; try contradiction.
  - destruct (startswith s "{" || startswith s "[") eqn:E.
    + rewrite (classify_structured_string _ E). eauto.
    + apply orb_false_iff in E as [E1 E2]. rewrite (classify_plain _ E1 E2). eauto.
  - unfold classify. destruct (Hre (PList l)) as [[ps ->] | (e & -> & ->)]; eauto.
  - unfold classify. destruct (Hre (PDict d)) as [[ps ->] | (e & -> & ->)]; eauto.
Qed.

(** C6. Classification law: a dict of JSON data is classified as a single
    [DataPart] whose data is the dict itself, since [json.loads] reads back
    what [json.dumps] writes; a string that begins neither with a brace nor
    with a bracket is classified as a single [TextPart] with the same
    text. *)
Theorem classification_law (d : list (pykey * pyval)) (s : string) :
  json_data (PDict d) = true ->
  startswith s "{" = false ->
  startswith s "[" = false ->
  (exists t, Json.dumps (PDict d) = Ok t /\ Json.loads t = Some (PDict d))
  /\ classify (PDict d) = Ok [DataPart (PDict d)]
  /\ classify (PStr s) = Ok [TextPart s].
Proof.
  intros Hd H1 H2. split; [apply loads_dumps, Hd|]. split.
  - apply classify_container; [exact Hd | reflexivity].
  - apply classify_plain; assumption.
Qed.

Lemma classification_law_witness :
  classify (PDict [(KStr "balance", PFloat "1.5"); (KStr "unit", PStr "ETH");
                   (KStr "block", PInt 15); (KStr "pending", PBool false);
                   (KStr "memo", PNone)])
  = Ok [DataPart (PDict [(KStr "balance", PFloat "1.5"); (KStr "unit", PStr "ETH");
                         (KStr "block", PInt 15); (KStr "pending", PBool false);
                         (KStr "memo", PNone)])]
  /\ classify (PStr "Balance: 1.5 ETH") = Ok [TextPart "Balance: 1.5 ETH"].
Proof.
  exact (proj2 (classification_law
                  [(KStr "balance", PFloat "1.5"); (KStr "unit", PStr "ETH");
                   (KStr "block", PInt 15); (KStr "pending", PBool false);
                   (KStr "memo", PNone)]
                  "Balance: 1.5 ETH" eq_refl eq_refl eq_refl)).
Defined.

(** The law stops at the keys: [json.dumps] writes a key that is an int
    as a string, and the decoder reads back a string. *)
Lemma int_keys_are_coerced :
  classify (PDict [(KInt 1, PStr "a")]) = Ok [DataPart (PDict [(KStr "1", PStr "a")])].
Proof. reflexivity. Qed.

(** C7. What the code does with a string that begins with a brace or a
    bracket and is not JSON: the second attempt encodes the string as a
    JSON string literal and reads it back, which cannot fail, so the
    result is a [DataPart] holding the string, not a [TextPart]. *)
Theorem unparseable_string_becomes_data (s : string) :
  startswith s "{" || startswith s "[" = true ->
  Json.loads s = None ->
  classify (PStr s) = Ok [DataPart (PStr s)].
Proof.
  intros H Hl. rewrite (classify_structured_string _ H), Hl. reflexivity.
Qed.

Lemma unparseable_string_becomes_data_witness :
  classify (PStr "{not json") = Ok [DataPart (PStr "{not json")].
Proof.
  exact (unparseable_string_becomes_data "{not json" eq_refl eq_refl).
Defined.

(** *** The pipeline *)

Lemma classify_raises_not_timeout r e :
  classify r = Raise e -> is_timeout e = false.
Proof.
  intros H.
  assert (Ht : str_dict_or_list r -> False).
  { intros Hr. destruct (classify_total r Hr) as [ps Hps]. congruence. }
  destruct r; try (exfalso; apply Ht; exact I); cbn in H; injection H as <-; reflexivity.
Qed.

Lemma invoke_none env request tasks q :
  _get_user_query (params request) = Ok q ->
  agent_invoke env q (sessionId (params request)) = Ok PNone ->
  _invoke env request tasks
  = _create_error_response env (request_id request) (id (params request))
      "Error invoking agent: No response received from agent" tasks.
Proof.
  intros Hq Ha. unfold _invoke, try_except at 1 2, bind at 1 2, lift.
  rewrite Hq, Ha. reflexivity.
Qed.

Lemma invoke_unclassified env request tasks q r e :
  _get_user_query (params request) = Ok q ->
  agent_invoke env q (sessionId (params request)) = Ok r ->
  r <> PNone ->
  classify r = Raise e ->
  _invoke env request tasks
  = _create_error_response env (request_id request) (id (params request))
      ("Error invoking agent: " ++ exn_str e) tasks.
Proof.
  intros Hq Ha Hr Hc. pose proof (classify_raises_not_timeout _ _ Hc) as Ht.
  unfold _invoke, try_except at 1 2, bind at 1 2, lift. rewrite Hq, Ha.
  destruct r; try congruence; unfold bind, lift; rewrite Hc, Ht; reflexivity.
Qed.

Lemma invoke_task_missing env request tasks q r ps :
  _get_user_query (params request) = Ok q ->
  agent_invoke env q (sessionId (params request)) = Ok r ->
  r <> PNone ->
  classify r = Ok ps ->
  tasks !! id (params request) = None ->
  _invoke env request tasks
  = _create_error_response env (request_id request) (id (params request))
      ("Error invoking agent: Task " ++ id (params request) ++ " not found") tasks.
Proof.
  intros Hq Ha Hr Hc Ht.
  unfold _invoke, try_except at 1 2, bind at 1 2, lift. rewrite Hq, Ha.
  destruct r; try congruence; unfold bind, lift; rewrite Hc;
    rewrite (update_store_missing _ _ _ _ Ht); reflexivity.
Qed.

Lemma create_error_response_reported env request tasks msg :
  error_reported request tasks false msg
    (_create_error_response env (request_id request) (id (params request))
       ("Error invoking agent: " ++ msg) tasks).
Proof.
  destruct (create_error_response_cases env (request_id request) (id (params request))
              ("Error invoking agent: " ++ msg) tasks) as [(task & Ht & ->) | ->].
  - left. exists task. auto.
  - right. reflexivity.
Qed.

(** When [_create_error_response] raises, it raises for every text. *)
Lemma create_error_response_raises env rid tid msg msg' tasks e tasks' :
  _create_error_response env rid tid msg tasks = (Raise e, tasks') ->
  _create_error_response env rid tid msg' tasks = (Raise (ValueError msg'), tasks).
Proof.
  unfold _create_error_response, try_except, bind, asyncio_run.
  destruct (loop_running env); [reflexivity|].
  destruct (tasks !! tid) as [task|] eqn:E.
  - rewrite (update_store_found _ _ _ _ _ E). discriminate.
  - rewrite !(update_store_missing _ _ _ _ E). reflexivity.
Qed.

(** Every run of [_invoke] on a request whose first part is a text. *)
Lemma invoke_cases env request tasks q :
  _get_user_query (params request) = Ok q ->
  match pipeline_error env q (sessionId (params request)) with
  | Some (direct, msg) =>
      error_reported request tasks direct msg (_invoke env request tasks)
  | None =>
      exists r ps,
        agent_invoke env q (sessionId (params request)) = Ok r
        /\ classify r = Ok ps
        /\ (responded request tasks (task_state_of r) ps
              (_invoke env request tasks)
            \/ (tasks !! id (params request) = None
                /\ error_reported request tasks false
                     ("Task " ++ id (params request) ++ " not found")
                     (_invoke env request tasks)))
  end.
Proof.
  intros Hq. unfold pipeline_error.
  destruct (agent_invoke env q (sessionId (params request))) as [r|e] eqn:Ha.
  - assert (Hcases : r = PNone \/ r <> PNone) by (destruct r; auto; right; discriminate).
    destruct Hcases as [-> | Hr].
    { rewrite (invoke_none _ _ _ _ Hq Ha). apply create_error_response_reported. }
    assert (Hgoal :
      match match classify r with
            | Ok _ => None
            | Raise e => Some (false, exn_str e)
            end with
      | Some (direct, msg) =>
          error_reported request tasks direct msg (_invoke env request tasks)
      | None =>
          exists r0 ps,
            Ok r = Ok r0
            /\ classify r0 = Ok ps
            /\ (responded request tasks (task_state_of r0) ps
                  (_invoke env request tasks)
                \/ (tasks !! id (params request) = None
                    /\ error_reported request tasks false
                         ("Task " ++ id (params request) ++ " not found")
                         (_invoke env request tasks)))
      end).
    { destruct (classify r) as [ps|e] eqn:Hc.
      - exists r, ps. split; [reflexivity|]. split; [exact Hc|].
        destruct (tasks !! id (params request)) as [task|] eqn:Ht.
        + left. exists task. split; [exact Ht|].
          apply (invoke_returned _ _ _ _ _ _ _ Hq Ha Hr Hc Ht).
        + right. split; [reflexivity|].
          rewrite (invoke_task_missing _ _ _ _ _ _ Hq Ha Hr Hc Ht).
          apply create_error_response_reported.
      - rewrite (invoke_unclassified _ _ _ _ _ _ Hq Ha Hr Hc).
        apply create_error_response_reported. }
    destruct r; try exact Hgoal. congruence.
  - destruct (is_timeout e) eqn:Ht.
    + destruct e; try discriminate Ht. rewrite (invoke_timeout _ _ _ _ _ Hq Ha).
      destruct (_create_error_response env (request_id request)
                  (id (params request)) timeout_text tasks)
        as [[resp|e] tasks'] eqn:Hc.
      * destruct (create_error_response_cases env (request_id request)
                    (id (params request)) timeout_text tasks)
          as [(task & Hl & Heq) | Heq]; [|congruence].
        left. exists task. split; [exact Hl|]. rewrite <- Hc. exact Heq.
      * pose proof (create_error_response_raises _ _ _ _ timeout_text _ _ _ Hc) as H1.
        assert (e = ValueError timeout_text /\ tasks' = tasks) as [-> ->]
          by (split; congruence).
        cbn [exn_str].
        rewrite (create_error_response_raises _ _ _ _
                   ("Error invoking agent: " ++ timeout_text) _ _ _ Hc).
        right. reflexivity.
    + rewrite (invoke_raised _ _ _ _ _ Hq Ha Ht). apply create_error_response_reported.
Qed.

(** Every run of [on_send_task] on a validated request whose first part is
    a text: the task is in the store once it is upserted. *)
Lemma on_send_task_cases env request tasks q :
  validated env request ->
  _get_user_query (params request) = Ok q ->
  match pipeline_error env q (sessionId (params request)) with
  | Some (direct, msg) =>
      error_reported request (upserted env (params request) tasks) direct msg
        (on_send_task env request tasks)
  | None =>
      exists r ps,
        agent_invoke env q (sessionId (params request)) = Ok r
        /\ classify r = Ok ps
        /\ responded request (upserted env (params request) tasks)
             (task_state_of r) ps
             (on_send_task env request tasks)
  end.
Proof.
  intros Hv Hq. rewrite (on_send_task_validated _ _ _ Hv).
  pose proof (invoke_cases env request (upserted env (params request) tasks) q Hq) as H.
  destruct (pipeline_error env q (sessionId (params request))) as [[direct msg]|];
    [exact H|].
  destruct H as (r & ps & Ha & Hc & [H | [Hn _]]); [eauto|].
  destruct (upserted_lookup env (params request) tasks) as (task & Ht & _). congruence.
Qed.

(** *** The claims on [on_send_task] *)

(** C1. What the code does when the agent does not answer within the
    bound, on the server (a running event loop): [asyncio.run] refuses to
    start the store update, [_create_error_response] raises [ValueError]
    with the timeout text, the handler of [Exception] catches it and calls
    [_create_error_response] again, and its [ValueError] escapes
    [on_send_task]. No response is returned and the task is not updated. *)
Theorem timeout_escapes_as_value_error env request tasks q m :
  loop_running env = true ->
  validated env request ->
  _get_user_query (params request) = Ok q ->
  agent_invoke env q (sessionId (params request)) = Raise (TimeoutError m) ->
  on_send_task env request tasks
  = (Raise (ValueError
              "Error invoking agent: Timeout waiting for response from blockchain after 45 seconds"),
     upserted env (params request) tasks).
Proof.
  intros Hl Hv Hq Ha.
  rewrite (on_send_task_validated _ _ _ Hv), (invoke_timeout _ _ _ _ _ Hq Ha).
  rewrite (create_error_response_running _ _ _ _ _ Hl).
  rewrite (create_error_response_running _ _ _ _ _ Hl). reflexivity.
Qed.

Lemma timeout_escapes_as_value_error_witness :
  on_send_task (server_env never_in_time) balance_request ∅
  = (Raise (ValueError
              "Error invoking agent: Timeout waiting for response from blockchain after 45 seconds"),
     {[ "task-1" := fresh_task ]}).
Proof.
  exact (timeout_escapes_as_value_error (server_env never_in_time) balance_request ∅
           "What is my balance?" EmptyString eq_refl eq_refl eq_refl eq_refl).
Defined.

(** C2, as the code has it. For a validated request: an exception of the
    query extraction (step 1, before the [try]) escapes [on_send_task] as
    it is; an exception of the agent call (timeout included) or of the
    classification is caught and handed to [_create_error_response], so
    that the outcome is either a response around the task, completed with
    the error text as its sole part and artifact, or the [ValueError]
    with the error text that [_create_error_response] raises when its
    store update does not go through. *)
Theorem pipeline_exceptions env request tasks :
  validated env request ->
  match _get_user_query (params request) with
  | Raise e =>
      on_send_task env request tasks = (Raise e, upserted env (params request) tasks)
  | Ok q =>
      forall direct msg,
        pipeline_error env q (sessionId (params request)) = Some (direct, msg) ->
        error_reported request (upserted env (params request) tasks) direct msg
          (on_send_task env request tasks)
  end.
Proof.
  intros Hv. destruct (_get_user_query (params request)) as [q|e] eqn:Hq.
  - intros direct msg He. pose proof (on_send_task_cases env request tasks q Hv Hq) as H.
    rewrite He in H. exact H.
  - rewrite (on_send_task_validated _ _ _ Hv). apply invoke_no_query, Hq.
Qed.

Lemma pipeline_exceptions_witness :
  error_reported balance_request {[ "task-1" := fresh_task ]} false "connection lost"
    (on_send_task
       (server_env (fun _ _ => Raise (OtherError "ConnectionError" "connection lost")))
       balance_request ∅).
Proof.
  exact (pipeline_exceptions
           (server_env (fun _ _ => Raise (OtherError "ConnectionError" "connection lost")))
           balance_request ∅ eq_refl false "connection lost" eq_refl).
Defined.

(** C2 as stated fails: the [ValueError] of the query extraction escapes
    [on_send_task], although the task is in the store and no store update
    was attempted. *)
Lemma query_exception_escapes :
  on_send_task (server_env (answers (PStr "ok"))) data_request ∅
  = (Raise (ValueError "Only text parts are supported"), {[ "task-1" := fresh_task ]})
  /\ ({[ "task-1" := fresh_task ]} : gmap string Task) !! "task-1" = Some fresh_task.
Proof. split; reflexivity. Qed.

(** C3, as the code has it. For a validated request whose first part is
    not a text part, [on_send_task] raises [ValueError] instead of
    returning a response, after the upsert: the task of the request is
    created when it was absent, and no record that was in the store is
    changed. *)
Theorem non_text_part_raises env request tasks p rest :
  validated env request ->
  parts (params_message (params request)) = p :: rest ->
  (forall t, p <> TextPart t) ->
  on_send_task env request tasks
  = (Raise (ValueError "Only text parts are supported"),
     upserted env (params request) tasks)
  /\ (forall tid task, tasks !! tid = Some task ->
                       upserted env (params request) tasks !! tid = Some task)
  /\ (tasks !! id (params request) = None ->
      upserted env (params request) tasks
      = <[id (params request) := {| task_id := id (params request);
                                    status := fresh_status env;
                                    artifacts := None |}]> tasks).
Proof.
  intros Hv Hp Hn. split; [|split].
  - rewrite (on_send_task_validated _ _ _ Hv). apply invoke_no_query.
    unfold _get_user_query. rewrite Hp. destruct p as [t | f | d]; [|reflexivity..].
    exfalso. apply (Hn t). reflexivity.
  - intros tid task. apply upserted_keeps.
  - intros Hnone. rewrite upserted_eq, Hnone. reflexivity.
Qed.

Lemma non_text_part_raises_witness :
  on_send_task (server_env (answers (PStr "ok"))) data_request ∅
  = (Raise (ValueError "Only text parts are supported"), {[ "task-1" := fresh_task ]}).
Proof.
  exact (proj1 (non_text_part_raises (server_env (answers (PStr "ok"))) data_request ∅
                  (DataPart (PDict [(KStr "amount", PInt 1)])) []
                  eq_refl eq_refl ltac:(discriminate))).
Defined.

(** C3 as stated fails: no response is returned, and the store is not what
    it was, the task of the request has been created. *)
Lemma non_text_part_changes_store :
  fst (on_send_task (server_env (answers (PStr "ok"))) data_request ∅)
  = Raise (ValueError "Only text parts are supported")
  /\ snd (on_send_task (server_env (answers (PStr "ok"))) data_request ∅) !! "task-1"
     = Some fresh_task
  /\ snd (on_send_task (server_env (answers (PStr "ok"))) data_request ∅) <> ∅.
Proof.
  split; [reflexivity|]. split; [reflexivity|].
  intros H. apply (f_equal (fun m : gmap string Task => m !! "task-1")) in H.
  discriminate H.
Qed.

(** Every run of [on_send_task]: the error response of the validation
    and the store as it was, or an exception after the upsert, or a
    response around the task of the request, updated once after the
    upsert. *)
Lemma on_send_task_outcome env request tasks :
  let out := on_send_task env request tasks in
  out = (Ok (new_incompatible_types_error (request_id request)), tasks)
  \/ (exists e, out = (Raise e, upserted env (params request) tasks))
  \/ exists st ps, responded request (upserted env (params request) tasks) st ps out.
Proof.
  cbn zeta.
  destruct (are_modalities_compatible env (acceptedOutputModes (params request))
              SUPPORTED_CONTENT_TYPES) eqn:Hv.
  2: { left. unfold on_send_task, _validate_request. rewrite Hv. reflexivity. }
  right. destruct (_get_user_query (params request)) as [q|e] eqn:Hq.
  - pose proof (on_send_task_cases env request tasks q Hv Hq) as H.
    destruct (pipeline_error env q (sessionId (params request))) as [[direct msg]|].
    + destruct H as [H | H]; [right | left]; eauto.
    + destruct H as (r & ps & _ & _ & H). right. eauto.
  - left. exists e. rewrite (on_send_task_validated _ _ _ Hv).
    apply invoke_no_query, Hq.
Qed.

Lemma responded_lookup request tasks st ps out tid old :
  responded request tasks st ps out ->
  tasks !! tid = Some old ->
  exists new, snd out !! tid = Some new
              /\ artifact_list old `prefix_of` artifact_list new.
Proof.
  intros (task & Ht & ->) Hold. cbn [snd].
  destruct (decide (tid = id (params request))) as [-> | Hne].
  - rewrite lookup_insert_eq. eexists. split; [reflexivity|].
    assert (old = task) as -> by congruence.
    cbn [artifact_list updated artifacts]. apply prefix_app_r. reflexivity.
  - rewrite lookup_insert_ne by congruence. exists old. split; [exact Hold | reflexivity].
Qed.

(** C4. A call of [on_send_task] on an existing task id that returns a
    task: the stored record is the returned one; its artifact list is the
    old list, in order, followed by exactly one new artifact, and its
    status is the one made in this call, from the same parts. Whatever
    the outcome of a call, for every record of the store the old artifact
    list is a prefix of the new one: nothing is removed or replaced; and
    [on_send_task_subscribe] leaves every record as it is. *)
Theorem artifacts_only_grow env request tasks old resp tasks' task :
  tasks !! id (params request) = Some old ->
  on_send_task env request tasks = (Ok resp, tasks') ->
  result resp = Some task ->
  (tasks' !! id (params request) = Some task
   /\ exists st ps,
       artifact_list task = (artifact_list old ++ [{| artifact_parts := ps |}])%list
       /\ status task = agent_status st ps)
  /\ (forall request' tid before,
        tasks !! tid = Some before ->
        exists after,
          snd (on_send_task env request' tasks) !! tid = Some after
          /\ artifact_list before `prefix_of` artifact_list after)
  /\ (forall request' tid before,
        tasks !! tid = Some before ->
        snd (on_send_task_subscribe env request' tasks) !! tid = Some before).
Proof.
  intros Hold Hrun Hres. split; [|split].
  - destruct (on_send_task_outcome env request tasks)
      as [H | [[e H] | (st & ps & t & Ht & H)]]; rewrite Hrun in H.
    + injection H as -> ->. discriminate Hres.
    + discriminate H.
    + injection H as -> ->. cbn [result task_response] in Hres. injection Hres as <-.
      rewrite (upserted_keeps _ _ _ _ _ Hold) in Ht. injection Ht as <-.
      split; [apply lookup_insert_eq|]. exists st, ps. split; reflexivity.
  - intros request' tid before Hb.
    destruct (on_send_task_outcome env request' tasks) as [H | [[e H] | (st & ps & H)]].
    + rewrite H. exists before. split; [exact Hb | reflexivity].
    + rewrite H. exists before. split; [apply upserted_keeps, Hb | reflexivity].
    + apply (responded_lookup _ _ _ _ _ _ _ H), upserted_keeps, Hb.
  - intros request' tid before Hb. unfold on_send_task_subscribe.
    destruct (_validate_request env request'); [exact Hb|].
    unfold bind, ret.
    destruct (upsert_task env (params request') tasks) as [[t|e] tasks1] eqn:Hu;
      cbn [snd]; change tasks1 with (snd (Ok t, tasks1)) || change tasks1 with (snd (@Raise Task e, tasks1));
      rewrite <- Hu; apply (upserted_keeps env (params request') tasks tid before Hb).
Qed.

Lemma artifacts_only_grow_witness :
  (<["task-1" := balance_task]> {[ "task-1" := fresh_task ]} : gmap string Task)
    !! "task-1" = Some balance_task
  /\ exists st ps,
      artifact_list balance_task
      = (artifact_list fresh_task ++ [{| artifact_parts := ps |}])%list
      /\ status balance_task = agent_status st ps.
Proof.
  exact (proj1 (artifacts_only_grow
                  (server_env (answers (PStr "Balance: 1.5 ETH"))) balance_request
                  {[ "task-1" := fresh_task ]} fresh_task
                  (task_response "request-1" balance_task)
                  (<["task-1" := balance_task]> {[ "task-1" := fresh_task ]})
                  balance_task eq_refl eq_refl eq_refl)).
Defined.

(** C5. For a validated request with a text query and an agent that
    returns a string, a dict or a list, [on_send_task] returns the task
    with the parts of the classification; its state is [INPUT_REQUIRED]
    exactly when the string form of the result contains [MISSING_INFO:],
    and [COMPLETED] otherwise. The result [Balance: 1.5 ETH] gives a
    completed task whose part is the [TextPart] with exactly that text. *)
Theorem sentinel_decides_state env request tasks q r :
  validated env request ->
  _get_user_query (params request) = Ok q ->
  agent_invoke env q (sessionId (params request)) = Ok r ->
  str_dict_or_list r ->
  exists task ps,
    fst (on_send_task env request tasks) = Ok (task_response (request_id request) task)
    /\ snd (on_send_task env request tasks) !! id (params request) = Some task
    /\ classify r = Ok ps
    /\ status task = agent_status (state (status task)) ps
    /\ (state (status task) = INPUT_REQUIRED
        <-> contains "MISSING_INFO:" (py_str r) = true)
    /\ (state (status task) = COMPLETED
        <-> contains "MISSING_INFO:" (py_str r) = false)
    /\ (r = PStr "Balance: 1.5 ETH" ->
        state (status task) = COMPLETED /\ ps = [TextPart "Balance: 1.5 ETH"]).
Proof.
  intros Hv Hq Ha Hr. destruct (classify_total r Hr) as [ps Hc].
  pose proof (on_send_task_cases env request tasks q Hv Hq) as H.
  unfold pipeline_error in H. rewrite Ha, Hc in H.
  assert (H' : exists r0 ps0,
             Ok r = Ok r0 /\ classify r0 = Ok ps0
             /\ responded request (upserted env (params request) tasks)
                  (task_state_of r0) ps0 (on_send_task env request tasks))
    by (destruct r; try contradiction; exact H).
  clear H. destruct H' as (r0 & ps0 & [= <-] & Hc0 & t & Ht & Hout).
  assert (ps0 = ps) as -> by congruence.
  exists (updated t (agent_status (task_state_of r) ps) [{| artifact_parts := ps |}]), ps.
  rewrite Hout. cbn [fst snd]. split; [reflexivity|].
  split; [apply lookup_insert_eq|]. split; [exact Hc|]. split; [reflexivity|].
  cbn [status updated agent_status state]. unfold task_state_of.
  destruct (contains "MISSING_INFO:" (py_str r)) eqn:E.
  - split; [split; intros _; reflexivity|].
    split; [split; intros H; discriminate H|].
    intros ->. vm_compute in E. discriminate E.
  - split; [split; intros H; discriminate H|].
    split; [split; intros _; reflexivity|].
    intros ->. split; [reflexivity|].
    rewrite (classify_plain "Balance: 1.5 ETH" eq_refl eq_refl) in Hc. congruence.
Qed.

Lemma sentinel_decides_state_witness :
  exists task ps,
    fst (on_send_task (server_env (answers (PStr "MISSING_INFO: which address?")))
           balance_request ∅)
    = Ok (task_response "request-1" task)
    /\ snd (on_send_task (server_env (answers (PStr "MISSING_INFO: which address?")))
              balance_request ∅) !! "task-1" = Some task
    /\ classify (PStr "MISSING_INFO: which address?") = Ok ps
    /\ status task = agent_status (state (status task)) ps
    /\ (state (status task) = INPUT_REQUIRED
        <-> contains "MISSING_INFO:" (py_str (PStr "MISSING_INFO: which address?")) = true)
    /\ (state (status task) = COMPLETED
        <-> contains "MISSING_INFO:" (py_str (PStr "MISSING_INFO: which address?")) = false)
    /\ (PStr "MISSING_INFO: which address?" = PStr "Balance: 1.5 ETH" ->
        state (status task) = COMPLETED /\ ps = [TextPart "Balance: 1.5 ETH"]).
Proof.
  exact (sentinel_decides_state
           (server_env (answers (PStr "MISSING_INFO: which address?")))
           balance_request ∅ "What is my balance?" (PStr "MISSING_INFO: which address?")
           eq_refl eq_refl eq_refl I).
Defined.

End TaskManagerFacts.

(* ===================================================================== *)
(** ** Properties of [Web3Agent.invoke] *)
(* ===================================================================== *)

Module AgentFacts.
Import Text Py Agent Props PyFacts JsonFacts.

(** *** Event streams *)

Lemma consume_parts_tool ps payload seen :
  first_tool_response ps = Some payload ->
  consume_parts ps seen = Return (serialize_response payload).
Proof.
  revert seen. induction ps as [|part ps IH]; intros seen; [discriminate|].
  cbn [first_tool_response consume_parts].
  destruct (function_response part) as [fr|]; [intros [= <-]; reflexivity|].
  intros H. destruct (text part) as [[|c t]|]; apply IH, H.
Qed.

Lemma consume_parts_text ps seen :
  first_tool_response ps = None ->
  consume_parts ps seen
  = Continue (match list.last (omap part_text ps) with
              | Some t => Some t
              | None => seen
              end).
Proof.
  revert seen. induction ps as [|part ps IH]; intros seen; [reflexivity|].
  cbn [first_tool_response consume_parts].
  change (omap part_text (part :: ps))
    with (match part_text part with
          | Some t => t :: omap part_text ps
          | None => omap part_text ps
          end).
  unfold part_text at 1.
  destruct (function_response part) as [fr|]; [discriminate|].
  intros H. destruct (text part) as [[|c t]|]; rewrite (IH _ H); try reflexivity.
  rewrite last_cons. destruct (list.last (omap part_text ps)); reflexivity.
Qed.

Lemma consume_event_parts event rest seen :
  consume_events (event :: rest) seen
  = match consume_parts (event_parts event) seen with
    | Return s => Return s
    | Continue seen' => consume_events rest seen'
    end.
Proof.
  cbn [consume_events]. unfold event_parts.
  destruct (content event) as [[[[|p ps]|]]|]; reflexivity.
Qed.

Lemma consume_events_text evs seen :
  Forall (fun event => event_tool_response event = None) evs ->
  consume_events evs seen
  = Continue (match list.last (texts_of evs) with
              | Some t => Some t
              | None => seen
              end).
Proof.
  intros H. revert seen. induction H as [|event evs He Hevs IH]; intros seen;
    [reflexivity|].
  rewrite consume_event_parts, (consume_parts_text _ _ He), IH.
  cbn [texts_of flat_map]. fold (texts_of evs). rewrite last_app.
  destruct (list.last (texts_of evs)); reflexivity.
Qed.

Lemma consume_events_tool pre event post payload seen :
  Forall (fun event => event_tool_response event = None) pre ->
  event_tool_response event = Some payload ->
  consume_events (pre ++ event :: post) seen = Return (serialize_response payload).
Proof.
  intros H Hev. revert seen. induction H as [|e pre He Hpre IH]; intros seen.
  - cbn [app]. rewrite consume_event_parts, (consume_parts_tool _ _ _ Hev). reflexivity.
  - cbn [app]. rewrite consume_event_parts, (consume_parts_text _ _ He). apply IH.
Qed.

Lemma invoke_initialized run_async self query session_id :
  initialized self ->
  fst (invoke run_async self query session_id)
  = match consume (run_async session_id query) with
    | Ok s => Ok s
    | Raise (TimeoutError _) => Ok "Query timed out"
    | Raise e => Ok ("Error: " ++ exn_str e)
    end.
Proof.
  intros [[name Hn] [sessions Hs]]. unfold invoke. rewrite Hn, Hs.
  destruct (consume (run_async session_id query)) as [s|[]]; reflexivity.
Qed.

(** C8. The first event that carries a tool response decides the return
    value of [invoke], whatever follows it in the stream: the payload,
    written by [json.dumps] when it is a dict or a list, its string form
    when it is a string. In particular a text event followed by a
    tool-response event gives the payload, not the text. When the stream
    ends without tool response, the last text observed is returned, and
    [No usable response received] when there was none. *)
Theorem first_tool_response_wins run_async self query session_id
        pre event post ending payload :
  initialized self ->
  Forall (fun e => event_tool_response e = None) pre ->
  event_tool_response event = Some payload ->
  (run_async session_id query = {| events := pre ++ event :: post; failure := ending |} ->
   fst (invoke run_async self query session_id) = Ok (serialize_response payload))
  /\ (forall t, Json.dumps payload = Ok t -> Py.is_dict payload || Py.is_list payload = true ->
                serialize_response payload = t)
  /\ (forall s, payload = PStr s -> serialize_response payload = s)
  /\ (forall t,
        run_async session_id query
        = {| events := [text_event t; tool_event payload]; failure := None |} ->
        fst (invoke run_async self query session_id) = Ok (serialize_response payload))
  /\ (run_async session_id query = {| events := pre; failure := None |} ->
      fst (invoke run_async self query session_id)
      = Ok (match list.last (texts_of pre) with
            | Some t => t
            | None => "No usable response received"
            end)).
Proof.
  intros Hi Hpre Hev. repeat split.
  - intros Hs. rewrite (invoke_initialized _ _ _ _ Hi), Hs. unfold consume. cbn [events].
    rewrite (consume_events_tool _ _ _ _ _ Hpre Hev). reflexivity.
  - intros t Hd Hc. unfold serialize_response.
    destruct payload; try discriminate Hc; rewrite Hd; reflexivity.
  - intros s ->. reflexivity.
  - intros t Hs. rewrite (invoke_initialized _ _ _ _ Hi), Hs. unfold consume. cbn [events].
    destruct t; reflexivity.
  - intros Hs. rewrite (invoke_initialized _ _ _ _ Hi), Hs. unfold consume.
    cbn [events failure]. rewrite (consume_events_text _ _ Hpre).
    destruct (list.last (texts_of pre)); reflexivity.
Qed.

Lemma first_tool_response_wins_witness :
  fst (invoke (fun _ _ => {| events := [text_event "Checking the balance";
                                         tool_event (PDict [(KStr "balance", PStr "1.5 ETH")]);
                                         text_event "Your balance is 1.5 ETH"];
                             failure := None |})
         ready_agent "What is my balance?" "session-1")
  = Ok (serialize_response (PDict [(KStr "balance", PStr "1.5 ETH")])).
Proof.
  refine (proj1 (first_tool_response_wins _ ready_agent "What is my balance?" "session-1"
                   [text_event "Checking the balance"]
                   (tool_event (PDict [(KStr "balance", PStr "1.5 ETH")]))
                   [text_event "Your balance is 1.5 ETH"] None
                   (PDict [(KStr "balance", PStr "1.5 ETH")]) _ _ eq_refl) eq_refl).
  - split; eexists; reflexivity.
  - repeat constructor.
Defined.

Lemma consume_stream evs seen :
  consume_events evs seen
  = match stream_tool_response evs with
    | Some payload => Return (serialize_response payload)
    | None => Continue (match list.last (texts_of evs) with
                        | Some t => Some t
                        | None => seen
                        end)
    end.
Proof.
  revert seen. induction evs as [|event evs IH]; intros seen; [reflexivity|].
  rewrite consume_event_parts. cbn [stream_tool_response].
  destruct (event_tool_response event) as [payload|] eqn:He.
  - rewrite (consume_parts_tool _ _ _ He). reflexivity.
  - rewrite (consume_parts_text _ _ He), IH.
    destruct (stream_tool_response evs); [reflexivity|].
    cbn [texts_of flat_map]. fold (texts_of evs). rewrite last_app.
    destruct (list.last (texts_of evs)); reflexivity.
Qed.

Lemma serialize_response_failure payload e :
  structured payload = true -> Json.dumps payload = Raise e ->
  serialize_response payload = "Response: " ++ py_str payload.
Proof.
  intros Hs Hd. unfold serialize_response.
  destruct payload as [ | | | | | | | cls [fields|] [d|] ostr]; try discriminate Hs;
    rewrite Hd; reflexivity.
Qed.

(** C10, as the code has it. An initialized agent always gets a string
    from [invoke]. With a tool response in the stream, a payload that
    [json.dumps] cannot write gives its string form behind [Response: ].
    With no tool response before the stream raises, an
    [asyncio.TimeoutError] gives [Query timed out], and any other
    exception its message behind [Error: ]. *)
Theorem invoke_returns_a_string run_async self query session_id :
  initialized self ->
  exists s,
    fst (invoke run_async self query session_id) = Ok s
    /\ (forall payload e,
          stream_tool_response (events (run_async session_id query)) = Some payload ->
          structured payload = true ->
          Json.dumps payload = Raise e ->
          s = "Response: " ++ py_str payload)
    /\ (forall e,
          stream_tool_response (events (run_async session_id query)) = None ->
          failure (run_async session_id query) = Some e ->
          s = match e with
              | TimeoutError _ => "Query timed out"
              | _ => "Error: " ++ exn_str e
              end).
Proof.
  intros Hi. rewrite (invoke_initialized _ _ _ _ Hi). unfold consume.
  rewrite consume_stream.
  destruct (stream_tool_response (events (run_async session_id query)))
    as [payload|] eqn:Hp.
  - eexists. split; [reflexivity|]. split; [|discriminate].
    intros p e [= <-] Hs Hd. apply (serialize_response_failure _ _ Hs Hd).
  - destruct (failure (run_async session_id query)) as [e|] eqn:Hf.
    + exists (match e with
              | TimeoutError _ => "Query timed out"
              | _ => "Error: " ++ exn_str e
              end).
      split; [destruct e; reflexivity|]. split; [discriminate|].
      intros e' _ [= <-]. reflexivity.
    + destruct (list.last (texts_of (events (run_async session_id query))));
        eexists; (split; [reflexivity|]); split; discriminate.
Qed.

Lemma invoke_returns_a_string_witness :
  exists s,
    fst (invoke (failing_stream (OtherError "ConnectionError" "connection lost"))
           ready_agent "What is my balance?" "session-1") = Ok s
    /\ (forall payload e,
          stream_tool_response
            (events (failing_stream (OtherError "ConnectionError" "connection lost")
                       "session-1" "What is my balance?")) = Some payload ->
          structured payload = true ->
          Json.dumps payload = Raise e ->
          s = "Response: " ++ py_str payload)
    /\ (forall e,
          stream_tool_response
            (events (failing_stream (OtherError "ConnectionError" "connection lost")
                       "session-1" "What is my balance?")) = None ->
          failure (failing_stream (OtherError "ConnectionError" "connection lost")
                     "session-1" "What is my balance?") = Some e ->
          s = match e with
              | TimeoutError _ => "Query timed out"
              | _ => "Error: " ++ exn_str e
              end).
Proof.
  refine (invoke_returns_a_string
            (failing_stream (OtherError "ConnectionError" "connection lost"))
            ready_agent "What is my balance?" "session-1" _).
  split; eexists; reflexivity.
Defined.

(** C10 as stated fails: an [asyncio.TimeoutError] raised while the
    stream is consumed has a handler of its own, and what [invoke] returns
    for it does not begin with [Error: ]. *)
Lemma timeout_is_not_prefixed :
  fst (invoke (failing_stream (TimeoutError EmptyString))
         ready_agent "What is my balance?" "session-1") = Ok "Query timed out"
  /\ startswith "Query timed out" "Error: " = false.
Proof. split; reflexivity. Qed.

End AgentFacts.

(* ===================================================================== *)
(** ** Properties of the schema fixers *)
(* ===================================================================== *)

Module SchemaFacts.
Import Text Py Schema Props PyFacts.

(** *** Schemas *)

Lemma dict_get_set_eq k v d : dict_get k (dict_set k v d) = Some v.
Proof.
  induction d as [|[[k'|z|c r] w] d IH]; cbn [dict_set dict_get].
  - rewrite String.eqb_refl. reflexivity.
  - destruct (String.eqb k k') eqn:E; cbn [dict_get]; rewrite E; [reflexivity | exact IH].
  - exact IH.
  - exact IH.
Qed.

Lemma dict_get_set_ne k k' v d :
  k <> k' -> dict_get k' (dict_set k v d) = dict_get k' d.
Proof.
  intros Hne. induction d as [|[[k2|z|c r] w] d IH]; cbn [dict_set dict_get].
  - destruct (String.eqb k' k) eqn:E; [|reflexivity].
    apply String.eqb_eq in E. congruence.
  - destruct (String.eqb k k2) eqn:E; cbn [dict_get].
    + apply String.eqb_eq in E. subst k2.
      destruct (String.eqb k' k) eqn:E'; [|reflexivity].
      apply String.eqb_eq in E'. congruence.
    + rewrite IH. reflexivity.
  - exact IH.
  - exact IH.
Qed.

Lemma dict_has_get k d : dict_has k d = match dict_get k d with Some _ => true | None => false end.
Proof.
  induction d as [|[[k'|z|c r] w] d IH]; cbn [dict_has dict_get]; try exact IH.
  - reflexivity.
  - destruct (String.eqb k k'); [reflexivity | exact IH].
Qed.

Lemma dict_has_set k k' v d :
  dict_has k' (dict_set k v d) = String.eqb k' k || dict_has k' d.
Proof.
  rewrite !dict_has_get. destruct (String.eqb k' k) eqn:E.
  - apply String.eqb_eq in E. subst k'. rewrite dict_get_set_eq. reflexivity.
  - rewrite dict_get_set_ne; [reflexivity|]. intros ->. rewrite String.eqb_refl in E.
    discriminate.
Qed.

Lemma dict_set_same k v d : dict_get k d = Some v -> dict_set k v d = d.
Proof.
  induction d as [|[[k'|z|c r] w] d IH]; cbn [dict_set dict_get]; [discriminate| |..].
  - destruct (String.eqb k k'); [intros [= ->]; reflexivity|].
    intros H. rewrite (IH H). reflexivity.
  - intros H. rewrite (IH H). reflexivity.
  - intros H. rewrite (IH H). reflexivity.
Qed.

Lemma add_items_normal d : array_without_items (add_items d) = false.
Proof.
  unfold add_items. destruct (array_without_items d) eqn:E; [|exact E].
  unfold array_without_items in *.
  rewrite dict_get_set_ne by discriminate.
  destruct (dict_get "type" d) as [[]|]; try reflexivity.
  rewrite dict_has_set. cbn. apply andb_false_r.
Qed.

Lemma add_items_id d : array_without_items d = false -> add_items d = d.
Proof. unfold add_items. intros ->. reflexivity. Qed.

(** *** Loops over the values of a dict *)

Lemma for_values_inv f d d' :
  for_values f d = Some d' ->
  Forall2 (fun kv kv' => fst kv' = fst kv /\ f (snd kv) = Some (snd kv')) d d'.
Proof.
  unfold for_values. rewrite mapM_Some. intros H.
  induction H as [|[k v] [k' v'] d d' Hx Hl IH]; constructor; [|exact IH].
  cbn [fst snd] in *. destruct (f v) as [y|]; [|discriminate].
  cbn in Hx. injection Hx as <- <-. auto.
Qed.

Lemma for_values_intro f d d' :
  Forall2 (fun kv kv' => fst kv' = fst kv /\ f (snd kv) = Some (snd kv')) d d' ->
  for_values f d = Some d'.
Proof.
  intros H. unfold for_values. rewrite mapM_Some.
  induction H as [|[k v] [k' v'] d d' [Hk Hx] Hl IH]; constructor; [|exact IH].
  cbn [fst snd] in *. rewrite Hx. cbn. subst k'. reflexivity.
Qed.

Lemma for_values_get f d d' k :
  for_values f d = Some d' ->
  dict_get k d' = match dict_get k d with
                  | Some v => f v
                  | None => None
                  end.
Proof.
  intros H. apply for_values_inv in H.
  induction H as [|[k1 v] [k1' v'] d d' [Hk Hx] Hl IH]; [reflexivity|].
  cbn [fst snd] in *. subst k1'. destruct k1 as [k1|z|c r]; cbn [dict_get]; try exact IH.
  destruct (String.eqb k k1); [symmetry; exact Hx | exact IH].
Qed.

Lemma for_values_get_some f d d' k v :
  for_values f d = Some d' -> dict_get k d = Some v ->
  exists v', f v = Some v' /\ dict_get k d' = Some v'.
Proof.
  intros H. apply for_values_inv in H.
  induction H as [|[k1 x] [k1' x'] d d' [Hk Hx] Hl IH]; [discriminate|].
  cbn [fst snd] in *. subst k1'. destruct k1 as [k1|z|c r]; cbn [dict_get]; try exact IH.
  destruct (String.eqb k k1); [|exact IH]. intros [= <-]. eauto.
Qed.

Lemma for_values_has f d d' k :
  for_values f d = Some d' -> dict_has k d' = dict_has k d.
Proof.
  intros H. apply for_values_inv in H.
  induction H as [|[k1 v] [k1' v'] d d' [Hk Hx] Hl IH]; [reflexivity|].
  cbn [fst snd] in *. subst k1'. destruct k1 as [k1|z|c r]; cbn [dict_has]; try exact IH.
  rewrite IH. reflexivity.
Qed.

Lemma for_values_id f d d' :
  for_values f d = Some d' ->
  Forall (fun kv => forall y, f (snd kv) = Some y -> y = snd kv) d ->
  d' = d.
Proof.
  intros H Hf. apply for_values_inv in H.
  induction H as [|[k v] [k' v'] d d' [Hk Hx] Hl IH]; [reflexivity|].
  inversion Hf as [|? ? Hv Hd]; subst. cbn [fst snd] in *.
  rewrite (Hv _ Hx), (IH Hd). subst k'. reflexivity.
Qed.

Lemma mapM_id {A} (f : A -> option A) l l' :
  mapM f l = Some l' ->
  Forall (fun x => forall y, f x = Some y -> y = x) l ->
  l' = l.
Proof.
  rewrite mapM_Some. intros H Hf.
  induction H as [|x y l l' Hx Hl IH]; [reflexivity|].
  inversion Hf as [|? ? Hv Hd]; subst. rewrite (Hv _ Hx), (IH Hd). reflexivity.
Qed.

(** *** Fixed schemas are left alone *)

Lemma dict_get_Forall (P : pyval -> Prop) k d v :
  dict_get k d = Some v -> Forall (fun kv => P (snd kv)) d -> P v.
Proof.
  intros Hg Hf. induction Hf as [|[[k'|z|c r] w] d Hw Hd IH]; cbn [dict_get] in Hg;
    [discriminate| |auto..].
  destruct (String.eqb k k'); [injection Hg as <-; exact Hw | auto].
Qed.

Lemma normal_dict options d :
  normal options (PDict d) = true ->
  type_is_list d = false
  /\ (aggressive options = true -> enum_strings d = true)
  /\ array_without_items d = false
  /\ Forall (fun kv => normal options (snd kv) = true) d.
Proof.
  cbn [normal]. rewrite !andb_true_iff, !negb_true_iff, orb_true_iff, negb_true_iff.
  intros [[[H1 H2] H3] H4]. repeat split; try assumption.
  - intros Ha. destruct H2 as [H2|H2]; [congruence | exact H2].
  - apply Forall_forall. intros kv Hin. rewrite forallb_forall in H4.
    apply H4. apply list_elem_of_In. exact Hin.
Qed.

Lemma normal_list options l :
  normal options (PList l) = true -> Forall (fun x => normal options x = true) l.
Proof.
  cbn [normal]. rewrite forallb_forall. intros H. apply Forall_forall.
  intros x Hin. apply H, list_elem_of_In, Hin.
Qed.

Lemma coerce_type_id options d : type_is_list d = false -> coerce_type options d = d.
Proof.
  unfold type_is_list, coerce_type.
  destruct (dict_get "type" d) as [[]|]; try reflexivity. discriminate.
Qed.

Lemma stringify_id vals : forallb is_str vals = true -> stringify vals = vals.
Proof.
  induction vals as [|x vals IH]; [reflexivity|]. cbn [forallb stringify List.map].
  intros H. apply andb_true_iff in H as [Hx Hv]. fold (stringify vals).
  rewrite (IH Hv). destruct x; try discriminate Hx. reflexivity.
Qed.

Lemma coerce_enum_id options d :
  (aggressive options = true -> enum_strings d = true) -> coerce_enum options d = d.
Proof.
  unfold enum_strings, coerce_enum. destruct (aggressive options); [|reflexivity].
  intros H. specialize (H eq_refl).
  destruct (dict_get "enum" d) as [[]|] eqn:E; try reflexivity.
  rewrite (stringify_id _ H). apply dict_set_same, E.
Qed.

Lemma coerce_items_id options d :
  array_without_items d = false -> coerce_items options d = d.
Proof.
  intros H. unfold coerce_items. rewrite (add_items_id _ H).
  destruct (aggressive options); reflexivity.
Qed.

Lemma keeps_on_dict options f : keeps options f -> keeps options (on_dict f).
Proof.
  intros Hf v v' Hn. unfold on_dict.
  destruct v; try (intros [= <-]; reflexivity). apply Hf, Hn.
Qed.

Lemma keeps_on_container options f : keeps options f -> keeps options (on_container f).
Proof.
  intros Hf v v' Hn. unfold on_container.
  destruct v; try (intros [= <-]; reflexivity); apply Hf, Hn.
Qed.

Lemma keeps_mapM options f l l' :
  keeps options f -> Forall (fun x => normal options x = true) l ->
  mapM f l = Some l' -> l' = l.
Proof.
  intros Hf Hl Hm. apply (mapM_id _ _ _ Hm).
  eapply Forall_impl; [exact Hl|]. intros x Hx y. apply Hf, Hx.
Qed.

Lemma keeps_for_values options f d d' :
  keeps options f -> Forall (fun kv => normal options (snd kv) = true) d ->
  for_values f d = Some d' -> d' = d.
Proof.
  intros Hf Hd Hm. apply (for_values_id _ _ _ Hm).
  eapply Forall_impl; [exact Hd|]. intros x Hx y. apply Hf, Hx.
Qed.

Lemma keeps_fix_nested options f : keeps options f -> keeps options (fix_nested f).
Proof.
  intros Hf v v' Hn. unfold fix_nested.
  destruct v; try (intros [= <-]; reflexivity); [|apply Hf, Hn].
  destruct (mapM (on_dict f) l) as [l'|] eqn:Hm; [|discriminate]. cbn. intros [= <-].
  f_equal. apply (keeps_mapM options _ _ _ (keeps_on_dict _ _ Hf) (normal_list _ _ Hn) Hm).
Qed.

Lemma fix_args_id options props :
  Forall (fun kv => normal options (snd kv) = true) props -> fix_args props = props.
Proof.
  intros Hp. unfold fix_args.
  destruct (dict_get "args" props) as [[ | | | | | |a| ]|] eqn:Ha; auto.
  pose proof (dict_get_Forall (fun x => normal options x = true) _ _ _ Ha Hp) as Hna.
  destruct (normal_dict _ _ Hna) as (_ & _ & Hawa & _).
  rewrite (add_items_id _ Hawa). apply dict_set_same, Ha.
Qed.

Lemma fix_properties_id options f d d' :
  keeps options f -> Forall (fun kv => normal options (snd kv) = true) d ->
  fix_properties f d = Some d' -> d' = d.
Proof.
  intros Hf Hd. unfold fix_properties.
  destruct (dict_get "properties" d) as [[ | | | | | |props| ]|] eqn:Hp;
    try (intros [= <-]; reflexivity).
  pose proof (dict_get_Forall (fun x => normal options x = true) _ _ _ Hp Hd) as Hnp.
  destruct (normal_dict _ _ Hnp) as (_ & _ & _ & Hpv).
  rewrite (fix_args_id _ _ Hpv).
  destruct (for_values (on_dict f) props) as [props'|] eqn:Hfor; [|discriminate].
  cbn. intros [= <-].
  rewrite (keeps_for_values options _ _ _ (keeps_on_dict _ _ Hf) Hpv Hfor).
  apply dict_set_same, Hp.
Qed.

Lemma keeps_fix_openai_body options f :
  keeps options f -> keeps options (fix_openai_body f).
Proof.
  intros Hf v v' Hn. unfold fix_openai_body.
  destruct v; try (intros [= <-]; reflexivity).
  destruct (normal_dict _ _ Hn) as (_ & _ & Hawi & Hvals).
  rewrite (add_items_id _ Hawi).
  destruct (fix_properties f d) as [d1|] eqn:H1; [|discriminate].
  rewrite (fix_properties_id _ _ _ _ Hf Hvals H1). cbn.
  destruct (for_values (fix_nested f) d) as [d2|] eqn:H2; [|discriminate].
  cbn. intros [= <-].
  rewrite (keeps_for_values options _ _ _ (keeps_fix_nested _ _ Hf) Hvals H2). reflexivity.
Qed.

Lemma keeps_fix_openai options n : keeps options (fix_openai_validation_errors n).
Proof.
  induction n as [|n IH]; [intros v v' _; discriminate|].
  apply (keeps_fix_openai_body options _ IH).
Qed.

Lemma keeps_fix_schema_body options openai self :
  keeps options openai -> keeps options self ->
  keeps options (fix_schema_body openai self options).
Proof.
  intros Ho Hs v v' Hn. unfold fix_schema_body.
  destruct v; try (intros [= <-]; reflexivity).
  - destruct (mapM (on_container self) l) as [l'|] eqn:Hm; [|discriminate].
    cbn. intros [= <-]. f_equal.
    apply (keeps_mapM options _ _ _ (keeps_on_container _ _ Hs) (normal_list _ _ Hn) Hm).
  - destruct (openai (PDict d)) as [obj1|] eqn:H1; [|discriminate].
    rewrite (Ho _ _ Hn H1). cbn.
    destruct (normal_dict _ _ Hn) as (Ht & He & Hawi & Hvals).
    rewrite (coerce_type_id _ _ Ht), (coerce_enum_id _ _ He), (coerce_items_id _ _ Hawi).
    destruct (for_values (on_container self) d) as [d2|] eqn:H2; [|discriminate].
    cbn. intros [= <-].
    rewrite (keeps_for_values options _ _ _ (keeps_on_container _ _ Hs) Hvals H2).
    reflexivity.
Qed.

(** A fixed schema is returned as it is. *)
Lemma keeps_fix_schema options n :
  keeps options (fix_schema_types_recursive n (Some options)).
Proof.
  induction n as [|n IH]; [intros v v' _; discriminate|].
  apply (keeps_fix_schema_body options _ _ (keeps_fix_openai options n) IH).
Qed.

(** *** The result of the fixer is a fixed schema *)

Lemma same_kind_str v s : same_kind v (PStr s) -> v = PStr s.
Proof. destruct v; cbn; congruence. Qed.

Lemma same_kind_list v l : same_kind v (PList l) -> is_list v = true.
Proof. destruct v; cbn; congruence. Qed.

Lemma kind_on_container f : kind_preserving f -> kind_preserving (on_container f).
Proof.
  intros Hf v v'. unfold on_container.
  destruct v; try (intros [= <-]; reflexivity); apply Hf.
Qed.

Lemma kind_fix_nested f : kind_preserving f -> kind_preserving (fix_nested f).
Proof.
  intros Hf v v'. unfold fix_nested.
  destruct v; try (intros [= <-]; reflexivity); [|apply Hf].
  destruct (mapM (on_dict f) l); [|discriminate]. cbn. intros [= <-]. reflexivity.
Qed.

Lemma array_without_items_for_values f d d' :
  kind_preserving f -> for_values f d = Some d' ->
  array_without_items d' = array_without_items d.
Proof.
  intros Hf H. unfold array_without_items.
  rewrite (for_values_has _ _ _ "items" H).
  destruct (dict_get "type" d) as [v|] eqn:Ht.
  - destruct (for_values_get_some _ _ _ _ _ H Ht) as (v' & E & ->).
    specialize (Hf _ _ E). destruct v; cbn in Hf; subst; try reflexivity;
      destruct v'; try discriminate Hf; reflexivity.
  - rewrite (for_values_get _ _ _ "type" H), Ht. reflexivity.
Qed.

Lemma type_is_list_for_values f d d' :
  kind_preserving f -> for_values f d = Some d' ->
  type_is_list d' = type_is_list d.
Proof.
  intros Hf H. unfold type_is_list.
  destruct (dict_get "type" d) as [v|] eqn:Ht.
  - destruct (for_values_get_some _ _ _ _ _ H Ht) as (v' & E & ->).
    specialize (Hf _ _ E). destruct v; cbn in Hf; subst; try reflexivity;
      destruct v'; try discriminate Hf; reflexivity.
  - rewrite (for_values_get _ _ _ "type" H), Ht. reflexivity.
Qed.

Lemma strings_normal options vals :
  forallb is_str vals = true -> normal options (PList vals) = true.
Proof.
  cbn [normal]. induction vals as [|x vals IH]; [reflexivity|]. cbn [forallb].
  intros H. apply andb_true_iff in H as [Hx Hv]. rewrite (IH Hv).
  destruct x; try discriminate Hx. reflexivity.
Qed.

Lemma enum_strings_for_values options f d d' :
  kind_preserving f -> keeps options f -> for_values f d = Some d' ->
  enum_strings d = true -> enum_strings d' = true.
Proof.
  intros Hk Hf H. unfold enum_strings.
  destruct (dict_get "enum" d) as [v|] eqn:Ht.
  - destruct (for_values_get_some _ _ _ _ _ H Ht) as (v' & E & ->).
    pose proof (Hk _ _ E) as Hkind.
    destruct v; cbn in Hkind; subst; try reflexivity.
    + intros Hs. rewrite (Hf _ _ (strings_normal options _ Hs) E). exact Hs.
    + destruct v'; try discriminate Hkind. reflexivity.
  - rewrite (for_values_get _ _ _ "enum" H), Ht. reflexivity.
Qed.

Lemma array_without_items_set k v d :
  k <> "type" -> k <> "items" ->
  array_without_items (dict_set k v d) = array_without_items d.
Proof.
  intros H1 H2. unfold array_without_items.
  rewrite (dict_get_set_ne _ _ _ _ H1), dict_has_set.
  assert (String.eqb "items" k = false) as ->; [|reflexivity].
  apply String.eqb_neq. congruence.
Qed.

Lemma fix_properties_items f d d' :
  fix_properties f d = Some d' -> array_without_items d' = array_without_items d.
Proof.
  unfold fix_properties.
  destruct (dict_get "properties" d) as [[ | | | | | |props| ]|];
    try (intros [= <-]; reflexivity).
  destruct (for_values (on_dict f) (fix_args props)); [|discriminate].
  cbn. intros [= <-]. apply array_without_items_set; discriminate.
Qed.

Lemma kind_fix_openai_body f : kind_preserving (fix_openai_body f).
Proof.
  intros v v'. unfold fix_openai_body. destruct v; try (intros [= <-]; reflexivity).
  destruct (fix_properties f (add_items d)); [|discriminate]. cbn.
  destruct (for_values (fix_nested f) l); [|discriminate]. cbn.
  intros [= <-]. reflexivity.
Qed.

Lemma kind_fix_openai n : kind_preserving (fix_openai_validation_errors n).
Proof.
  destruct n as [|n]; [intros v v'; discriminate|]. apply kind_fix_openai_body.
Qed.

Lemma openai_result_body f : kind_preserving f -> openai_result (fix_openai_body f).
Proof.
  intros Hf d v'. unfold fix_openai_body.
  destruct (fix_properties f (add_items d)) as [d1|] eqn:H1; [|discriminate]. cbn.
  destruct (for_values (fix_nested f) d1) as [d2|] eqn:H2; [|discriminate]. cbn.
  intros [= <-]. exists d2. split; [reflexivity|].
  rewrite (array_without_items_for_values _ _ _ (kind_fix_nested _ Hf) H2).
  rewrite (fix_properties_items _ _ _ H1). apply add_items_normal.
Qed.

Lemma openai_result_fix_openai n : openai_result (fix_openai_validation_errors n).
Proof.
  destruct n as [|n]; [intros d v'; discriminate|].
  apply openai_result_body, kind_fix_openai.
Qed.

Lemma type_is_list_set k v d :
  k <> "type" -> type_is_list (dict_set k v d) = type_is_list d.
Proof. intros H. unfold type_is_list. rewrite (dict_get_set_ne _ _ _ _ H). reflexivity. Qed.

Lemma enum_strings_set k v d :
  k <> "enum" -> enum_strings (dict_set k v d) = enum_strings d.
Proof. intros H. unfold enum_strings. rewrite (dict_get_set_ne _ _ _ _ H). reflexivity. Qed.

Lemma type_is_list_add_items d : type_is_list (add_items d) = type_is_list d.
Proof.
  unfold add_items. destruct (array_without_items d); [|reflexivity].
  apply type_is_list_set. discriminate.
Qed.

Lemma enum_strings_add_items d : enum_strings (add_items d) = enum_strings d.
Proof.
  unfold add_items. destruct (array_without_items d); [|reflexivity].
  apply enum_strings_set. discriminate.
Qed.

Lemma type_is_list_coerce_type options d : type_is_list (coerce_type options d) = false.
Proof.
  unfold coerce_type. destruct (dict_get "type" d) as [v|] eqn:E.
  - destruct v; try (unfold type_is_list; rewrite E; reflexivity).
    unfold type_is_list. rewrite dict_get_set_eq. reflexivity.
  - unfold type_is_list. rewrite E. reflexivity.
Qed.

Lemma stringify_strings vals : forallb is_str (stringify vals) = true.
Proof.
  induction vals as [|x vals IH]; [reflexivity|]. cbn [stringify List.map forallb].
  fold (stringify vals). rewrite IH. destruct x; reflexivity.
Qed.

Lemma enum_strings_coerce_enum options d :
  aggressive options = true -> enum_strings (coerce_enum options d) = true.
Proof.
  intros Ha. unfold coerce_enum. rewrite Ha.
  destruct (dict_get "enum" d) as [v|] eqn:E.
  - destruct v; try (unfold enum_strings; rewrite E; reflexivity).
    unfold enum_strings. rewrite dict_get_set_eq. apply stringify_strings.
  - unfold enum_strings. rewrite E. reflexivity.
Qed.

Lemma type_is_list_coerce_enum options d :
  type_is_list (coerce_enum options d) = type_is_list d.
Proof.
  unfold coerce_enum. destruct (aggressive options); [|reflexivity].
  destruct (dict_get "enum" d) as [[]|]; try reflexivity.
  apply type_is_list_set. discriminate.
Qed.

(** the three coercions leave a dict as a fixed schema has it *)
Lemma coerced_dict options d :
  stable_options options -> array_without_items d = false ->
  let d' := coerce_items options (coerce_enum options (coerce_type options d)) in
  type_is_list d' = false
  /\ (aggressive options = true -> enum_strings d' = true)
  /\ array_without_items d' = false.
Proof.
  intros Hst Hawi. cbn zeta. unfold coerce_items. split; [|split].
  - destruct (aggressive options); [rewrite type_is_list_add_items|];
      rewrite type_is_list_coerce_enum; apply type_is_list_coerce_type.
  - intros Ha. rewrite Ha, enum_strings_add_items. apply enum_strings_coerce_enum, Ha.
  - destruct (aggressive options) eqn:Ha; [apply add_items_normal|].
    unfold coerce_enum. rewrite Ha. destruct Hst as [Hst|Hst]; [congruence|].
    unfold coerce_type. destruct (dict_get "type" d) as [v|] eqn:E; [|exact Hawi].
    destruct v; try exact Hawi.
    unfold array_without_items. rewrite dict_get_set_eq.
    destruct (String.eqb (convert_type_arrays_to options) "array") eqn:Eq; [|reflexivity].
    apply String.eqb_eq in Eq. congruence.
Qed.

Lemma normalizes_on_container options f :
  normalizes options f -> normalizes options (on_container f).
Proof.
  intros Hf v v'. unfold on_container.
  destruct v; try (intros [= <-]; reflexivity); apply Hf.
Qed.

Lemma normalizes_mapM options f l l' :
  normalizes options f -> mapM f l = Some l' -> forallb (normal options) l' = true.
Proof.
  intros Hf. rewrite mapM_Some. intros H.
  induction H as [|x y l l' Hx Hl IH]; [reflexivity|].
  cbn [forallb]. rewrite (Hf _ _ Hx), IH. reflexivity.
Qed.

Lemma normalizes_for_values options f d d' :
  normalizes options f -> for_values f d = Some d' ->
  forallb (fun kv => normal options (snd kv)) d' = true.
Proof.
  intros Hf H. apply for_values_inv in H.
  induction H as [|x y l l' [_ Hx] Hl IH]; [reflexivity|].
  cbn [forallb]. rewrite (Hf _ _ Hx), IH. reflexivity.
Qed.

Lemma kind_fix_schema_body openai self options :
  openai_result openai -> kind_preserving (fix_schema_body openai self options).
Proof.
  intros Ho v v'. unfold fix_schema_body. destruct v; try (intros [= <-]; reflexivity).
  - destruct (mapM (on_container self) l); [|discriminate]. cbn. intros [= <-]. reflexivity.
  - destruct (openai (PDict d)) as [obj1|] eqn:H1; [|discriminate]. cbn.
    destruct (Ho _ _ H1) as (d1 & -> & _).
    destruct (for_values _ _); [|discriminate]. cbn. intros [= <-]. reflexivity.
Qed.

Lemma kind_fix_schema n options :
  kind_preserving (fix_schema_types_recursive n options).
Proof.
  destruct n as [|n]; [intros v v'; discriminate|].
  apply kind_fix_schema_body, openai_result_fix_openai.
Qed.

Lemma normalizes_fix_schema_body options openai self :
  stable_options options -> openai_result openai ->
  kind_preserving self -> keeps options self -> normalizes options self ->
  normalizes options (fix_schema_body openai self options).
Proof.
  intros Hst Ho Hk Hkeep Hn v v'. unfold fix_schema_body.
  destruct v; try (intros [= <-]; reflexivity).
  - destruct (mapM (on_container self) l) as [l'|] eqn:Hm; [|discriminate].
    cbn. intros [= <-]. cbn [normal].
    apply (normalizes_mapM options _ _ _ (normalizes_on_container _ _ Hn) Hm).
  - destruct (openai (PDict d)) as [obj1|] eqn:H1; [|discriminate]. cbn.
    destruct (Ho _ _ H1) as (d1 & -> & Hawi).
    destruct (for_values _ _) as [d2|] eqn:H2; [|discriminate]. cbn. intros [= <-].
    destruct (coerced_dict options d1 Hst Hawi) as (Ht & He & Ha). cbn zeta in *.
    pose proof (kind_on_container _ Hk) as Hk'.
    cbn [normal].
    rewrite (type_is_list_for_values _ _ _ Hk' H2), Ht.
    rewrite (array_without_items_for_values _ _ _ Hk' H2), Ha.
    rewrite (normalizes_for_values options _ _ _ (normalizes_on_container _ _ Hn) H2).
    destruct (aggressive options) eqn:Hag; [|reflexivity].
    rewrite (enum_strings_for_values options _ _ _ Hk'
               (keeps_on_container _ _ Hkeep) H2 (He eq_refl)).
    reflexivity.
Qed.

(** With stable options the result of the fixer is a fixed schema. *)
Lemma normalizes_fix_schema options n :
  stable_options options ->
  normalizes options (fix_schema_types_recursive n (Some options)).
Proof.
  intros Hst. induction n as [|n IH]; [intros v v'; discriminate|].
  apply (normalizes_fix_schema_body options _ _ Hst (openai_result_fix_openai n)
           (kind_fix_schema n _) (keeps_fix_schema options n) IH).
Qed.

(** *** The fixer returns, given the depth of calls that the schema needs *)

Lemma max_list_cons x l : max_list (x :: l) = Nat.max x (max_list l).
Proof. reflexivity. Qed.

Lemma heights_cons (x : pyval) l :
  max_list (List.map height (x :: l)) = Nat.max (height x) (max_list (List.map height l)).
Proof. reflexivity. Qed.

Lemma height_dict d :
  height (PDict d) = S (Nat.max (values_height d) (potential d)).
Proof. reflexivity. Qed.

Lemma height_list l : height (PList l) = S (max_list (List.map height l)).
Proof. reflexivity. Qed.

Lemma values_height_cons k v d :
  values_height ((k, v) :: d) = Nat.max (height v) (values_height d).
Proof. reflexivity. Qed.

Lemma values_height_get k d v :
  dict_get k d = Some v -> (height v <= values_height d)%nat.
Proof.
  induction d as [|[[k'|z|c r] w] d IH]; cbn [dict_get]; [discriminate| |..];
    rewrite values_height_cons.
  - destruct (String.eqb k k'); [intros [= ->]; lia|]. intros H. specialize (IH H). lia.
  - intros H. specialize (IH H). lia.
  - intros H. specialize (IH H). lia.
Qed.

Lemma values_height_set k v d :
  (values_height (dict_set k v d) <= Nat.max (values_height d) (height v))%nat.
Proof.
  induction d as [|[[k'|z|c r] w] d IH]; cbn [dict_set].
  - rewrite values_height_cons. cbn. lia.
  - destruct (String.eqb k k'); rewrite !values_height_cons; lia.
  - rewrite !values_height_cons. lia.
  - rewrite !values_height_cons. lia.
Qed.

Lemma potential_set k v d :
  k <> "type" -> k <> "items" -> potential (dict_set k v d) = potential d.
Proof.
  intros H1 H2. unfold potential. rewrite (array_without_items_set _ _ _ H1 H2).
  reflexivity.
Qed.

Lemma height_add_items d : (height (PDict (add_items d)) <= height (PDict d))%nat.
Proof.
  rewrite !height_dict. unfold potential. rewrite add_items_normal.
  unfold add_items. destruct (array_without_items d) eqn:E; [|lia].
  pose proof (values_height_set "items" default_items d) as H.
  change (height default_items) with 1%nat in H. lia.
Qed.

Lemma values_height_add_items d :
  (values_height (add_items d) <= Nat.max (values_height d) (potential d))%nat.
Proof.
  pose proof (height_add_items d) as H. rewrite !height_dict in H. lia.
Qed.

Lemma returns_mapM n f l :
  (forall x, (height x < n)%nat ->
             exists y, f x = Some y /\ (height y <= height x)%nat) ->
  (max_list (List.map height l) < n)%nat \/ l = [] ->
  exists l', mapM f l = Some l'
             /\ (max_list (List.map height l') <= max_list (List.map height l))%nat.
Proof.
  intros Hf. induction l as [|x l IH]; intros Hl.
  - exists []. split; [reflexivity | cbn; lia].
  - destruct Hl as [Hl|Hl]; [|discriminate]. rewrite heights_cons in Hl.
    destruct (Hf x ltac:(clear - Hl; lia)) as (y & Hy & Hh).
    destruct (IH ltac:(left; clear - Hl; lia)) as (l' & Hl' & Hh').
    exists (y :: l'). split.
    + cbn [mapM]. rewrite Hy. cbn. rewrite Hl'. reflexivity.
    + rewrite !heights_cons. clear - Hh Hh'. lia.
Qed.

Lemma returns_for_values n f d :
  (forall x, (height x < n)%nat ->
             exists y, f x = Some y /\ (height y <= height x)%nat) ->
  (values_height d < n)%nat \/ d = [] ->
  exists d', for_values f d = Some d' /\ (values_height d' <= values_height d)%nat.
Proof.
  intros Hf. induction d as [|[k x] d IH]; intros Hl.
  - exists []. split; [reflexivity | cbn; lia].
  - destruct Hl as [Hl|Hl]; [|discriminate]. rewrite values_height_cons in Hl.
    destruct (Hf x ltac:(clear - Hl; lia)) as (y & Hy & Hh).
    destruct (IH ltac:(left; clear - Hl; lia)) as (d' & Hd' & Hh').
    exists ((k, y) :: d'). split.
    + unfold for_values in *. cbn [mapM fst snd]. rewrite Hy. cbn. rewrite Hd'.
      reflexivity.
    + rewrite !values_height_cons. clear - Hh Hh'. lia.
Qed.

(** arithmetic, without the hypotheses on the calls *)
Ltac arith :=
  repeat match goal with
         | H : returns_below _ _ |- _ => clear H
         | H : kind_preserving _ |- _ => clear H
         | H : openai_result _ |- _ => clear H
         end;
  lia.

Lemma potential_for_values f d d' :
  kind_preserving f -> for_values f d = Some d' -> potential d' = potential d.
Proof.
  intros Hf H. unfold potential.
  rewrite (array_without_items_for_values _ _ _ Hf H). reflexivity.
Qed.

Lemma kind_on_dict f : kind_preserving f -> kind_preserving (on_dict f).
Proof.
  intros Hf v v'. unfold on_dict.
  destruct v; try (intros [= <-]; reflexivity); apply Hf.
Qed.

Lemma returns_on_dict n f :
  returns_below n f -> returns_below n (on_dict f).
Proof.
  intros Hf v Hv. unfold on_dict. destruct v; try (eexists; split; [reflexivity|arith]).
  apply Hf, Hv.
Qed.

Lemma returns_on_container n f :
  returns_below n f -> returns_below n (on_container f).
Proof.
  intros Hf v Hv. unfold on_container.
  destruct v; try (eexists; split; [reflexivity|arith]); apply Hf, Hv.
Qed.

Lemma returns_fix_nested n f :
  returns_below n f -> returns_below n (fix_nested f).
Proof.
  intros Hf v Hv. unfold fix_nested.
  destruct v; try (eexists; split; [reflexivity|arith]); [|apply Hf, Hv].
  rewrite height_list in Hv.
  assert (Hlt : (max_list (List.map height l) < n)%nat \/ l = []) by (left; arith).
  destruct (returns_mapM n (on_dict f) l (returns_on_dict _ _ Hf) Hlt)
    as (l' & -> & Hh).
  eexists. split; [reflexivity|]. rewrite !height_list. arith.
Qed.

Lemma fix_args_height props :
  (values_height (fix_args props) <= values_height props)%nat
  /\ potential (fix_args props) = potential props.
Proof.
  unfold fix_args.
  destruct (dict_get "args" props) as [[ | | | | | |a| ]|] eqn:Ha; try (split; [arith|reflexivity]).
  split; [|apply potential_set; discriminate].
  pose proof (values_height_set "args" (PDict (add_items a)) props) as H1.
  pose proof (height_add_items a) as H2.
  pose proof (values_height_get _ _ _ Ha) as H3. arith.
Qed.

Lemma returns_fix_properties n f d :
  kind_preserving f -> returns_below n f -> (values_height d < n)%nat ->
  exists d', fix_properties f d = Some d'
             /\ (values_height d' <= values_height d)%nat
             /\ potential d' = potential d.
Proof.
  intros Hk Hf Hd. unfold fix_properties.
  destruct (dict_get "properties" d) as [[ | | | | | |props| ]|] eqn:Hp;
    try (eexists; split; [reflexivity|]; split; [arith|reflexivity]).
  pose proof (values_height_get _ _ _ Hp) as Hh. rewrite height_dict in Hh.
  destruct (fix_args_height props) as [Ha1 Ha2].
  assert (Hlt : (values_height (fix_args props) < n)%nat \/ fix_args props = [])
    by (left; arith).
  destruct (returns_for_values n (on_dict f) (fix_args props) (returns_on_dict _ _ Hf)
              Hlt) as (props' & Hfor & Hh').
  rewrite Hfor. cbn [mbind option_bind]. eexists. split; [reflexivity|].
  split; [|apply potential_set; discriminate].
  pose proof (values_height_set "properties" (PDict props') d) as H1.
  rewrite height_dict in H1.
  rewrite (potential_for_values _ _ _ (kind_on_dict _ Hk) Hfor), Ha2 in H1. arith.
Qed.

Lemma returns_fix_openai_body n f :
  kind_preserving f -> returns_below n f -> returns_below (S n) (fix_openai_body f).
Proof.
  intros Hk Hf v Hv. unfold fix_openai_body.
  destruct v; try (eexists; split; [reflexivity|arith]).
  rewrite height_dict in Hv. pose proof (values_height_add_items d) as H0.
  assert (Hlt : (values_height (add_items d) < n)%nat) by arith.
  destruct (returns_fix_properties n f (add_items d) Hk Hf Hlt)
    as (d1 & -> & H1 & P1). cbn [mbind option_bind].
  assert (Hlt1 : (values_height d1 < n)%nat \/ d1 = []) by (left; arith).
  destruct (returns_for_values n (fix_nested f) d1 (returns_fix_nested _ _ Hf) Hlt1)
    as (d2 & H2 & Hh2).
  rewrite H2. cbn [mbind option_bind]. eexists. split; [reflexivity|]. rewrite !height_dict.
  rewrite (potential_for_values _ _ _ (kind_fix_nested _ Hk) H2), P1.
  unfold potential at 1. rewrite add_items_normal. arith.
Qed.

Lemma returns_fix_openai n : returns_below n (fix_openai_validation_errors n).
Proof.
  induction n as [|n IH]; [intros v Hv; arith|].
  apply (returns_fix_openai_body n _ (kind_fix_openai n) IH).
Qed.

Lemma height_coerce_type options d :
  (height (PDict (coerce_type options d)) <= height (PDict d))%nat.
Proof.
  unfold coerce_type. destruct (dict_get "type" d) as [v|] eqn:E; [|arith].
  destruct v; try arith. rewrite !height_dict.
  pose proof (values_height_set "type" (PStr (convert_type_arrays_to options)) d) as H1.
  pose proof (values_height_get _ _ _ E) as H2. rewrite height_list in H2.
  assert (potential (dict_set "type" (PStr (convert_type_arrays_to options)) d) <= 1)%nat
    by (unfold potential; destruct (array_without_items _); arith).
  cbn [height] in H1. arith.
Qed.

Lemma heights_stringify vals :
  (max_list (List.map height (stringify vals)) <= max_list (List.map height vals))%nat.
Proof.
  induction vals as [|x vals IH]; [cbn; arith|].
  change (stringify (x :: vals))
    with ((match x with PStr _ => x | _ => PStr (py_str x) end) :: stringify vals).
  rewrite !heights_cons. destruct x; cbn [height]; arith.
Qed.

Lemma height_coerce_enum options d :
  (height (PDict (coerce_enum options d)) <= height (PDict d))%nat.
Proof.
  unfold coerce_enum. destruct (aggressive options); [|arith].
  destruct (dict_get "enum" d) as [v|] eqn:E; [|arith].
  destruct v; try arith. rewrite !height_dict.
  rewrite potential_set by discriminate.
  pose proof (values_height_set "enum" (PList (stringify l)) d) as H1.
  pose proof (values_height_get _ _ _ E) as H2. rewrite height_list in H1, H2.
  pose proof (heights_stringify l). arith.
Qed.

Lemma height_coerce_items options d :
  (height (PDict (coerce_items options d)) <= height (PDict d))%nat.
Proof.
  unfold coerce_items. destruct (aggressive options); [apply height_add_items | arith].
Qed.

Lemma returns_fix_schema_body n openai self options :
  openai_result openai -> kind_preserving self ->
  returns_below (S n) openai -> returns_below n self ->
  returns_below (S n) (fix_schema_body openai self options).
Proof.
  intros Hres Hk Ho Hs v Hv. unfold fix_schema_body.
  destruct v; try (eexists; split; [reflexivity|arith]).
  - rewrite height_list in Hv.
    assert (Hlt : (max_list (List.map height l) < n)%nat \/ l = []) by (left; arith).
    destruct (returns_mapM n (on_container self) l (returns_on_container _ _ Hs) Hlt)
      as (l' & -> & Hh).
    eexists. split; [reflexivity|]. rewrite !height_list. arith.
  - destruct (Ho _ Hv) as (obj1 & H1 & Hh1). rewrite H1. cbn [mbind option_bind].
    destruct (Hres _ _ H1) as (d1 & -> & _).
    pose proof (height_coerce_type options d1) as C1.
    pose proof (height_coerce_enum options (coerce_type options d1)) as C2.
    pose proof (height_coerce_items options
                  (coerce_enum options (coerce_type options d1))) as C3.
    remember (coerce_items options (coerce_enum options (coerce_type options d1))) as dc.
    rewrite height_dict in C3.
    assert (Hlt : (values_height dc < n)%nat \/ dc = []) by (left; arith).
    destruct (returns_for_values n (on_container self) dc (returns_on_container _ _ Hs)
                Hlt) as (d2 & H2 & Hh2).
    rewrite H2. cbn [mbind option_bind]. eexists. split; [reflexivity|]. rewrite height_dict.
    rewrite (potential_for_values _ _ _ (kind_on_container _ Hk) H2). arith.
Qed.

(** The fixer returns when it may nest its calls deeper than the schema
    is high. *)
Lemma returns_fix_schema n options :
  returns_below n (fix_schema_types_recursive (S n) (Some options)).
Proof.
  induction n as [|n IH]; [intros v Hv; arith|].
  apply (returns_fix_schema_body n _ _ options (openai_result_fix_openai (S n))
           (kind_fix_schema (S n) _) (returns_fix_openai (S n)) IH).
Qed.

(** *** Idempotence *)

Lemma fix_schema_resolved n options v :
  fix_schema_types_recursive n options v
  = fix_schema_types_recursive n (Some (resolved options)) v.
Proof. destruct n, options; reflexivity. Qed.

(** C9, as the code has it. In aggressive mode, or with a fallback type
    other than [array], the schema fix is idempotent: whatever a first
    pass returns, a second pass with the same options returns unchanged;
    and both passes do return when the depth of calls allowed exceeds the
    height of the schema. *)
Theorem schema_fix_idempotent (options : option SchemaFixOptions) (x : pyval) :
  stable_options (resolved options) ->
  (forall n m y z,
      fix_schema_types_recursive n options x = Some y ->
      fix_schema_types_recursive m options y = Some z ->
      z = y)
  /\ (forall n, (height x < n)%nat ->
                exists y, fix_schema_types_recursive (S n) options x = Some y
                          /\ fix_schema_types_recursive (S n) options y = Some y).
Proof.
  intros Hst.
  assert (Hidem : forall n m y z,
             fix_schema_types_recursive n options x = Some y ->
             fix_schema_types_recursive m options y = Some z ->
             z = y).
  { intros n m y z. rewrite !(fix_schema_resolved _ options). intros Hy Hz.
    apply (keeps_fix_schema (resolved options) m y z); [|exact Hz].
    apply (normalizes_fix_schema (resolved options) n Hst x y Hy). }
  split; [exact Hidem|]. intros n Hn.
  destruct (returns_fix_schema n (resolved options) x Hn) as (y & Hy & Hh).
  rewrite <- fix_schema_resolved in Hy. exists y. split; [exact Hy|].
  destruct (returns_fix_schema n (resolved options) y ltac:(lia)) as (z & Hz & _).
  rewrite <- fix_schema_resolved in Hz. rewrite Hz. f_equal.
  apply (Hidem _ _ _ _ Hy Hz).
Qed.

Lemma schema_fix_idempotent_witness :
  (forall n m y z,
      fix_schema_types_recursive n None contract_call_schema = Some y ->
      fix_schema_types_recursive m None y = Some z ->
      z = y)
  /\ (forall n, (height contract_call_schema < n)%nat ->
                exists y, fix_schema_types_recursive (S n) None contract_call_schema
                          = Some y
                          /\ fix_schema_types_recursive (S n) None y = Some y).
Proof.
  exact (schema_fix_idempotent None contract_call_schema (or_introl eq_refl)).
Defined.

(** C9 as stated fails: without aggressive mode and with [array] as the
    fallback type, the first pass makes an array without [items], and the
    second pass adds the [items]. *)
Lemma array_fallback_not_idempotent :
  fix_schema_types_recursive 4 (Some array_fallback)
    (PDict [(KStr "type", PList [PStr "string"; PStr "null"])])
  = Some (PDict [(KStr "type", PStr "array")])
  /\ fix_schema_types_recursive 4 (Some array_fallback)
       (PDict [(KStr "type", PStr "array")])
     = Some (PDict [(KStr "type", PStr "array");
                    (KStr "items", PDict [(KStr "type", PStr "string")])])
  /\ PDict [(KStr "type", PStr "array");
            (KStr "items", PDict [(KStr "type", PStr "string")])]
     <> PDict [(KStr "type", PStr "array")].
Proof. repeat split; [reflexivity.. | discriminate]. Qed.

End SchemaFacts.

(* ===================================================================== *)
(** ** Further properties of the task manager *)
(* ===================================================================== *)

Module StoreFacts.
Import Text Py TaskManager Props PyFacts JsonFacts TaskManagerFacts.

(** *** Validation *)

(** X1. A request whose accepted output modes are not compatible gets the
    error response for its id from [on_send_task] and from
    [on_send_task_subscribe]; the store is left as it was (no task is
    created) and the outcome does not depend on the agent. *)
Theorem incompatible_modes_rejected env request tasks :
  are_modalities_compatible env (acceptedOutputModes (params request))
    SUPPORTED_CONTENT_TYPES = false ->
  on_send_task env request tasks
  = (Ok (new_incompatible_types_error (request_id request)), tasks)
  /\ on_send_task_subscribe env request tasks
     = (Ok (inl (new_incompatible_types_error (request_id request))), tasks)
  /\ forall agent,
       on_send_task {| are_modalities_compatible := are_modalities_compatible env;
                       fresh_status := fresh_status env;
                       loop_running := loop_running env;
                       agent_invoke := agent |} request tasks
       = on_send_task env request tasks.
Proof.
  intros H. unfold on_send_task, on_send_task_subscribe, _validate_request.
  cbn [are_modalities_compatible]. rewrite H. repeat split.
Qed.

Lemma incompatible_modes_rejected_witness :
  on_send_task (server_env (answers (PStr "ok"))) image_request ∅
  = (Ok (new_incompatible_types_error "request-2"), ∅).
Proof.
  exact (proj1 (incompatible_modes_rejected (server_env (answers (PStr "ok")))
                  image_request ∅ eq_refl)).
Defined.

(** *** The store *)

(** X2. The edges of [_update_store]: for an id that is not in the store
    it raises [ValueError] and changes nothing; with [artifacts=None] it
    replaces the status and leaves the artifacts as they are, [None]
    included. No other task is touched. *)
Theorem update_store_edges tid st tasks :
  match tasks !! tid with
  | None =>
      forall new,
        _update_store tid st new tasks
        = (Raise (ValueError ("Task " ++ tid ++ " not found")), tasks)
  | Some task =>
      exists task' tasks',
        _update_store tid st None tasks = (Ok task', tasks')
        /\ tasks' !! tid = Some task'
        /\ status task' = st
        /\ artifacts task' = artifacts task
        /\ task_id task' = task_id task
        /\ forall other, other <> tid -> tasks' !! other = tasks !! other
  end.
Proof.
  destruct (tasks !! tid) as [task|] eqn:E.
  - unfold _update_store. rewrite E. eexists _, _. split; [reflexivity|].
    split; [apply lookup_insert_eq|]. repeat split.
    intros other Ho. apply lookup_insert_ne. congruence.
  - intros new. apply update_store_missing, E.
Qed.

(** X3. Two updates of a task in a row: the status is the one of the second
    update, the artifacts are the old ones, then those of the first
    update, then those of the second, in order; the other tasks are as
    they were. *)
Theorem update_store_twice tid st1 new1 st2 new2 tasks task :
  tasks !! tid = Some task ->
  exists task1 tasks1 task2 tasks2,
    _update_store tid st1 (Some new1) tasks = (Ok task1, tasks1)
    /\ _update_store tid st2 (Some new2) tasks1 = (Ok task2, tasks2)
    /\ tasks2 !! tid = Some task2
    /\ status task2 = st2
    /\ artifact_list task2 = (artifact_list task ++ new1 ++ new2)%list
    /\ forall other, other <> tid -> tasks2 !! other = tasks !! other.
Proof.
  intros E. eexists _, _, _, _.
  split; [apply update_store_found, E|].
  split; [apply update_store_found, lookup_insert_eq|].
  split; [apply lookup_insert_eq|]. split; [reflexivity|].
  split.
  - cbn [artifact_list updated artifacts]. rewrite <- app_assoc. reflexivity.
  - intros other Ho. rewrite !lookup_insert_ne by congruence. reflexivity.
Qed.

Lemma update_store_twice_witness :
  exists task1 tasks1 task2 tasks2,
    _update_store "task-1" (agent_status INPUT_REQUIRED [TextPart "MISSING_INFO: address"])
      (Some [{| artifact_parts := [TextPart "MISSING_INFO: address"] |}])
      {[ "task-1" := fresh_task ]} = (Ok task1, tasks1)
    /\ _update_store "task-1" (agent_status COMPLETED [TextPart "Balance: 1.5 ETH"])
         (Some [{| artifact_parts := [TextPart "Balance: 1.5 ETH"] |}]) tasks1
       = (Ok task2, tasks2)
    /\ tasks2 !! "task-1" = Some task2
    /\ status task2 = agent_status COMPLETED [TextPart "Balance: 1.5 ETH"]
    /\ artifact_list task2
       = (artifact_list fresh_task
          ++ [{| artifact_parts := [TextPart "MISSING_INFO: address"] |}]
          ++ [{| artifact_parts := [TextPart "Balance: 1.5 ETH"] |}])%list
    /\ forall other, other <> "task-1" ->
                     tasks2 !! other
                     = ({[ "task-1" := fresh_task ]} : gmap string Task) !! other.
Proof.
  exact (update_store_twice "task-1" _ _ _ _ {[ "task-1" := fresh_task ]} fresh_task
           eq_refl).
Defined.

(** *** The classifier *)

Lemma classify_one_part r ps : classify r = Ok ps -> exists p, ps = [p].
Proof.
  assert (Hk : forall (X : Result (list Part)) ps,
             (forall ps', X = Ok ps' -> exists p, ps' = [p]) ->
             match X with
             | Raise e => if is_decode_or_type_error e
                          then Ok [TextPart (py_str r)] else Raise e
             | x => x
             end = Ok ps -> exists p, ps = [p]).
  { intros [ps0|e] ps' HX.
    - intros H. apply HX, H.
    - destruct (is_decode_or_type_error e); [intros [= <-]; eauto | discriminate]. }
  assert (Hd : forall (m : Result pyval) ps',
             rbind m (fun j => Ok [DataPart j]) = Ok ps' -> exists p, ps' = [p]).
  { intros [j|e] ps'; cbn [rbind]; [intros [= <-]; eauto | discriminate]. }
  destruct r; try discriminate;
    try (unfold classify; cbv zeta; apply Hk; apply Hd).
  destruct (startswith s "{" || startswith s "[") eqn:E.
  - rewrite (classify_structured_string _ E). intros [= <-]. eauto.
  - apply orb_false_iff in E as [E1 E2]. rewrite (classify_plain _ E1 E2).
    intros [= <-]. eauto.
Qed.


(** X5. A dict or a list that [json.dumps] cannot write (a key that is
    neither a string nor a number) is reported as text: the single part
    is the [TextPart] of its string form. *)
Theorem unencodable_container_becomes_text r e :
  is_dict r || is_list r = true ->
  Json.dumps r = Raise e ->
  classify r = Ok [TextPart (py_str r)].
Proof.
  intros Hc Hd. destruct (dumps_raises_type_error _ _ Hd) as [m ->].
  unfold classify. destruct r; try discriminate Hc; rewrite Hd; reflexivity.
Qed.

Lemma unencodable_container_becomes_text_witness :
  classify pair_keyed = Ok [TextPart "{(1, 2): 'edge'}"].
Proof.
  exact (unencodable_container_becomes_text pair_keyed
           (TypeError "keys must be str, int, float, bool or None, not tuple")
           eq_refl eq_refl).
Defined.

Lemma loads_container s v :
  startswith s "{" || startswith s "[" = true ->
  Json.loads s = Some v -> is_dict v || is_list v = true.
Proof.
  intros Hs. unfold Json.loads.
  destruct s as [|c s]; [discriminate Hs|].
  destruct c as [[] [] [] [] [] [] [] []]; try discriminate Hs;
    match goal with
    | |- context [Json.skip_ws (String ?c s)] =>
        change (Json.skip_ws (String c s)) with (String c s)
    end;
    rewrite scan_value_S; cbn [Ascii.eqb Bool.eqb dquote]; cbv iota;
    match goal with
    | |- context [head_is ?c ?x] => destruct (head_is c x) as [rest|]
    end.
  - destruct (Json.skip_ws rest); [intros [= <-]; reflexivity | discriminate].
  - destruct (Json.scan_members _ _) as [[pairs rest]|]; [|discriminate].
    destruct (Json.skip_ws rest); [intros [= <-]; reflexivity | discriminate].
  - destruct (Json.skip_ws rest); [intros [= <-]; reflexivity | discriminate].
  - destruct (Json.scan_elements _ _) as [[vs rest]|]; [|discriminate].
    destruct (Json.skip_ws rest); [intros [= <-]; reflexivity | discriminate].
Qed.

(** X6. A string that begins with a brace or a bracket and that
    [json.loads] accepts is reported as data: the single part is the
    [DataPart] of the value read, which is a dict or a list. *)
Theorem json_text_becomes_data s v :
  startswith s "{" || startswith s "[" = true ->
  Json.loads s = Some v ->
  classify (PStr s) = Ok [DataPart v] /\ is_dict v || is_list v = true.
Proof.
  intros Hs Hl. split; [|apply (loads_container s v Hs Hl)].
  rewrite (classify_structured_string _ Hs), Hl. reflexivity.
Qed.

Lemma json_text_becomes_data_witness :
  classify (PStr balance_json) = Ok [DataPart balance_payload]
  /\ is_dict balance_payload || is_list balance_payload = true.
Proof.
  exact (json_text_becomes_data balance_json balance_payload eq_refl eq_refl).
Defined.

(** *** The pipeline on the server *)

(** X7. On the server (an event loop is running) no failure of the
    pipeline is recorded in the task: when the agent raises, times out or
    returns [None], or when the classification raises, [on_send_task]
    raises [ValueError] with the error text behind [Error invoking agent: ],
    and the store is as [upsert_task] left it. *)
Theorem pipeline_failure_on_server env request tasks q direct msg :
  loop_running env = true ->
  validated env request ->
  _get_user_query (params request) = Ok q ->
  pipeline_error env q (sessionId (params request)) = Some (direct, msg) ->
  on_send_task env request tasks
  = (Raise (ValueError ("Error invoking agent: " ++ msg)),
     upserted env (params request) tasks).
Proof.
  intros Hl Hv Hq. rewrite (on_send_task_validated _ _ _ Hv). unfold pipeline_error.
  destruct (agent_invoke env q (sessionId (params request))) as [r|e] eqn:Ha.
  - assert (Hcases : r = PNone \/ r <> PNone) by (destruct r; auto; right; discriminate).
    destruct Hcases as [-> | Hr].
    + intros [= <- <-]. rewrite (invoke_none _ _ _ _ Hq Ha).
      apply create_error_response_running, Hl.
    + intros H.
      assert (H' : match classify r with
                   | Ok _ => None
                   | Raise e => Some (false, exn_str e)
                   end = Some (direct, msg)) by (destruct r; congruence).
      destruct (classify r) as [ps|e] eqn:Hc; [discriminate H'|].
      injection H' as <- <-. rewrite (invoke_unclassified _ _ _ _ _ _ Hq Ha Hr Hc).
      apply create_error_response_running, Hl.
  - destruct (is_timeout e) eqn:Ht.
    + intros [= <- <-]. destruct e; try discriminate Ht.
      rewrite (invoke_timeout _ _ _ _ _ Hq Ha).
      rewrite (create_error_response_running _ _ _ _ _ Hl).
      apply create_error_response_running, Hl.
    + intros [= <- <-]. rewrite (invoke_raised _ _ _ _ _ Hq Ha Ht).
      apply create_error_response_running, Hl.
Qed.

Lemma pipeline_failure_on_server_witness :
  on_send_task number_request_env balance_request ∅
  = (Raise (ValueError
              "Error invoking agent: 'int' object has no attribute 'startswith'"),
     {[ "task-1" := fresh_task ]}).
Proof.
  exact (pipeline_failure_on_server number_request_env balance_request ∅
           "What is my balance?" false "'int' object has no attribute 'startswith'"
           eq_refl eq_refl eq_refl eq_refl).
Defined.

(** X8. Every task that [on_send_task] returns carries exactly one part:
    its status message is the agent's, with that part alone, its last
    artifact holds the same part alone, its state is never [FAILED], and
    it is the task stored under the id of the request. *)
Theorem one_part_per_response env request tasks resp tasks' task :
  on_send_task env request tasks = (Ok resp, tasks') ->
  result resp = Some task ->
  exists st p,
    status task = agent_status st [p]
    /\ st <> FAILED
    /\ list.last (artifact_list task) = Some {| artifact_parts := [p] |}
    /\ tasks' !! id (params request) = Some task.
Proof.
  intros Hrun Hres.
  assert (Hout : forall st ps,
             responded request (upserted env (params request) tasks) st ps
               (on_send_task env request tasks) ->
             st <> FAILED -> (exists p, ps = [p]) ->
             exists st p,
               status task = agent_status st [p]
               /\ st <> FAILED
               /\ list.last (artifact_list task) = Some {| artifact_parts := [p] |}
               /\ tasks' !! id (params request) = Some task).
  { intros st ps (t & Ht & Heq) Hst [p ->]. rewrite Hrun in Heq.
    injection Heq as -> ->. cbn [result task_response] in Hres. injection Hres as <-.
    exists st, p. split; [reflexivity|]. split; [exact Hst|].
    split; [|apply lookup_insert_eq].
    cbn [artifact_list updated artifacts]. apply last_snoc. }
  destruct (are_modalities_compatible env (acceptedOutputModes (params request))
              SUPPORTED_CONTENT_TYPES) eqn:Hv.
  2: { unfold on_send_task, _validate_request in Hrun. rewrite Hv in Hrun.
       injection Hrun as <- <-. discriminate Hres. }
  destruct (_get_user_query (params request)) as [q|e] eqn:Hq.
  2: { rewrite (on_send_task_validated _ _ _ Hv), (invoke_no_query _ _ _ _ Hq) in Hrun.
       discriminate Hrun. }
  pose proof (on_send_task_cases env request tasks q Hv Hq) as H.
  destruct (pipeline_error env q (sessionId (params request))) as [[direct msg]|].
  - destruct H as [H | H]; [|rewrite Hrun in H; discriminate H].
    apply (Hout _ _ H); [discriminate | eauto].
  - destruct H as (r & ps & _ & Hc & H).
    apply (Hout _ _ H); [|apply (classify_one_part _ _ Hc)].
    unfold task_state_of. destruct (contains _ _); discriminate.
Qed.

Lemma one_part_per_response_witness :
  exists st p,
    status balance_task = agent_status st [p]
    /\ st <> FAILED
    /\ list.last (artifact_list balance_task) = Some {| artifact_parts := [p] |}
    /\ (<["task-1" := balance_task]> {[ "task-1" := fresh_task ]} : gmap string Task)
         !! "task-1" = Some balance_task.
Proof.
  exact (one_part_per_response (server_env (answers (PStr "Balance: 1.5 ETH")))
           balance_request {[ "task-1" := fresh_task ]}
           (task_response "request-1" balance_task)
           (<["task-1" := balance_task]> {[ "task-1" := fresh_task ]})
           balance_task eq_refl eq_refl).
Defined.

(** X9. Only the first part of the message is read: the parts behind it,
    text or not, have no influence on what [_invoke] does. *)
Theorem later_parts_ignored env request tasks p rest rest' :
  _invoke env (with_parts request (p :: rest)) tasks
  = _invoke env (with_parts request (p :: rest')) tasks.
Proof.
  unfold _invoke, _get_user_query, with_parts. cbn [params params_message parts].
  destruct p as [t | f | d]; reflexivity.
Qed.

(** *** [_safe_json_parse] *)

(** X10. [_safe_json_parse] undoes [json.dumps] on JSON data: applied to
    the text that [json.dumps] writes for a value, it gives the value
    back, a string included; a string that is no JSON text and a value
    that is no string are returned as they are. *)
Theorem safe_json_parse_round_trip v t :
  json_data v = true ->
  Json.dumps v = Ok t ->
  _safe_json_parse (PStr t) = v
  /\ (forall s, Json.loads s = None -> _safe_json_parse (PStr s) = PStr s)
  /\ (forall x, is_str x = false -> _safe_json_parse x = x).
Proof.
  intros Hd Ht. destruct (loads_dumps v Hd) as (t' & Ht' & Hl).
  assert (t' = t) as -> by congruence. split; [|split].
  - unfold _safe_json_parse, json_loads. rewrite Hl. reflexivity.
  - intros s Hs. unfold _safe_json_parse, json_loads. rewrite Hs. reflexivity.
  - intros x Hx. destruct x; try reflexivity. discriminate Hx.
Qed.

Lemma safe_json_parse_round_trip_witness :
  _safe_json_parse (PStr balance_json) = balance_payload.
Proof.
  exact (proj1 (safe_json_parse_round_trip balance_payload balance_json
                  eq_refl eq_refl)).
Defined.

End StoreFacts.

(* ===================================================================== *)
(** ** The agent behind the task manager *)
(* ===================================================================== *)

Module ServingFacts.
Import Text Py TaskManager Agent Props PyFacts JsonFacts TaskManagerFacts AgentFacts.

(** *** The events that count *)

Lemma stream_tool_response_app pre post :
  stream_tool_response (pre ++ post)
  = match stream_tool_response pre with
    | Some payload => Some payload
    | None => stream_tool_response post
    end.
Proof.
  induction pre as [|event pre IH]; [reflexivity|].
  cbn [app stream_tool_response]. destruct (event_tool_response event); [reflexivity|].
  exact IH.
Qed.

Lemma texts_of_app pre post : texts_of (pre ++ post) = (texts_of pre ++ texts_of post)%list.
Proof. unfold texts_of. apply flat_map_app. Qed.

Lemma silent_event event :
  silent event = true ->
  event_tool_response event = None /\ texts_of [event] = [].
Proof.
  unfold silent, texts_of. cbn [flat_map]. rewrite app_nil_r.
  destruct (event_tool_response event); [discriminate|].
  destruct (omap part_text (event_parts event)); [auto | discriminate].
Qed.

(** X11. An event without tool response and without text (no content, no
    parts, empty texts, tool calls only) has no influence on what
    [invoke] returns, wherever it stands in the stream. *)
Theorem silent_events_ignored run_async run_async' self query session_id
        pre event post ending :
  silent event = true ->
  run_async session_id query = {| events := pre ++ event :: post; failure := ending |} ->
  run_async' session_id query = {| events := pre ++ post; failure := ending |} ->
  invoke run_async self query session_id = invoke run_async' self query session_id.
Proof.
  intros Hs H1 H2. destruct (silent_event _ Hs) as [Ht Hx].
  assert (Hc : consume (run_async session_id query) = consume (run_async' session_id query)).
  { rewrite H1, H2. unfold consume. cbn [events failure]. rewrite !consume_stream.
    change (event :: post) with ([event] ++ post)%list.
    rewrite !stream_tool_response_app, !texts_of_app, Hx.
    cbn [stream_tool_response]. rewrite Ht. reflexivity. }
  unfold invoke. rewrite Hc. reflexivity.
Qed.

Lemma silent_events_ignored_witness :
  invoke balance_stream ready_agent "What is my balance?" "session-1"
  = invoke (fun _ _ => {| events := [text_event "Checking the balance";
                                     tool_event balance_payload];
                          failure := None |})
      ready_agent "What is my balance?" "session-1".
Proof.
  exact (silent_events_ignored balance_stream _ ready_agent "What is my balance?"
           "session-1" [text_event "Checking the balance"] call_event
           [tool_event balance_payload] None eq_refl eq_refl eq_refl).
Defined.

(** *** The agent behind the task manager *)

Lemma agent_of_initialized run_async self query session_id :
  initialized self ->
  agent_of run_async self query session_id
  = match stream_tool_response (events (run_async session_id query)) with
    | Some payload => Ok (PStr (serialize_response payload))
    | None =>
        match failure (run_async session_id query) with
        | Some e => Ok (PStr (failure_text e))
        | None =>
            Ok (PStr match list.last (texts_of (events (run_async session_id query))) with
                     | Some t => t
                     | None => "No usable response received"
                     end)
        end
    end.
Proof.
  intros Hi. unfold agent_of. rewrite (invoke_initialized _ _ _ _ Hi).
  unfold consume. rewrite consume_stream.
  destruct (stream_tool_response _); [reflexivity|].
  destruct (failure _) as [e|]; [destruct e; reflexivity|].
  destruct (list.last _); reflexivity.
Qed.

Lemma prefix_empty x : String.prefix EmptyString x = true.
Proof. destruct x; reflexivity. Qed.

Lemma dumps_container_start v t :
  is_dict v || is_list v = true -> Json.dumps v = Ok t ->
  startswith t "{" || startswith t "[" = true.
Proof.
  intros Hc Hd. destruct v; try discriminate Hc.
  - destruct (dumps_list_inv _ _ Hd) as (ts & _ & ->).
    rewrite append_cons. unfold startswith. cbn [String.prefix].
    destruct (ascii_dec "[" "["); [rewrite prefix_empty; apply orb_true_r | congruence].
  - destruct (dumps_dict_inv _ _ Hd) as (ts & _ & ->).
    rewrite append_cons. unfold startswith. cbn [String.prefix].
    destruct (ascii_dec "{" "{"); [rewrite prefix_empty; reflexivity | congruence].
Qed.

Lemma serialize_container v t :
  is_dict v || is_list v = true -> Json.dumps v = Ok t -> serialize_response v = t.
Proof.
  intros Hc Hd. unfold serialize_response.
  destruct v; try discriminate Hc; rewrite Hd; reflexivity.
Qed.

Lemma on_send_task_answer env request tasks q r ps :
  validated env request ->
  _get_user_query (params request) = Ok q ->
  agent_invoke env q (sessionId (params request)) = Ok r ->
  r <> PNone ->
  classify r = Ok ps ->
  exists task,
    on_send_task env request tasks
    = (Ok (task_response (request_id request) task),
       <[id (params request) := task]> (upserted env (params request) tasks))
    /\ status task = agent_status (task_state_of r) ps
    /\ list.last (artifact_list task) = Some {| artifact_parts := ps |}.
Proof.
  intros Hv Hq Ha Hr Hc. rewrite (on_send_task_validated _ _ _ Hv).
  destruct (upserted_lookup env (params request) tasks) as (t & Ht & _).
  rewrite (invoke_returned _ _ _ _ _ _ _ Hq Ha Hr Hc Ht).
  eexists. split; [reflexivity|]. split; [reflexivity|].
  cbn [artifact_list updated artifacts]. apply last_snoc.
Qed.

(** X12. From the tool to the client. When the agent is initialized and
    answers within the bound, and the first tool response of the stream
    is a dict or a list of JSON data, [on_send_task] returns the task
    with that payload as its single [DataPart]: [invoke] writes the
    payload with [json.dumps], and the classifier reads it back. The
    state is decided by the sentinel in the JSON text. *)
Theorem tool_response_reaches_client env run_async self request tasks q payload :
  validated env request ->
  _get_user_query (params request) = Ok q ->
  (forall query sid, agent_invoke env query sid = agent_of run_async self query sid) ->
  initialized self ->
  stream_tool_response (events (run_async (sessionId (params request)) q))
  = Some payload ->
  json_data payload = true ->
  is_dict payload || is_list payload = true ->
  exists task t,
    fst (on_send_task env request tasks) = Ok (task_response (request_id request) task)
    /\ Json.dumps payload = Ok t
    /\ status task = agent_status (task_state_of (PStr t)) [DataPart payload]
    /\ list.last (artifact_list task) = Some {| artifact_parts := [DataPart payload] |}.
Proof.
  intros Hv Hq Hw Hi Hs Hd Hc.
  destruct (loads_dumps payload Hd) as (t & Ht & Hl).
  assert (Ha : agent_invoke env q (sessionId (params request)) = Ok (PStr t)).
  { rewrite Hw, (agent_of_initialized _ _ _ _ Hi), Hs, (serialize_container _ _ Hc Ht).
    reflexivity. }
  assert (Hp : classify (PStr t) = Ok [DataPart payload]).
  { rewrite (classify_structured_string _ (dumps_container_start _ _ Hc Ht)), Hl.
    reflexivity. }
  destruct (on_send_task_answer env request tasks q (PStr t) _ Hv Hq Ha
              ltac:(discriminate) Hp) as (task & Hrun & Hst & Hart).
  exists task, t. rewrite Hrun. auto.
Qed.

Lemma tool_response_reaches_client_witness :
  exists task t,
    fst (on_send_task (server_env (agent_of balance_stream ready_agent))
           balance_request ∅) = Ok (task_response "request-1" task)
    /\ Json.dumps balance_payload = Ok t
    /\ status task = agent_status (task_state_of (PStr t)) [DataPart balance_payload]
    /\ list.last (artifact_list task)
       = Some {| artifact_parts := [DataPart balance_payload] |}.
Proof.
  refine (tool_response_reaches_client
            (server_env (agent_of balance_stream ready_agent)) balance_stream
            ready_agent balance_request ∅ "What is my balance?" balance_payload
            eq_refl eq_refl (fun _ _ => eq_refl) _ eq_refl eq_refl eq_refl).
  split; eexists; reflexivity.
Defined.

Lemma failure_text_plain e :
  startswith (failure_text e) "{" = false /\ startswith (failure_text e) "[" = false.
Proof. destruct e; split; reflexivity. Qed.

(** X13. A failure of the agent's stream reaches the client as a task,
    not as an error. When the agent is initialized and the stream raises
    before any tool response, [on_send_task] returns the task with the
    single [TextPart] that [invoke] made of the exception: [Query timed out]
    for an [asyncio.TimeoutError], the message behind [Error: ] for any
    other; the text collected before the failure is lost. *)
Theorem stream_failure_reaches_client env run_async self request tasks q e :
  validated env request ->
  _get_user_query (params request) = Ok q ->
  (forall query sid, agent_invoke env query sid = agent_of run_async self query sid) ->
  initialized self ->
  stream_tool_response (events (run_async (sessionId (params request)) q)) = None ->
  failure (run_async (sessionId (params request)) q) = Some e ->
  exists task,
    fst (on_send_task env request tasks) = Ok (task_response (request_id request) task)
    /\ status task
       = agent_status (task_state_of (PStr (failure_text e))) [TextPart (failure_text e)]
    /\ list.last (artifact_list task)
       = Some {| artifact_parts := [TextPart (failure_text e)] |}.
Proof.
  intros Hv Hq Hw Hi Hs Hf.
  assert (Ha : agent_invoke env q (sessionId (params request)) = Ok (PStr (failure_text e))).
  { rewrite Hw, (agent_of_initialized _ _ _ _ Hi), Hs, Hf. reflexivity. }
  destruct (failure_text_plain e) as [H1 H2].
  destruct (on_send_task_answer env request tasks q _ _ Hv Hq Ha
              ltac:(discriminate) (classify_plain _ H1 H2)) as (task & Hrun & Hst & Hart).
  exists task. rewrite Hrun. auto.
Qed.

Lemma stream_failure_reaches_client_witness :
  exists task,
    fst (on_send_task
           (server_env (agent_of (failing_stream (OtherError "ConnectionError"
                                                    "connection lost")) ready_agent))
           balance_request ∅) = Ok (task_response "request-1" task)
    /\ status task
       = agent_status (task_state_of (PStr "Error: connection lost"))
           [TextPart "Error: connection lost"]
    /\ list.last (artifact_list task)
       = Some {| artifact_parts := [TextPart "Error: connection lost"] |}.
Proof.
  refine (stream_failure_reaches_client
            (server_env (agent_of (failing_stream (OtherError "ConnectionError"
                                                     "connection lost")) ready_agent))
            (failing_stream (OtherError "ConnectionError" "connection lost"))
            ready_agent balance_request ∅ "What is my balance?"
            (OtherError "ConnectionError" "connection lost")
            eq_refl eq_refl (fun _ _ => eq_refl) _ eq_refl eq_refl).
  split; eexists; reflexivity.
Defined.

(** X14. An agent that was not initialized: [invoke] raises
    [RuntimeError] before it touches the session, and on the server
    [on_send_task] raises [ValueError] with that message behind
    [Error invoking agent: ]; the task stays as [upsert_task] left it. *)
Theorem uninitialized_agent_on_server env run_async self request tasks q :
  loop_running env = true ->
  validated env request ->
  _get_user_query (params request) = Ok q ->
  (forall query sid, agent_invoke env query sid = agent_of run_async self query sid) ->
  _agent self = None \/ _runner self = None ->
  (forall query sid,
     invoke run_async self query sid
     = (Raise (RuntimeError "Agent not initialized. Call initialize() first."), self))
  /\ on_send_task env request tasks
     = (Raise (ValueError
                 "Error invoking agent: Agent not initialized. Call initialize() first."),
        upserted env (params request) tasks).
Proof.
  intros Hl Hv Hq Hw Hn.
  assert (Hinv : forall query sid,
             invoke run_async self query sid
             = (Raise (RuntimeError "Agent not initialized. Call initialize() first."),
                self)).
  { intros query sid. unfold invoke.
    destruct Hn as [-> | Hr]; [reflexivity|]. rewrite Hr.
    destruct (_agent self); reflexivity. }
  split; [exact Hinv|].
  assert (Ha : agent_invoke env q (sessionId (params request))
               = Raise (RuntimeError "Agent not initialized. Call initialize() first.")).
  { rewrite Hw. unfold agent_of. rewrite Hinv. reflexivity. }
  rewrite (on_send_task_validated _ _ _ Hv), (invoke_raised _ _ _ _ _ Hq Ha eq_refl).
  apply create_error_response_running, Hl.
Qed.

Lemma uninitialized_agent_on_server_witness :
  on_send_task (server_env (agent_of balance_stream new_agent)) balance_request ∅
  = (Raise (ValueError
              "Error invoking agent: Agent not initialized. Call initialize() first."),
     {[ "task-1" := fresh_task ]}).
Proof.
  exact (proj2 (uninitialized_agent_on_server
                  (server_env (agent_of balance_stream new_agent)) balance_stream
                  new_agent balance_request ∅ "What is my balance?"
                  eq_refl eq_refl eq_refl (fun _ _ => eq_refl) (or_introl eq_refl))).
Defined.

End ServingFacts.

(* ===================================================================== *)
(** ** Further properties of the schema fixers *)
(* ===================================================================== *)

Module FixerFacts.
Import Text Py Schema Props PyFacts SchemaFacts.

(** *** No list-valued [type] is left *)

Lemma retyped_scalar v : is_dict v = false -> is_list v = false -> retyped v = true.
Proof. destruct v; intros H1 H2; try reflexivity; discriminate. Qed.

Lemma retyped_on_container f :
  (forall v v', f v = Some v' -> retyped v' = true) ->
  forall v v', on_container f v = Some v' -> retyped v' = true.
Proof.
  intros Hf v v'. unfold on_container.
  destruct v; try (intros [= <-]; reflexivity); apply Hf.
Qed.

Lemma retyped_mapM (f : pyval -> option pyval) l l' :
  (forall v v', f v = Some v' -> retyped v' = true) ->
  mapM f l = Some l' -> forallb retyped l' = true.
Proof.
  intros Hf. rewrite mapM_Some. intros H.
  induction H as [|x y l l' Hx Hl IH]; [reflexivity|].
  cbn [forallb]. rewrite (Hf _ _ Hx), IH. reflexivity.
Qed.

Lemma retyped_for_values f d d' :
  (forall v v', f v = Some v' -> retyped v' = true) ->
  for_values f d = Some d' -> forallb (fun kv => retyped (snd kv)) d' = true.
Proof.
  intros Hf H. apply for_values_inv in H.
  induction H as [|x y l l' [_ Hx] Hl IH]; [reflexivity|].
  cbn [forallb]. rewrite (Hf _ _ Hx), IH. reflexivity.
Qed.

Lemma type_is_list_coerced options d :
  type_is_list (coerce_items options (coerce_enum options (coerce_type options d))) = false.
Proof.
  unfold coerce_items. destruct (aggressive options).
  - rewrite type_is_list_add_items, type_is_list_coerce_enum.
    apply type_is_list_coerce_type.
  - rewrite type_is_list_coerce_enum. apply type_is_list_coerce_type.
Qed.

Lemma retyped_fix_schema_body options openai self :
  openai_result openai -> kind_preserving self ->
  (forall v v', self v = Some v' -> retyped v' = true) ->
  forall v v', fix_schema_body openai self options v = Some v' -> retyped v' = true.
Proof.
  intros Ho Hk Hs v v'. unfold fix_schema_body.
  destruct v; try (intros [= <-]; reflexivity).
  - destruct (mapM (on_container self) l) as [l'|] eqn:Hm; [|discriminate].
    cbn. intros [= <-]. cbn [retyped].
    apply (retyped_mapM _ _ _ (retyped_on_container _ Hs) Hm).
  - destruct (openai (PDict d)) as [obj1|] eqn:H1; [|discriminate]. cbn.
    destruct (Ho _ _ H1) as (d1 & -> & _).
    destruct (for_values _ _) as [d2|] eqn:H2; [|discriminate]. cbn. intros [= <-].
    cbn [retyped].
    rewrite (type_is_list_for_values _ _ _ (kind_on_container _ Hk) H2).
    rewrite type_is_list_coerced.
    apply (retyped_for_values _ _ _ (retyped_on_container _ Hs) H2).
Qed.

Lemma retyped_fix_schema options n v v' :
  fix_schema_types_recursive n (Some options) v = Some v' -> retyped v' = true.
Proof.
  revert v v'. induction n as [|n IH]; [discriminate|].
  apply (retyped_fix_schema_body options _ _ (openai_result_fix_openai n)
           (kind_fix_schema n _) IH).
Qed.

(** X15. What [fix_schema_types_recursive] achieves. Whatever the
    options, no dict of the result has a list as its [type]. With
    aggressive mode on or a fallback type other than [array], the result
    is a fixed schema: in addition every [array] has [items] and, in
    aggressive mode, every [enum] holds strings only. The call returns
    when the depth of calls allowed exceeds the height of the schema. *)
Theorem schema_fix_result (options : option SchemaFixOptions) (x : pyval) :
  (forall n y,
      fix_schema_types_recursive n options x = Some y ->
      retyped y = true
      /\ (stable_options (resolved options) -> normal (resolved options) y = true))
  /\ (forall n, (height x < n)%nat ->
                exists y, fix_schema_types_recursive (S n) options x = Some y).
Proof.
  split.
  - intros n y. rewrite fix_schema_resolved. intros Hy. split.
    + apply (retyped_fix_schema _ _ _ _ Hy).
    + intros Hst. apply (normalizes_fix_schema _ n Hst x y Hy).
  - intros n Hn. rewrite fix_schema_resolved.
    destruct (returns_fix_schema n (resolved options) x Hn) as (y & Hy & _). eauto.
Qed.

(** X16. A schema that needs no fix is returned as it is, whatever the
    options: when no dict has a list as its [type], every [array] has
    [items] and (in aggressive mode) the enums hold strings, no pass of
    [fix_schema_types_recursive] changes anything. *)
Theorem fixed_schema_unchanged (options : option SchemaFixOptions) (x : pyval) :
  normal (resolved options) x = true ->
  (forall n y, fix_schema_types_recursive n options x = Some y -> y = x)
  /\ (forall n, (height x < n)%nat ->
                fix_schema_types_recursive (S n) options x = Some x).
Proof.
  intros Hx.
  assert (Hk : forall n y, fix_schema_types_recursive n options x = Some y -> y = x).
  { intros n y. rewrite fix_schema_resolved.
    apply (keeps_fix_schema (resolved options) n x y Hx). }
  split; [exact Hk|]. intros n Hn.
  destruct (returns_fix_schema n (resolved options) x Hn) as (y & Hy & _).
  rewrite <- fix_schema_resolved in Hy. rewrite Hy. f_equal. apply (Hk _ _ Hy).
Qed.

Lemma fixed_schema_unchanged_witness :
  (forall n y, fix_schema_types_recursive n None transfer_schema = Some y ->
               y = transfer_schema)
  /\ (forall n, (height transfer_schema < n)%nat ->
                fix_schema_types_recursive (S n) None transfer_schema
                = Some transfer_schema).
Proof.
  exact (fixed_schema_unchanged None transfer_schema eq_refl).
Defined.

(** *** Keys *)

Lemma keys_dict_set k v d :
  keys (dict_set k v d) = if dict_has k d then keys d else (keys d ++ [KStr k])%list.
Proof.
  induction d as [|[[k'|z|c r] w] d IH]; cbn [dict_set dict_has keys List.map fst app];
    [reflexivity| | |].
  - destruct (String.eqb k k') eqn:E; cbn [orb keys List.map fst]; [reflexivity|].
    fold (keys (dict_set k v d)). rewrite IH. destruct (dict_has k d); reflexivity.
  - fold (keys (dict_set k v d)). rewrite IH. destruct (dict_has k d); reflexivity.
  - fold (keys (dict_set k v d)). rewrite IH. destruct (dict_has k d); reflexivity.
Qed.

Lemma keys_dict_set_present k v d w :
  dict_get k d = Some w -> keys (dict_set k v d) = keys d.
Proof. intros H. rewrite keys_dict_set, dict_has_get, H. reflexivity. Qed.

Lemma keys_for_values f d d' : for_values f d = Some d' -> keys d' = keys d.
Proof.
  intros H. apply for_values_inv in H.
  induction H as [|x y l l' [Hk _] Hl IH]; [reflexivity|].
  cbn [keys List.map]. fold (keys l) (keys l'). rewrite Hk, IH. reflexivity.
Qed.

Lemma array_without_items_has d : array_without_items d = true -> dict_has "items" d = false.
Proof.
  unfold array_without_items.
  destruct (dict_get "type" d) as [[ | | | |t| | | ]|]; try discriminate.
  destruct (String.eqb t "array"); [|discriminate].
  destruct (dict_has "items" d); [discriminate | reflexivity].
Qed.

Lemma has_items_array d : dict_has "items" d = true -> array_without_items d = false.
Proof.
  intros H. destruct (array_without_items d) eqn:E; [|reflexivity].
  apply array_without_items_has in E. congruence.
Qed.

Lemma keys_add_items d :
  keys (add_items d)
  = if array_without_items d then (keys d ++ [KStr "items"])%list else keys d.
Proof.
  unfold add_items. destruct (array_without_items d) eqn:E; [|reflexivity].
  rewrite keys_dict_set, (array_without_items_has _ E). reflexivity.
Qed.

Lemma keys_fix_properties f d d' : fix_properties f d = Some d' -> keys d' = keys d.
Proof.
  unfold fix_properties.
  destruct (dict_get "properties" d) as [[ | | | | | |props| ]|] eqn:Hp;
    try (intros [= <-]; reflexivity).
  destruct (for_values (on_dict f) (fix_args props)); [|discriminate].
  cbn. intros [= <-]. apply (keys_dict_set_present _ _ _ _ Hp).
Qed.

Lemma keys_coerce_type options d : keys (coerce_type options d) = keys d.
Proof.
  unfold coerce_type.
  destruct (dict_get "type" d) as [[ | | | | |l| | ]|] eqn:E; try reflexivity.
  apply (keys_dict_set_present _ _ _ _ E).
Qed.

Lemma keys_coerce_enum options d : keys (coerce_enum options d) = keys d.
Proof.
  unfold coerce_enum. destruct (aggressive options); [|reflexivity].
  destruct (dict_get "enum" d) as [[ | | | | |l| | ]|] eqn:E; try reflexivity.
  apply (keys_dict_set_present _ _ _ _ E).
Qed.

Lemma has_items_coerce_type options d :
  dict_has "items" (coerce_type options d) = dict_has "items" d.
Proof.
  unfold coerce_type.
  destruct (dict_get "type" d) as [[ | | | | |l| | ]|]; try reflexivity.
  rewrite dict_has_set. reflexivity.
Qed.

Lemma has_items_coerce_enum options d :
  dict_has "items" (coerce_enum options d) = dict_has "items" d.
Proof.
  unfold coerce_enum. destruct (aggressive options); [|reflexivity].
  destruct (dict_get "enum" d) as [[ | | | | |l| | ]|]; try reflexivity.
  rewrite dict_has_set. reflexivity.
Qed.

Lemma has_items_fix_properties f d d' :
  fix_properties f d = Some d' -> dict_has "items" d' = dict_has "items" d.
Proof.
  unfold fix_properties.
  destruct (dict_get "properties" d) as [[ | | | | | |props| ]|] eqn:Hp;
    try (intros [= <-]; reflexivity).
  destruct (for_values (on_dict f) (fix_args props)); [|discriminate].
  cbn. intros [= <-]. rewrite dict_has_set. reflexivity.
Qed.

(** the keys of what [fix_openai_validation_errors] returns for a dict *)
Lemma keys_fix_openai_body f d y :
  fix_openai_body f (PDict d) = Some y ->
  exists d', y = PDict d'
             /\ keys d' = keys (add_items d)
             /\ dict_has "items" d' = dict_has "items" (add_items d).
Proof.
  unfold fix_openai_body.
  destruct (fix_properties f (add_items d)) as [d1|] eqn:H1; [|discriminate]. cbn.
  destruct (for_values (fix_nested f) d1) as [d2|] eqn:H2; [|discriminate]. cbn.
  intros [= <-]. exists d2. split; [reflexivity|]. split.
  - rewrite (keys_for_values _ _ _ H2). apply (keys_fix_properties _ _ _ H1).
  - rewrite (for_values_has _ _ _ _ H2). apply (has_items_fix_properties _ _ _ H1).
Qed.

Lemma keys_fix_schema_dict options n d y :
  fix_schema_types_recursive n (Some options) (PDict d) = Some y ->
  exists d', y = PDict d'
             /\ (keys d' = keys d
                 \/ (dict_has "items" d = false
                     /\ keys d' = (keys d ++ [KStr "items"])%list)).
Proof.
  destruct n as [|n]; [discriminate|]. cbn [fix_schema_types_recursive].
  unfold fix_schema_body.
  destruct (fix_openai_validation_errors n (PDict d)) as [obj1|] eqn:H1; [|discriminate].
  cbn. destruct n as [|n]; [discriminate H1|]. cbn [fix_openai_validation_errors] in H1.
  destruct (keys_fix_openai_body _ _ _ H1) as (d1 & -> & Hk1 & Hi1).
  destruct (for_values _ _) as [d2|] eqn:H2; [|discriminate]. cbn. intros [= <-].
  exists d2. split; [reflexivity|]. rewrite (keys_for_values _ _ _ H2).
  set (c := coerce_enum options (coerce_type options d1)).
  assert (Hkc : keys c = keys d1)
    by (unfold c; rewrite keys_coerce_enum; apply keys_coerce_type).
  assert (Hic : dict_has "items" c = dict_has "items" d1)
    by (unfold c; rewrite has_items_coerce_enum; apply has_items_coerce_type).
  assert (Hci : keys (coerce_items options c) = keys c
                \/ (dict_has "items" c = false
                    /\ keys (coerce_items options c) = (keys c ++ [KStr "items"])%list)).
  { unfold coerce_items. destruct (aggressive options); [|left; reflexivity].
    rewrite keys_add_items. destruct (array_without_items c) eqn:E; [|left; reflexivity].
    right. split; [apply array_without_items_has, E | reflexivity]. }
  rewrite keys_add_items in Hk1. unfold add_items in Hi1.
  destruct (array_without_items d) eqn:Ed.
  - rewrite dict_has_set in Hi1. cbn in Hi1.
    destruct Hci as [Hci | [Hno _]]; [|congruence].
    right. split; [apply array_without_items_has, Ed|]. congruence.
  - destruct Hci as [Hci | [Hno Hci]]; [left; congruence|].
    right. split; [congruence|]. congruence.
Qed.

(** X17. [fix_schema_types_recursive] keeps the shape of what it is given.
    For a dict, the keys of the result are the keys of the dict in the
    same order, or these followed by the new key [items] when the dict
    had none; no key is removed, renamed or moved. A list keeps its
    length, and any other value is returned as it is. *)
Theorem schema_fix_keeps_keys (options : option SchemaFixOptions) n (x y : pyval) :
  fix_schema_types_recursive n options x = Some y ->
  match x with
  | PDict d =>
      exists d', y = PDict d'
                 /\ (keys d' = keys d
                     \/ (dict_has "items" d = false
                         /\ keys d' = (keys d ++ [KStr "items"])%list))
  | PList l => exists l', y = PList l' /\ length l' = length l
  | _ => y = x
  end.
Proof.
  rewrite fix_schema_resolved. destruct x; try (destruct n; [discriminate|];
    cbn [fix_schema_types_recursive fix_schema_body]; intros [= <-]; reflexivity).
  - destruct n as [|n]; [discriminate|]. cbn [fix_schema_types_recursive fix_schema_body].
    destruct (mapM _ l) as [l'|] eqn:Hm; [|discriminate]. cbn. intros [= <-].
    exists l'. split; [reflexivity|]. apply mapM_Some in Hm.
    symmetry. apply (Forall2_length _ _ _ Hm).
  - apply keys_fix_schema_dict.
Qed.

Lemma schema_fix_keeps_keys_witness :
  exists d', PDict [(KStr "type", PStr "array");
                    (KStr "items", PDict [(KStr "type", PStr "string")])] = PDict d'
             /\ (keys d' = keys [(KStr "type", PList [PStr "array"; PStr "null"])]
                 \/ (dict_has "items" [(KStr "type", PList [PStr "array"; PStr "null"])]
                     = false
                     /\ keys d'
                        = (keys [(KStr "type", PList [PStr "array"; PStr "null"])]
                           ++ [KStr "items"])%list)).
Proof.
  exact (schema_fix_keeps_keys
           (Some {| convert_type_arrays_to := "array"; validate_api_key := true;
                    verbose := false; aggressive := true |})
           3 (PDict [(KStr "type", PList [PStr "array"; PStr "null"])]) _ eq_refl).
Defined.

(** *** [fix_openai_validation_errors] on its own *)

Lemma openai_fixed_dict d :
  openai_fixed (PDict d)
  = negb (array_without_items d) && forallb (fun kv => fixed_value (snd kv)) d.
Proof. reflexivity. Qed.

Lemma fixed_value_dict v : is_dict v = true -> fixed_value v = openai_fixed v.
Proof. destruct v; try discriminate. reflexivity. Qed.

Lemma fixed_on_dict (f : pyval -> option pyval) :
  kind_preserving f ->
  (forall v v', f v = Some v' -> openai_fixed v' = true) ->
  forall x y, on_dict f x = Some y ->
              match y with PDict _ => openai_fixed y | _ => true end = true.
Proof.
  intros Hk Hf x y. unfold on_dict. destruct x; try (intros [= <-]; reflexivity).
  intros H. rewrite (Hf _ _ H). destruct y; reflexivity.
Qed.

Lemma fixed_fix_nested (f : pyval -> option pyval) :
  kind_preserving f ->
  (forall v v', f v = Some v' -> openai_fixed v' = true) ->
  forall v v', fix_nested f v = Some v' -> fixed_value v' = true.
Proof.
  intros Hk Hf v v'. unfold fix_nested. destruct v; try (intros [= <-]; reflexivity).
  - destruct (mapM (on_dict f) l) as [l'|] eqn:Hm; [|discriminate]. cbn. intros [= <-].
    cbn [fixed_value]. apply mapM_Some in Hm.
    induction Hm as [|x y l l' Hx Hl IH]; [reflexivity|].
    cbn [forallb]. rewrite (fixed_on_dict f Hk Hf _ _ Hx), IH. reflexivity.
  - intros H. pose proof (Hk _ _ H) as Hd. cbn [same_kind] in Hd.
    rewrite (fixed_value_dict _ Hd). apply (Hf _ _ H).
Qed.

Lemma fixed_fix_openai_body (f : pyval -> option pyval) :
  kind_preserving f ->
  (forall v v', f v = Some v' -> openai_fixed v' = true) ->
  forall v v', fix_openai_body f v = Some v' -> openai_fixed v' = true.
Proof.
  intros Hk Hf v v' H.
  destruct v; try (unfold fix_openai_body in H; injection H as <-; reflexivity).
  destruct (openai_result_body f Hk _ _ H) as (d' & -> & Hawi).
  rewrite openai_fixed_dict, Hawi. cbn [negb andb]. clear Hawi.
  unfold fix_openai_body in H.
  destruct (fix_properties f (add_items d)) as [d1|]; [|discriminate]. cbn in H.
  destruct (for_values (fix_nested f) d1) as [d2|] eqn:H2; [|discriminate].
  cbn in H. injection H as <-. apply for_values_inv in H2.
  induction H2 as [|x y l l' [_ Hx] Hl IH]; [reflexivity|].
  cbn [forallb]. rewrite (fixed_fix_nested f Hk Hf _ _ Hx), IH. reflexivity.
Qed.

(** what [fix_openai_validation_errors] returns has no [array] without
    [items] where it looks *)
Lemma fixed_fix_openai n v v' :
  fix_openai_validation_errors n v = Some v' -> openai_fixed v' = true.
Proof.
  revert v v'. induction n as [|n IH]; [discriminate|].
  apply (fixed_fix_openai_body _ (kind_fix_openai n) IH).
Qed.

Lemma openai_fixed_values d :
  openai_fixed (PDict d) = true ->
  array_without_items d = false
  /\ Forall (fun kv => fixed_value (snd kv) = true) d.
Proof.
  rewrite openai_fixed_dict. intros H. apply andb_true_iff in H as [H1 H2].
  split; [destruct (array_without_items d); [discriminate | reflexivity]|].
  apply Forall_forall. intros kv Hin. rewrite forallb_forall in H2.
  apply H2. apply list_elem_of_In, Hin.
Qed.

Lemma keeps_fixed_on_dict f x y :
  keeps_fixed f -> fixed_value x = true -> on_dict f x = Some y -> y = x.
Proof.
  intros Hf Hx. unfold on_dict. destruct x; try (intros [= <-]; reflexivity).
  apply Hf, Hx.
Qed.

Lemma keeps_fixed_list f l l' :
  keeps_fixed f ->
  forallb (fun x => match x with PDict _ => openai_fixed x | _ => true end) l = true ->
  mapM (on_dict f) l = Some l' -> l' = l.
Proof.
  intros Hf Hl Hm. apply (mapM_id _ _ _ Hm). apply Forall_forall. intros x Hin y Hy.
  rewrite forallb_forall in Hl. specialize (Hl x (proj1 (list_elem_of_In _ _) Hin)).
  unfold on_dict in Hy. destruct x; try (injection Hy as <-; reflexivity).
  apply (Hf _ _ Hl Hy).
Qed.

Lemma keeps_fixed_nested f x y :
  keeps_fixed f -> fixed_value x = true -> fix_nested f x = Some y -> y = x.
Proof.
  intros Hf Hx. unfold fix_nested. destruct x; try (intros [= <-]; reflexivity).
  - destruct (mapM (on_dict f) l) as [l'|] eqn:Hm; [|discriminate]. cbn. intros [= <-].
    f_equal. apply (keeps_fixed_list f _ _ Hf Hx Hm).
  - apply Hf, Hx.
Qed.

Lemma fix_args_fixed props :
  Forall (fun kv => fixed_value (snd kv) = true) props -> fix_args props = props.
Proof.
  intros Hp. unfold fix_args.
  destruct (dict_get "args" props) as [[ | | | | | |a| ]|] eqn:Ha; auto.
  pose proof (dict_get_Forall (fun x => fixed_value x = true) _ _ _ Ha Hp) as Hna.
  destruct (openai_fixed_values _ Hna) as [Hawa _].
  rewrite (add_items_id _ Hawa). apply dict_set_same, Ha.
Qed.

Lemma fix_properties_fixed f d d' :
  keeps_fixed f -> Forall (fun kv => fixed_value (snd kv) = true) d ->
  fix_properties f d = Some d' -> d' = d.
Proof.
  intros Hf Hd. unfold fix_properties.
  destruct (dict_get "properties" d) as [[ | | | | | |props| ]|] eqn:Hp;
    try (intros [= <-]; reflexivity).
  pose proof (dict_get_Forall (fun x => fixed_value x = true) _ _ _ Hp Hd) as Hnp.
  destruct (openai_fixed_values _ Hnp) as [_ Hpv].
  rewrite (fix_args_fixed _ Hpv).
  destruct (for_values (on_dict f) props) as [props'|] eqn:Hfor; [|discriminate].
  cbn. intros [= <-].
  assert (props' = props) as ->.
  { apply (for_values_id _ _ _ Hfor). apply Forall_forall. intros kv Hin y Hy.
    rewrite Forall_forall in Hpv. apply (keeps_fixed_on_dict f _ _ Hf (Hpv _ Hin) Hy). }
  apply dict_set_same, Hp.
Qed.

Lemma keeps_fixed_body f : keeps_fixed f -> keeps_fixed (fix_openai_body f).
Proof.
  intros Hf v v' Hn. unfold fix_openai_body.
  destruct v; try (intros [= <-]; reflexivity).
  destruct (openai_fixed_values _ Hn) as [Hawi Hvals].
  rewrite (add_items_id _ Hawi).
  destruct (fix_properties f d) as [d1|] eqn:H1; [|discriminate].
  rewrite (fix_properties_fixed _ _ _ Hf Hvals H1). cbn.
  destruct (for_values (fix_nested f) d) as [d2|] eqn:H2; [|discriminate].
  cbn. intros [= <-]. f_equal.
  apply (for_values_id _ _ _ H2). apply Forall_forall. intros kv Hin y Hy.
  rewrite Forall_forall in Hvals. apply (keeps_fixed_nested f _ _ Hf (Hvals _ Hin) Hy).
Qed.

Lemma keeps_fixed_openai n : keeps_fixed (fix_openai_validation_errors n).
Proof.
  induction n as [|n IH]; [intros v v' _; discriminate|].
  apply (keeps_fixed_body _ IH).
Qed.

(** X18. [fix_openai_validation_errors] is idempotent, with no condition:
    what a first call returns, a second call returns unchanged. In the
    result no dict that the function reaches (the dict, the dicts among
    its values and in the lists among its values, and so on) is an
    [array] without [items]; a value that is no dict, a list included,
    is returned as it is. The call returns when the depth of calls
    allowed exceeds the height of the schema. *)
Theorem openai_fix_idempotent (x : pyval) :
  (forall n m y z,
      fix_openai_validation_errors n x = Some y ->
      openai_fixed y = true
      /\ (fix_openai_validation_errors m y = Some z -> z = y))
  /\ (forall n, is_dict x = false -> fix_openai_validation_errors (S n) x = Some x)
  /\ (forall n, (height x < n)%nat ->
                exists y, fix_openai_validation_errors n x = Some y
                          /\ fix_openai_validation_errors n y = Some y).
Proof.
  split; [|split].
  - intros n m y z Hy. pose proof (fixed_fix_openai _ _ _ Hy) as Hf.
    split; [exact Hf|]. apply (keeps_fixed_openai m _ _ Hf).
  - intros n Hx. destruct x; try reflexivity. discriminate Hx.
  - intros n Hn. destruct (returns_fix_openai n x Hn) as (y & Hy & Hh).
    exists y. split; [exact Hy|].
    destruct (returns_fix_openai n y ltac:(lia)) as (z & Hz & _).
    rewrite Hz. f_equal. apply (keeps_fixed_openai n _ _ (fixed_fix_openai _ _ _ Hy) Hz).
Qed.

End FixerFacts.

(* ===================================================================== *)
(** ** Properties of [fix_tool_schema_objects] *)
(* ===================================================================== *)

Module ToolFacts.
Import Text Py Schema Tools Props PyFacts SchemaFacts FixerFacts.

(** *** The fix of [args] on one schema *)

Lemma array_condition a :
  match dict_get "type" a with
  | Some (PStr t) => String.eqb t "array"
  | _ => false
  end && negb (dict_has "items" a) = array_without_items a.
Proof.
  unfold array_without_items.
  destruct (dict_get "type" a) as [[ | | | |t| | | ]|]; reflexivity.
Qed.

Lemma fix_contract_call_args_dict d p :
  dict_get "properties" d = Some (PDict p) ->
  args_is_dict d = true ->
  fix_contract_call_args d = Ok (with_fixed_args d).
Proof.
  intros Hp Ha. unfold fix_contract_call_args, with_fixed_args, args_is_dict in *.
  rewrite Hp in *. cbn [py_in rbind]. rewrite dict_has_get. unfold fix_args.
  destruct (dict_get "args" p) as [a|] eqn:Hargs.
  - destruct a; try discriminate Ha. cbn [py_getitem rbind py_get].
    rewrite Hargs. cbn [rbind py_get]. rewrite array_condition. unfold add_items.
    destruct (array_without_items d0); [reflexivity|].
    rewrite (dict_set_same _ _ _ Hargs), (dict_set_same _ _ _ Hp). reflexivity.
  - rewrite (dict_set_same _ _ _ Hp). reflexivity.
Qed.

Lemma fix_contract_call_args_none d :
  dict_get "properties" d = None -> fix_contract_call_args d = Ok d.
Proof. intros H. unfold fix_contract_call_args. rewrite H. reflexivity. Qed.

Lemma dict_set_twice k v w d : dict_set k v (dict_set k w d) = dict_set k v d.
Proof.
  induction d as [|[[k'|z|c r] x] d IH]; cbn [dict_set].
  - rewrite String.eqb_refl. reflexivity.
  - destruct (String.eqb k k') eqn:E; cbn [dict_set]; rewrite E; [reflexivity|].
    rewrite IH. reflexivity.
  - rewrite IH. reflexivity.
  - rewrite IH. reflexivity.
Qed.

Lemma fix_args_twice p : fix_args (fix_args p) = fix_args p.
Proof.
  destruct (dict_get "args" p) as [[ | | | | | |a| ]|] eqn:Ha.
  all: try (assert (E : fix_args p = p) by (unfold fix_args; rewrite Ha; reflexivity);
            rewrite !E; reflexivity).
  assert (E : fix_args p = dict_set "args" (PDict (add_items a)) p)
    by (unfold fix_args; rewrite Ha; reflexivity).
  rewrite E. unfold fix_args. rewrite dict_get_set_eq.
  rewrite (add_items_id _ (add_items_normal a)). apply dict_set_twice.
Qed.

(** X19. The special case for [contractCall] on a schema whose
    [properties], if there, are a dict with a dict (or nothing) as [args]:
    it returns, its result is the schema with the [args] fix of
    [fix_openai_validation_errors] applied to the properties, a second
    run changes nothing, and [args] is then no [array] without [items]. *)
Theorem contract_call_args_fixed d :
  args_is_dict d = true ->
  fix_contract_call_args d = Ok (with_fixed_args d)
  /\ fix_contract_call_args (with_fixed_args d) = Ok (with_fixed_args d)
  /\ forall p a,
       dict_get "properties" (with_fixed_args d) = Some (PDict p) ->
       dict_get "args" p = Some (PDict a) ->
       array_without_items a = false.
Proof.
  intros Ha. destruct (dict_get "properties" d) as [props|] eqn:Hp.
  2: { assert (Hw : with_fixed_args d = d) by (unfold with_fixed_args; rewrite Hp; reflexivity).
       rewrite Hw, (fix_contract_call_args_none _ Hp). repeat split. congruence. }
  destruct props as [ | | | | | |p| ];
    try (unfold args_is_dict in Ha; rewrite Hp in Ha; discriminate Ha).
  assert (Hw : with_fixed_args d = dict_set "properties" (PDict (fix_args p)) d)
    by (unfold with_fixed_args; rewrite Hp; reflexivity).
  assert (Hp' : dict_get "properties" (with_fixed_args d) = Some (PDict (fix_args p)))
    by (rewrite Hw; apply dict_get_set_eq).
  assert (Hfa : forall a, dict_get "args" (fix_args p) = Some (PDict a) ->
                          array_without_items a = false).
  { intros a. unfold fix_args.
    destruct (dict_get "args" p) as [[ | | | | | |a0| ]|] eqn:E; try congruence.
    rewrite dict_get_set_eq. intros [= <-]. apply add_items_normal. }
  split; [apply (fix_contract_call_args_dict _ _ Hp Ha)|]. split.
  - rewrite (fix_contract_call_args_dict _ _ Hp').
    + unfold with_fixed_args at 1. rewrite Hp', fix_args_twice, Hw.
      apply f_equal, dict_set_twice.
    + unfold args_is_dict. rewrite Hp'. unfold fix_args.
      destruct (dict_get "args" p) as [[ | | | | | |a0| ]|] eqn:E; rewrite ?E;
        try reflexivity; try (unfold args_is_dict in Ha; rewrite Hp, E in Ha; discriminate Ha).
      rewrite dict_get_set_eq. reflexivity.
  - intros p' a. rewrite Hp'. intros [= <-]. apply Hfa.
Qed.

Lemma contract_call_args_fixed_witness :
  fix_contract_call_args
    [(KStr "type", PStr "object");
     (KStr "properties", PDict [(KStr "args", PDict [(KStr "type", PStr "array")])])]
  = Ok [(KStr "type", PStr "object");
        (KStr "properties",
         PDict [(KStr "args", PDict [(KStr "type", PStr "array");
                                      (KStr "items", PDict [(KStr "type", PStr "string")])])])].
Proof.
  exact (proj1 (contract_call_args_fixed
                  [(KStr "type", PStr "object");
                   (KStr "properties",
                    PDict [(KStr "args", PDict [(KStr "type", PStr "array")])])]
                  eq_refl)).
Defined.

(** *** The tools *)

Lemma fix_schema_attr_frame attr tool tool' :
  fix_schema_attr attr tool = Ok tool' ->
  (forall other, other <> attr -> tool' !! other = tool !! other)
  /\ (forall other, is_Some (tool' !! other) <-> is_Some (tool !! other)).
Proof.
  unfold fix_schema_attr.
  destruct (tool !! attr) as [[ | | | | | |schema| ]|] eqn:E;
    try (intros [= <-]; split; [reflexivity | tauto]).
  destruct (fix_contract_call_args schema) as [schema'|]; [|discriminate].
  cbn [rbind]. intros [= <-]. split.
  - intros other Ho. apply lookup_insert_ne. congruence.
  - intros other. destruct (decide (other = attr)) as [-> | Ho].
    + rewrite lookup_insert_eq, E. split; eauto.
    + rewrite lookup_insert_ne by congruence. tauto.
Qed.

Lemma fix_schema_attrs_frame attrs tool :
  (forall other, ~ In other attrs ->
                 snd (fix_schema_attrs attrs tool) !! other = tool !! other)
  /\ (forall other, is_Some (snd (fix_schema_attrs attrs tool) !! other)
                    <-> is_Some (tool !! other)).
Proof.
  revert tool. induction attrs as [|attr rest IH]; intros tool.
  - split; [reflexivity | tauto].
  - cbn [fix_schema_attrs].
    destruct (fix_schema_attr attr tool) as [tool'|e] eqn:E; [|split; [reflexivity | tauto]].
    destruct (fix_schema_attr_frame _ _ _ E) as [H1 H2].
    destruct (IH tool') as [I1 I2]. split.
    + intros other Ho. rewrite I1 by (intros Hin; apply Ho; right; exact Hin).
      apply H1. intros ->. apply Ho. left. reflexivity.
    + intros other. rewrite I2. apply H2.
Qed.

Lemma fix_tool_touched tool : touched_as_contract_call tool (snd (fix_tool tool)).
Proof.
  unfold touched_as_contract_call, fix_tool.
  destruct (tool !! "name") as [[ | | | |name| | | ]|] eqn:E;
    try (repeat split; tauto).
  destruct (String.eqb name "contractCall") eqn:En; [|repeat split; tauto].
  apply String.eqb_eq in En. subst name.
  destruct (fix_schema_attrs_frame schema_attrs tool) as [H1 H2].
  split; [exact H1|]. split; [exact H2|]. congruence.
Qed.

(** X20. [fix_tool_schema_objects] touches the [contractCall] tools only,
    and of these the four schema attributes only: whether it returns or
    raises, the list has the same tools in the same order, a tool with
    another name (or without a name) is as it was, and no attribute of a
    tool comes, goes or, outside the four schemas, changes. *)
Theorem only_contract_call_is_touched (tools : list Tool) :
  Forall2 touched_as_contract_call tools (snd (fix_tool_schema_objects tools)).
Proof.
  induction tools as [|tool rest IH]; [constructor|].
  cbn [fix_tool_schema_objects]. pose proof (fix_tool_touched tool) as Ht.
  destruct (fix_tool tool) as [[u|e] tool']; cbn [snd] in Ht.
  - destruct (fix_tool_schema_objects rest) as [outcome rest']. cbn [snd] in *.
    constructor; assumption.
  - cbn [snd]. constructor; [exact Ht|].
    clear. induction rest as [|t rest IH]; constructor; [|exact IH].
    repeat split; tauto.
Qed.

(** X21. A [contractCall] schema whose [args] is JSON data but no dict
    (the boolean schema [true], for one) makes the special case raise
    [AttributeError], where [fix_openai_validation_errors] tests the type
    and returns. [fix_tool_schema_objects] then raises as well, and the
    tools behind the failing one are left unvisited. *)
Theorem contract_call_args_not_a_dict d p a (tool : Tool) (rest : list Tool) :
  dict_get "properties" d = Some (PDict p) ->
  dict_get "args" p = Some a ->
  json_data a = true ->
  is_dict a = false ->
  tool !! "name" = Some (PStr "contractCall") ->
  tool !! "schema" = Some (PDict d) ->
  fix_contract_call_args d
  = Raise (AttributeError ("'" ++ class_name a ++ "' object has no attribute 'get'"))
  /\ fix_tool_schema_objects (tool :: rest)
     = (Raise (AttributeError ("'" ++ class_name a ++ "' object has no attribute 'get'")),
        tool :: rest)
  /\ forall n, (height (PDict d) < n)%nat ->
               exists y, fix_openai_validation_errors n (PDict d) = Some y.
Proof.
  intros Hp Ha _ Hd Hn Hs.
  assert (Hf : fix_contract_call_args d
               = Raise (AttributeError ("'" ++ class_name a
                                            ++ "' object has no attribute 'get'"))).
  { unfold fix_contract_call_args. rewrite Hp. cbn [py_in rbind].
    rewrite dict_has_get, Ha. cbn [py_getitem rbind]. rewrite Ha. cbn [rbind].
    destruct a; try discriminate Hd; reflexivity. }
  split; [exact Hf|]. split.
  - cbn [fix_tool_schema_objects]. unfold fix_tool. rewrite Hn.
    cbn [String.eqb Ascii.eqb Bool.eqb]. unfold schema_attrs. cbn [fix_schema_attrs].
    unfold fix_schema_attr at 1. rewrite Hs, Hf. reflexivity.
  - intros n Hh. destruct (returns_fix_openai n (PDict d) Hh) as (y & Hy & _). eauto.
Qed.

Lemma contract_call_args_not_a_dict_witness :
  fix_tool_schema_objects
    [{[ "name" := PStr "contractCall"; "schema" := PDict boolean_args_schema ]};
     contract_call_tool]
  = (Raise (AttributeError "'bool' object has no attribute 'get'"),
     [{[ "name" := PStr "contractCall"; "schema" := PDict boolean_args_schema ]};
      contract_call_tool]).
Proof.
  exact (proj1 (proj2 (contract_call_args_not_a_dict boolean_args_schema
                         [(KStr "args", PBool true)] (PBool true)
                         {[ "name" := PStr "contractCall";
                            "schema" := PDict boolean_args_schema ]}
                         [contract_call_tool] eq_refl eq_refl eq_refl eq_refl eq_refl
                         eq_refl))).
Defined.

(** *** The special case and the fixers *)

Lemma fix_contract_call_args_unchanged d d' :
  openai_fixed (PDict d) = true -> fix_contract_call_args d = Ok d' -> d' = d.
Proof.
  intros Hf. destruct (openai_fixed_values _ Hf) as [_ Hvals].
  unfold fix_contract_call_args.
  destruct (dict_get "properties" d) as [props|] eqn:Hp; [|intros [= <-]; reflexivity].
  pose proof (dict_get_Forall (fun x => fixed_value x = true) _ _ _ Hp Hvals) as Hfp.
  destruct props as [ | | | |s|l|p| ]; try discriminate; cbn [py_in rbind].
  - destruct (contains "args" s); [discriminate | intros [= <-]; reflexivity].
  - destruct (existsb _ l); [discriminate | intros [= <-]; reflexivity].
  - rewrite dict_has_get.
    destruct (dict_get "args" p) as [a|] eqn:Ha; [|intros [= <-]; reflexivity].
    cbn [py_getitem rbind]. rewrite Ha. cbn [rbind].
    destruct a as [ | | | | | |a| ]; try discriminate. cbn [py_get rbind].
    destruct (openai_fixed_values _ Hfp) as [_ Hpv].
    pose proof (dict_get_Forall (fun x => fixed_value x = true) _ _ _ Ha Hpv) as Hfa.
    destruct (openai_fixed_values _ Hfa) as [Hawi _].
    rewrite array_condition, Hawi. intros [= <-]. reflexivity.
Qed.

(** X22. The special case for [contractCall] has nothing left to do on a
    schema that went through [fix_openai_validation_errors], which
    [fix_schema_types_recursive] calls first: it returns the schema as it
    is (or raises, when the properties are no dict). *)
Theorem contract_call_fix_is_subsumed n d d1 d' :
  fix_openai_validation_errors n (PDict d) = Some (PDict d1) ->
  fix_contract_call_args d1 = Ok d' ->
  d' = d1.
Proof.
  intros H1. apply fix_contract_call_args_unchanged.
  apply (fixed_fix_openai _ _ _ H1).
Qed.

Lemma contract_call_fix_is_subsumed_witness :
  match fix_openai_validation_errors 4 contract_call_schema with
  | Some (PDict d1) => fix_contract_call_args d1 = Ok d1
  | _ => False
  end.
Proof.
  cbv beta iota.
  assert (H : exists d1, fix_openai_validation_errors 4 contract_call_schema
                         = Some (PDict d1)) by (eexists; reflexivity).
  destruct H as [d1 H1]. rewrite H1.
  destruct (fix_contract_call_args d1) as [d'|e] eqn:H2.
  - rewrite (contract_call_fix_is_subsumed 4 _ d1 d' H1 H2). reflexivity.
  - exfalso. revert H2. vm_compute in H1. injection H1 as <-. discriminate.
Defined.

End ToolFacts.
